(** * Whisper queue worker: a shallow embedding of [queue/worker.py]

    The worker watches [inbox/], hands every audio file to the
    transcription engine, writes the result under [output/] and moves the
    source file to [done/] or [failed/].  The development below embeds the
    functions of [worker.py] in a small state-and-exception monad over an
    explicit file system, and proves the properties of the queue state
    machine.  The producer, [enqueue_files] of [queue/enqueue.py], is
    embedded in the same monad.

    Modelling conventions.
    - A Python [str] is a [string] whose characters are code points below
      256; [encoding="utf-8"] is written out for that range.
    - A path is a directory of the queue, or the script directory itself,
      together with an entry name ([INBOX_DIR / name]).  The queue
      directories exist and hold regular files only.
    - Everything the outside world decides (I/O errors and what they leave
      behind, what other processes do to the directories while the worker
      blocks, wall-clock readings) is read from an [Env], indexed by a
      logical clock that advances at every call that can fail or block.
    - [Path.exists] raises the [OSError]s that [pathlib] does not take for
      "no such file".  [time.sleep] refuses a negative length.
      [shutil.move] renames, or copies and then unlinks: when it raises,
      the source is still in place and the destination may hold a copy,
      whole or partial.  [Path.write_text] and [shutil.copy2] create the
      file before they fill it: when they raise, the file may be left
      empty or cut short.
    - Glob patterns are matched case-sensitively (POSIX flavour).  The
      members of the set [AUDIO_EXTENSIONS] are visited in the order in
      which they are written; the order only shows among files that have
      the same modification time.
    - [pathlib] is that of Python 3.9 to 3.13.
    - [KeyboardInterrupt] is not an error and is outside the model. *)

From stdpp Require Import base gmap strings list sorting pretty.
From Stdlib Require Import ZArith QArith Ascii String Permutation.
From Stdlib.Strings Require Import Byte.

#[local] Set Warnings "-register-all".

Local Open Scope string_scope.
Local Open Scope Z_scope.

(** ** Paths *)

(** The four directories of the queue, and [SCRIPT_DIR], in which they
    lie. *)
Inductive Dir := Inbox | Output | Done | Failed | Script.

#[global] Instance Dir_eq_dec : EqDecision Dir.
Proof. solve_decision. Defined.

Definition Dir_to_nat (d : Dir) : nat :=
  match d with
  | Inbox => 0 | Output => 1 | Done => 2 | Failed => 3 | Script => 4
  end%nat.

Definition Dir_of_nat (n : nat) : option Dir :=
  match n with
  | 0 => Some Inbox | 1 => Some Output | 2 => Some Done | 3 => Some Failed
  | 4 => Some Script
  | _ => None
  end%nat.

#[global] Instance Dir_countable : Countable Dir.
Proof.
  refine (inj_countable Dir_to_nat Dir_of_nat _).
  intros []; reflexivity.
Defined.

(** An entry of a directory: [SCRIPT_DIR / "inbox" / name] and the like. *)
Abbreviation Path := (Dir * string)%type.

Definition INBOX_DIR : Dir := Inbox.
Definition OUTPUT_DIR : Dir := Output.
Definition DONE_DIR : Dir := Done.
Definition FAILED_DIR : Dir := Failed.

Definition parent (p : Path) : Dir := fst p.
Definition name (p : Path) : string := snd p.

(** The name a directory goes by in its parent. *)
Definition dir_name (d : Dir) : string :=
  match d with
  | Inbox => "inbox" | Output => "output" | Done => "done"
  | Failed => "failed" | Script => ""
  end.

(** [dir / part] for a queue directory: [pathlib] drops a part that is
    empty or a single dot, and then the result is the directory itself, an
    entry of the script directory. *)
Definition join (dir : Dir) (part : string) : Path :=
  if bool_decide (part = "" \/ part = ".") then (Script, dir_name dir)
  else (dir, part).

(** ** Files and the file system *)

Record File := mkFile { data : list byte; mtime : Z }.

Record stat_result := mkStat { st_size : Z; st_mtime : Z }.

Definition stat_of (f : File) : stat_result :=
  {| st_size := Z.of_nat (List.length (data f)); st_mtime := mtime f |}.

Abbreviation FS := (gmap Path File).

(** ** Exceptions *)

Inductive exn_class := OSError | ValueError | OtherException.

Record exn := Exn { class_of : exn_class; str_of : string }.

Definition is_OSError (e : exn) : bool :=
  match class_of e with OSError => true | _ => false end.

(** [except Exception] catches every error of the model. *)
Definition is_Exception (e : exn) : bool := true.

Inductive outcome (A : Type) :=
| Return (a : A)
| Raise (e : exn).
Arguments Return {A} a.
Arguments Raise {A} e.

(** ** The transcription result and JSON values *)

Inductive JValue :=
| JNull
| JBool (b : bool)
| JNum (literal : string)
| JStr (s : string)
| JArr (items : list JValue)
| JObj (members : list (string * JValue)).

(** The dict returned by [model.transcribe]: ["text"] is always present,
    ["language"] and ["segments"] are read with [.get]. *)
Record TResult := mkResult {
  r_text : string;
  r_language : option string;
  r_segments : option (list JValue)
}.

(** ** The environment *)

(** What a copy that failed has left at its destination: nothing, the
    first [n] bytes, or the whole file with its times. *)
Inductive residue :=
| Nothing
| Partial (n : nat)
| Whole.

Definition left_behind (r : residue) (f : File) (now : Z) : option File :=
  match r with
  | Nothing => None
  | Partial n => Some (mkFile (take n (data f)) now)
  | Whole => Some f
  end.

Record Env := mkEnv {
  (** what other processes do to the directories during the blocking call
      issued at logical time [t] *)
  interfere : nat -> FS -> FS;
  (** [Path.exists] fails with an [OSError] carrying this message *)
  exists_raises : nat -> Path -> option string;
  (** [os.stat] fails with an [OSError] carrying this message *)
  stat_raises : nat -> Path -> option string;
  (** [Path.write_text] fails: before the file is opened, or after it was
      opened and so many bytes reached it *)
  write_raises : nat -> Path -> option (exn * option nat);
  (** [shutil.move] fails, and what it leaves at the destination *)
  move_raises : nat -> Path -> Path -> option (exn * residue);
  (** wall clock: modification time given to a file written at [t] *)
  wall_clock : nat -> Z;
  (** [datetime.now().isoformat()] *)
  now_isoformat : nat -> string;
  (** [datetime.now().strftime('%H:%M:%S')] *)
  now_hms : nat -> string;
  (** [time.time() - start] printed with [:.1f] for the call begun at [t] *)
  elapsed_1f : nat -> string
}.

(** A loaded model: what [model.transcribe(path)] does at time [t]. *)
Definition Whisper := nat -> Path -> outcome TResult.

(** ** Worlds and the monad *)

Inductive event :=
| EvPrint (line : string)
| EvExists (p : Path)
| EvStat (p : Path)
| EvSleep (seconds : Q)
| EvTranscribe (p : Path)
| EvWrite (p : Path) (text : string)
| EvMove (src dst : Path)
| EvNow.

Record World := mkWorld {
  fs : FS;
  clock : nat;
  log : list event
}.

Definition M (A : Type) : Type := World -> outcome A * World.

Definition ret {A} (a : A) : M A := fun w => (Return a, w).

Definition raise {A} (e : exn) : M A := fun w => (Raise e, w).

Definition bind {A B} (m : M A) (k : A -> M B) : M B :=
  fun w =>
    match m w with
    | (Return a, w') => k a w'
    | (Raise e, w') => (Raise e, w')
    end.

(** [try: body  except <class> as e: handler e] *)
Definition try_except {A} (body : M A) (catches : exn -> bool)
    (handler : exn -> M A) : M A :=
  fun w =>
    match body w with
    | (Return a, w') => (Return a, w')
    | (Raise e, w') => if catches e then handler e w' else (Raise e, w')
    end.

Notation "'let*' x ':=' m 'in' k" := (bind m (fun x => k))
  (at level 10, x name, m at level 100, k at level 200).
Notation "m '>>' k" := (bind m (fun _ => k))
  (at level 90, right associativity).

Definition run {A} (m : M A) (w : World) : outcome A := fst (m w).
Definition exec {A} (m : M A) (w : World) : World := snd (m w).

(** [for x in xs: body x] *)
Fixpoint for_each {A} (xs : list A) (body : A -> M unit) : M unit :=
  match xs with
  | [] => ret tt
  | x :: xs' => body x >> for_each xs' body
  end.

(** ** System calls *)

Definition emit (e : event) (w : World) : World :=
  {| fs := fs w; clock := clock w; log := log w ++ [e] |}.

Definition tick (e : event) (w : World) : World :=
  {| fs := fs w; clock := S (clock w); log := log w ++ [e] |}.

Definition set_fs (m : FS) (w : World) : World :=
  {| fs := m; clock := clock w; log := log w |}.

Definition print (line : string) : M unit :=
  fun w => (Return tt, emit (EvPrint line) w).

Section Syscalls.
Variable E : Env.

(** [path.exists()] *)
Definition exists_ (path : Path) : M bool :=
  fun w =>
    let w' := tick (EvExists path) w in
    match exists_raises E (clock w) path with
    | Some msg => (Raise (Exn OSError msg), w')
    | None => (Return (bool_decide (is_Some (fs w !! path))), w')
    end.

(** [path.stat()] *)
Definition stat (path : Path) : M stat_result :=
  fun w =>
    let w' := tick (EvStat path) w in
    match stat_raises E (clock w) path with
    | Some msg => (Raise (Exn OSError msg), w')
    | None =>
        match fs w !! path with
        | Some f => (Return (stat_of f), w')
        | None => (Raise (Exn OSError "No such file or directory"), w')
        end
    end.

(** [time.sleep(seconds)]: a negative length is refused; otherwise the
    worker blocks and the world moves on. *)
Definition sleep (seconds : Q) : M unit :=
  fun w =>
    if Qle_bool 0 seconds then
      (Return tt,
       set_fs (interfere E (clock w) (fs w)) (tick (EvSleep seconds) w))
    else (Raise (Exn ValueError "sleep length must be non-negative"), w).

End Syscalls.

(** ** [is_file_ready] *)

Definition is_file_ready (E : Env) (path : Path) (wait_time : Q) : M bool :=
  let* present := exists_ E path in
  if negb present then ret false
  else
    try_except
      (let* st := stat E path in
       let initial_size := st_size st in
       sleep E wait_time >>
       let* present' := exists_ E path in
       if negb present' then ret false
       else
         let* st' := stat E path in
         ret ((st_size st' =? initial_size)%Z && (0 <? initial_size)%Z))
      is_OSError
      (fun _ => ret false).

(** ** Strings as Python uses them here *)

(** [str.upper] on the ASCII range, where the extension constants live. *)
Definition upper_char (c : ascii) : ascii :=
  let n := nat_of_ascii c in
  if ((97 <=? n) && (n <=? 122))%nat then ascii_of_nat (n - 32) else c.

Fixpoint upper (s : string) : string :=
  match s with
  | EmptyString => EmptyString
  | String c s' => String (upper_char c) (upper s')
  end.

(** [str.isspace] for one code point below 256. *)
Definition isspace (c : ascii) : bool :=
  let n := nat_of_ascii c in
  (((9 <=? n) && (n <=? 13)) || ((28 <=? n) && (n <=? 32))
   || (n =? 133) || (n =? 160))%nat.

Definition is_empty (s : string) : bool :=
  match s with EmptyString => true | String _ _ => false end.

Fixpoint lstrip (s : string) : string :=
  match s with
  | EmptyString => EmptyString
  | String c s' => if isspace c then lstrip s' else s
  end.

Fixpoint rstrip (s : string) : string :=
  match s with
  | EmptyString => EmptyString
  | String c s' =>
      let r := rstrip s' in
      if isspace c && is_empty r then EmptyString else String c r
  end.

(** [s.strip()] *)
Definition strip (s : string) : string := rstrip (lstrip s).

(** [s.rfind(c)]: the highest index of [c] in [s], or -1. *)
Fixpoint rfind_from (c : ascii) (s : string) (i last : Z) : Z :=
  match s with
  | EmptyString => last
  | String d s' => rfind_from c s' (i + 1) (if Ascii.eqb d c then i else last)
  end.

Definition rfind (c : ascii) (s : string) : Z := rfind_from c s 0 (-1).

Definition len (s : string) : Z := Z.of_nat (String.length s).

(** [PurePath.suffix] and [PurePath.stem], on the final component. *)
Definition suffix (nm : string) : string :=
  let i := rfind "." nm in
  if (0 <? i) && (i <? len nm - 1)
  then substring (Z.to_nat i) (String.length nm - Z.to_nat i) nm
  else "".

Definition stem_of (nm : string) : string :=
  let i := rfind "." nm in
  if (0 <? i) && (i <? len nm - 1) then substring 0 (Z.to_nat i) nm else nm.

Definition stem (p : Path) : string := stem_of (name p).

(** [path.with_suffix(sfx)] for a well-formed [sfx] such as [".txt"]. *)
Definition with_suffix (p : Path) (sfx : string) : outcome Path :=
  let nm := name p in
  if is_empty nm then Raise (Exn ValueError "path has an empty name")
  else
    let old_suffix := suffix nm in
    if is_empty old_suffix then Return (parent p, nm ++ sfx)
    else
      Return (parent p,
              substring 0 (String.length nm - String.length old_suffix) nm
              ++ sfx).

(** [fnmatch] for patterns made of [*] and literal characters. *)
Fixpoint fnmatch (pat : string) : string -> bool :=
  match pat with
  | EmptyString => is_empty
  | String c pat' =>
      if Ascii.eqb c "*" then
        fix star (nm : string) : bool :=
          fnmatch pat' nm
          || match nm with
             | EmptyString => false
             | String _ nm' => star nm'
             end
      else
        fun nm =>
          match nm with
          | EmptyString => false
          | String d nm' => Ascii.eqb c d && fnmatch pat' nm'
          end
  end.

(** [s.encode("utf-8")] for code points below 256. *)
Definition utf8_char (c : ascii) : list byte :=
  let n := nat_of_ascii c in
  if (n <? 128)%nat then [byte_of_ascii c]
  else [byte_of_ascii (ascii_of_nat (192 + n / 64));
        byte_of_ascii (ascii_of_nat (128 + n mod 64))].

Fixpoint utf8 (s : string) : list byte :=
  match s with
  | EmptyString => []
  | String c s' => utf8_char c ++ utf8 s'
  end.

(** ** More system calls *)

Definition lift {A} (o : outcome A) : M A := fun w => (o, w).

Section Syscalls2.
Variable E : Env.

(** [path.write_text(text, encoding="utf-8")]: the file is opened for
    writing, which empties it, and then filled. *)
Definition write_text (path : Path) (text : string) : M unit :=
  fun w =>
    let w' := tick (EvWrite path text) w in
    let now := wall_clock E (clock w) in
    match write_raises E (clock w) path with
    | None =>
        (Return tt, set_fs (<[path := mkFile (utf8 text) now]> (fs w)) w')
    | Some (e, None) => (Raise e, w')
    | Some (e, Some n) =>
        (Raise e,
         set_fs (<[path := mkFile (take n (utf8 text)) now]> (fs w)) w')
    end.

(** [shutil.move(str(src), str(dst))]: a rename, or a copy followed by the
    removal of the source. *)
Definition move (src dst : Path) : M unit :=
  fun w =>
    let w' := tick (EvMove src dst) w in
    match fs w !! src with
    | None => (Raise (Exn OSError "No such file or directory"), w')
    | Some f =>
        match move_raises E (clock w) src dst with
        | None => (Return tt, set_fs (<[dst := f]> (delete src (fs w))) w')
        | Some (e, r) =>
            (Raise e,
             match left_behind r f (wall_clock E (clock w)) with
             | Some g => set_fs (<[dst := g]> (fs w)) w'
             | None => w'
             end)
        end
    end.

(** [model.transcribe(str(path))]: a blocking call. *)
Definition transcribe (model : Whisper) (path : Path) : M TResult :=
  fun w =>
    (model (clock w) path,
     set_fs (interfere E (clock w) (fs w)) (tick (EvTranscribe path) w)).

(** [time.time()], as a logical instant. *)
Definition time_time : M nat := fun w => (Return (clock w), w).

(** [datetime.now().isoformat()] *)
Definition datetime_now_isoformat : M string :=
  fun w => (Return (now_isoformat E (clock w)), tick EvNow w).

(** [datetime.now().strftime('%H:%M:%S')] *)
Definition datetime_now_hms : M string :=
  fun w => (Return (now_hms E (clock w)), tick EvNow w).

(** [dir.glob(pattern)], in the order the directory is listed. *)
Definition glob (dir : Dir) (pattern : string) : M (list Path) :=
  fun w =>
    (Return
       (List.filter
          (fun p => bool_decide (parent p = dir) && fnmatch pattern (name p))
          (map fst (map_to_list (fs w)))),
     w).

End Syscalls2.

(** ** The worker *)

(** Supported audio extensions. *)
Definition AUDIO_EXTENSIONS : list string :=
  [".mp3"; ".wav"; ".flac"; ".m4a"; ".ogg"; ".webm"; ".mp4"; ".mpeg"; ".mpga"].

(** Stable insertion by key: what [sorted(files, key=...)] returns. *)
Fixpoint insert_by_key (x : Z * Path) (l : list (Z * Path)) : list (Z * Path) :=
  match l with
  | [] => [x]
  | y :: l' =>
      if fst x <=? fst y then x :: y :: l' else y :: insert_by_key x l'
  end.

Definition sort_by_key (l : list (Z * Path)) : list (Z * Path) :=
  foldr insert_by_key [] l.

(** [[key(f) for f in files]], evaluated left to right. *)
Fixpoint map_M {A B} (f : A -> M B) (xs : list A) : M (list B) :=
  match xs with
  | [] => ret []
  | x :: xs' =>
      let* y := f x in
      let* ys := map_M f xs' in
      ret (y :: ys)
  end.

(** [[f for f in files if f.exists()]] *)
Fixpoint filter_M {A} (f : A -> M bool) (xs : list A) : M (list A) :=
  match xs with
  | [] => ret []
  | x :: xs' =>
      let* keep := f x in
      let* ys := filter_M f xs' in
      ret (if keep then x :: ys else ys)
  end.

Section Worker.
Variable E : Env.
(** [json.dumps(_, indent=2, ensure_ascii=False)] *)
Variable json_dumps : JValue -> string.

(** The two globs of one turn of the loop over the extensions. *)
Definition glob_ext (ext : string) : M (list Path) :=
  let* lower_hits := glob INBOX_DIR ("*" ++ ext) in
  let* upper_hits := glob INBOX_DIR ("*" ++ upper ext) in
  ret (lower_hits ++ upper_hits)%list.

Fixpoint glob_all (exts : list string) : M (list Path) :=
  match exts with
  | [] => ret []
  | ext :: exts' =>
      let* found := glob_ext ext in
      let* more := glob_all exts' in
      ret (found ++ more)%list
  end.

(** The files found and still present: the list before it is sorted. *)
Definition candidates (exts : list string) : M (list Path) :=
  let* files := glob_all exts in
  filter_M (exists_ E) files.

Definition get_pending_files_over (exts : list string) : M (list Path) :=
  let* files := candidates exts in
  if bool_decide (files = []) then ret []
  else
    let* keys := map_M (fun f => let* st := stat E f in ret (st_mtime st))
                   files in
    ret (map snd (sort_by_key (zip keys files))).

Definition get_pending_files : M (list Path) :=
  get_pending_files_over AUDIO_EXTENSIONS.

Definition transcribe_file (model : Whisper) (audio_path : Path)
    : M TResult :=
  print ("  Transcribing: " ++ name audio_path) >>
  let* start := time_time in
  let* result := transcribe E model audio_path in
  print ("  Completed in " ++ elapsed_1f E start ++ "s") >>
  ret result.

Definition output_data (audio_path : Path) (result : TResult)
    (processed_at : string) : JValue :=
  JObj [("text", JStr (r_text result));
        ("language",
         match r_language result with Some l => JStr l | None => JNull end);
        ("segments", JArr (default [] (r_segments result)));
        ("source_file", JStr (name audio_path));
        ("processed_at", JStr processed_at)].

Definition save_result (audio_path : Path) (result : TResult) : M unit :=
  let output_base := join OUTPUT_DIR (stem audio_path) in
  let* txt_path := lift (with_suffix output_base ".txt") in
  write_text E txt_path (strip (r_text result)) >>
  let* json_path := lift (with_suffix output_base ".json") in
  let* processed_at := datetime_now_isoformat E in
  write_text E json_path
    (json_dumps (output_data audio_path result processed_at)) >>
  print ("  Saved: " ++ name txt_path ++ ", " ++ name json_path).

(** The body of the [try] of [process_file].  A name, unlike a stem, is
    never empty or a single dot: [DONE_DIR / audio_path.name] is an entry
    of [done/]. *)
Definition try_body (model : Whisper) (audio_path : Path) : M unit :=
  let* result := transcribe_file model audio_path in
  save_result audio_path result >>
  let* present := exists_ E audio_path in
  if present then
    let dest := (DONE_DIR, name audio_path) in
    move E audio_path dest >>
    print "  Moved to done/"
  else ret tt.

(** The [except Exception as e] clause of [process_file]. *)
Definition on_error (audio_path : Path) (e : exn) : M unit :=
  print ("  ERROR: " ++ str_of e) >>
  let* present := exists_ E audio_path in
  if present then
    try_except
      (let dest := (FAILED_DIR, name audio_path) in
       move E audio_path dest >>
       print "  Moved to failed/")
      is_Exception
      (fun move_err =>
         print ("  Could not move to failed/: " ++ str_of move_err))
  else ret tt.

Definition process_file (model : Whisper) (audio_path : Path) : M unit :=
  let* present := exists_ E audio_path in
  if negb present then
    print ("  SKIP: " ++ name audio_path ++ " no longer exists")
  else
    print ("  Checking: " ++ name audio_path) >>
    let* ready := is_file_ready E audio_path 1%Q in
    if negb ready then
      print ("  SKIP: " ++ name audio_path ++ " not ready (still copying?)")
    else
      try_except (try_body model audio_path) is_Exception
        (on_error audio_path).

(** One turn of the [while True] loop of [run_worker]. *)
Definition poll_cycle (model : Whisper) (poll_interval : Q) : M unit :=
  let* pending := get_pending_files in
  (if bool_decide (pending = []) then ret tt
   else
     let* hms := datetime_now_hms E in
     print ("[" ++ hms ++ "] Found " ++ pretty (List.length pending)
            ++ " file(s) to process") >>
     for_each pending (process_file model) >>
     print "") >>
  sleep E poll_interval.

(** The loop of [run_worker], cut after [cycles] turns. *)
Fixpoint run_worker (model : Whisper) (poll_interval : Q) (cycles : nat)
    : M unit :=
  match cycles with
  | O => ret tt
  | S n => poll_cycle model poll_interval >> run_worker model poll_interval n
  end.

End Worker.

(** ** Vocabulary of the properties *)

(** The three places a job's source file can be. *)
Definition queue_dirs : list Dir := [Inbox; Done; Failed].

Definition locations (m : FS) (nm : string) : list Dir :=
  List.filter (fun d => bool_decide (is_Some (m !! (d, nm)))) queue_dirs.

(** No name is present in two of the queue directories. *)
Definition well_placed (m : FS) : bool :=
  forallb (fun p => (List.length (locations m (name p)) <=? 1)%nat)
    (map fst (map_to_list m)).

(** The environment leaves the directories alone while the worker blocks. *)
Definition quiet (E : Env) : Prop := forall t m, interfere E t m = m.

(** A move that fails leaves nothing at its destination. *)
Definition clean_moves (E : Env) : Prop :=
  forall t src dst e r, move_raises E t src dst = Some (e, r) -> r = Nothing.

(** No [os.stat] fails from the instant of [w] on. *)
Definition stat_faultless (E : Env) (w : World) : Prop :=
  forall k p, stat_raises E (clock w + k) p = None.

(** No [Path.exists] fails from the instant of [w] on. *)
Definition exists_faultless (E : Env) (w : World) : Prop :=
  forall k p, exists_raises E (clock w + k) p = None.

(** Time does not run backwards. *)
Definition later (w w' : World) : Prop := (clock w <= clock w')%nat.

(** A property of worlds that holds from some instant on. *)
Definition lasting (P : World -> Prop) : Prop :=
  forall w w', later w w' -> P w -> P w'.

(** The steps of the worker: visiting one inbox entry, or one whole turn of
    the poll loop. *)
Inductive action :=
| Process (nm : string)
| Poll (poll_interval : Q).

Definition worker_step (E : Env) (json_dumps : JValue -> string)
    (model : Whisper) (a : action) : M unit :=
  match a with
  | Process nm => process_file E json_dumps model (INBOX_DIR, nm)
  | Poll poll_interval => poll_cycle E json_dumps model poll_interval
  end.

(** The state reached from [w] by a sequence of steps. *)
Definition reach (E : Env) (json_dumps : JValue -> string) (model : Whisper)
    (steps : list action) (w : World) : World :=
  fold_left (fun w a => exec (worker_step E json_dumps model a) w) steps w.

Definition no_backward (m m' : FS) : Prop :=
  (forall nm, m !! (Inbox, nm) = None -> m' !! (Inbox, nm) = None) /\
  (forall nm f, m !! (Done, nm) = Some f -> m' !! (Done, nm) = Some f) /\
  (forall nm f, m !! (Failed, nm) = Some f -> m' !! (Failed, nm) = Some f).

Definition no_delete (m m' : FS) : Prop :=
  (forall d nm f, In d queue_dirs -> m !! (d, nm) = Some f ->
     exists d', In d' queue_dirs /\ m' !! (d', nm) = Some f) /\
  (forall nm, is_Some (m !! (Output, nm)) -> is_Some (m' !! (Output, nm))).

Definition mtime_at (m : FS) (p : Path) : Z :=
  match m !! p with Some f => mtime f | None => 0 end.

(** [nm] ends with [sfx]. *)
Definition ends_with (sfx nm : string) : Prop := exists pre, nm = pre ++ sfx.

(** The events a computation appends to the log. *)
Definition new_events {A} (m : M A) (w : World) : list event :=
  drop (List.length (log w)) (log (exec m w)).

Definition is_move_to (dir : Dir) (src : Path) (ev : event) : bool :=
  match ev with
  | EvMove s d => bool_decide (s = src) && bool_decide (d = (dir, name src))
  | _ => false
  end.

Definition is_write (ev : event) : bool :=
  match ev with EvWrite _ _ => true | _ => false end.

(** A computation that cannot end in an exception when it starts in a
    world of [P], and that ends in such a world. *)
Definition returns_on {A : Type} (P : World -> Prop) (m : M A) : Prop :=
  forall w, P w -> exists a w', m w = (Return a, w') /\ P w'.

(** A computation that leaves the file system as it found it. *)
Definition fs_same {A : Type} (m : M A) : Prop :=
  forall w, fs (exec m w) = fs w.

(** What is known of the value a computation returns. *)
Definition post {A : Type} (m : M A) (Q : A -> Prop) : Prop :=
  forall w a w', m w = (Return a, w') -> Q a.

(** Every run of the computation relates the world before and the world
    after by [T]. *)
Definition keeps {A : Type} (T : World -> World -> Prop) (m : M A) : Prop :=
  forall w, T w (exec m w).

(** A relation on file systems, read on worlds. *)
Definition on_fs (R : FS -> FS -> Prop) (w w' : World) : Prop :=
  R (fs w) (fs w').

(** A pattern text without wildcard. *)
Fixpoint star_free (lit : string) : bool :=
  match lit with
  | EmptyString => true
  | String c lit' => negb (Ascii.eqb c "*") && star_free lit'
  end.

(** The names the scanner looks for, and the inbox entries it should list. *)
Definition recognised (exts : list string) (nm : string) : Prop :=
  exists ext, In ext exts /\ (ends_with ext nm \/ ends_with (upper ext) nm).

Definition eligible (exts : list string) (m : FS) (p : Path) : Prop :=
  is_Some (m !! p) /\ parent p = Inbox /\ recognised exts (name p).

(** The order [sorted] puts the keyed files in. *)
Definition by_key (x y : Z * Path) : Prop := fst x <= fst y.

Definition star_free_exts (exts : list string) : bool :=
  forallb (fun e => star_free e && star_free (upper e)) exts.

(** Ascending last-modified time. *)
Definition oldest_first (m : FS) (l : list Path) : Prop :=
  StronglySorted (fun p q => mtime_at m p <= mtime_at m q) l.


(** [a] comes before [b] in [l]. *)
Definition before (a b : Path) (l : list Path) : Prop :=
  exists l1 l2 l3, l = (l1 ++ a :: l2 ++ b :: l3)%list.

(** The line [run_worker] prints before it works through a batch. *)
Definition found_line (E : Env) (t : nat) (pending : list Path) : string :=
  "[" ++ now_hms E t ++ "] Found " ++ pretty (List.length pending)
  ++ " file(s) to process".


(** Where [save_result] puts the two artifacts of a job. *)
Definition txt_path_of (audio_path : Path) : outcome Path :=
  with_suffix (join OUTPUT_DIR (stem audio_path)) ".txt".

Definition json_path_of (audio_path : Path) : outcome Path :=
  with_suffix (join OUTPUT_DIR (stem audio_path)) ".json".

(** The two files [save_result] writes at logical time [t]. *)
Definition txt_file (E : Env) (t : nat) (result : TResult) : File :=
  mkFile (utf8 (strip (r_text result))) (wall_clock E t).

Definition json_file (E : Env) (json_dumps : JValue -> string) (t : nat)
    (audio_path : Path) (result : TResult) : File :=
  mkFile
    (utf8 (json_dumps
             (output_data audio_path result (now_isoformat E (S t)))))
    (wall_clock E (S (S t))).

(** No name is in two queue directories, as a proposition. *)
Definition placed_once (m : FS) : Prop :=
  forall nm d d', In d queue_dirs -> In d' queue_dirs ->
    is_Some (m !! (d, nm)) -> is_Some (m !! (d', nm)) -> d = d'.

(** What a step of the worker may do to the queue directories. *)
Definition safe (m m' : FS) : Prop :=
  placed_once m -> placed_once m' /\ no_backward m m' /\ no_delete m m'.

(** The world [process_file] hands to [is_file_ready]. *)
Definition checking (p : Path) (w : World) : World :=
  emit (EvPrint ("  Checking: " ++ name p)) (tick (EvExists p) w).

(** The world a readiness check that answered [True] leaves. *)
Definition after_ready_check (E : Env) (p : Path) (wait_time : Q)
    (w : World) : World :=
  tick (EvStat p)
    (tick (EvExists p)
       (set_fs (interfere E (S (S (clock w))) (fs w))
          (tick (EvSleep wait_time) (tick (EvStat p) (tick (EvExists p) w))))).

(** The world in which the call to the engine ends. *)
Definition after_engine (E : Env) (p : Path) (w : World) : World :=
  set_fs (interfere E (clock w) (fs w))
    (tick (EvTranscribe p) (emit (EvPrint ("  Transcribing: " ++ name p)) w)).

(** The world [transcribe_file] leaves when the engine returned. *)
Definition after_transcribe_file (E : Env) (p : Path) (w : World) : World :=
  emit (EvPrint ("  Completed in " ++ elapsed_1f E (clock w) ++ "s"))
    (after_engine E p w).

(** The world a successful [save_result] leaves. *)
Definition after_save (E : Env) (json_dumps : JValue -> string) (p : Path)
    (r : TResult) (txt json : Path) (w : World) : World :=
  {| fs := <[json := json_file E json_dumps (clock w) p r]>
             (<[txt := txt_file E (clock w) r]> (fs w));
     clock := S (S (S (clock w)));
     log := (log w ++ [EvWrite txt (strip (r_text r))] ++ [EvNow]
             ++ [EvWrite json
                   (json_dumps
                      (output_data p r (now_isoformat E (S (clock w)))))]
             ++ [EvPrint ("  Saved: " ++ name txt ++ ", " ++ name json)])%list
  |}.

(** The world a [shutil.move] that raised leaves: the source is where it
    was, and [g] is what the move left at the destination. *)
Definition blocked_move (src dst : Path) (g : option File) (w : World)
    : World :=
  match g with
  | Some g => set_fs (<[dst := g]> (fs w)) (tick (EvMove src dst) w)
  | None => tick (EvMove src dst) w
  end.

(** The world in which the [except] clause decides what to do with the
    file. *)
Definition on_error_probed (p : Path) (e : exn) (w : World) : World :=
  tick (EvExists p) (emit (EvPrint ("  ERROR: " ++ str_of e)) w).

(** The world the [except] clause leaves when its move went through. *)
Definition routed_to_failed (p : Path) (e : exn) (f : File) (w : World)
    : World :=
  emit (EvPrint "  Moved to failed/")
    (set_fs (<[(FAILED_DIR, name p) := f]> (delete p (fs w)))
       (tick (EvMove p (FAILED_DIR, name p)) (on_error_probed p e w))).

(** The world the [except] clause leaves when its move failed too. *)
Definition stuck_in_inbox (p : Path) (e move_err : exn) (g : option File)
    (w : World) : World :=
  emit (EvPrint ("  Could not move to failed/: " ++ str_of move_err))
    (blocked_move p (FAILED_DIR, name p) g (on_error_probed p e w)).

(** What "trimmed" means for a text. *)
Fixpoint all_space (s : string) : bool :=
  match s with
  | EmptyString => true
  | String c s' => isspace c && all_space s'
  end.

Definition starts_with_space (s : string) : bool :=
  match s with
  | EmptyString => false
  | String c _ => isspace c
  end.

Fixpoint ends_with_space (s : string) : bool :=
  match s with
  | EmptyString => false
  | String c EmptyString => isspace c
  | String _ s' => ends_with_space s'
  end.

(** How often [evs] tries to move [p] into [failed/]. *)
Definition attempts (p : Path) (evs : list event) : nat :=
  List.length (List.filter (is_move_to FAILED_DIR p) evs).

(** The second world has the log of the first, and after it at most [n]
    tries to move [p] into [failed/]. *)
Definition within (n : nat) (p : Path) (w w' : World) : Prop :=
  exists evs, log w' = (log w ++ evs)%list /\ (attempts p evs <= n)%nat.

(** The glob patterns of the scanner, without the leading [*]. *)
Definition endings (exts : list string) : list string :=
  flat_map (fun ext => [ext; upper ext]) exts.

(** No text of the list is the end of a later one, or has it as its end. *)
Fixpoint suffix_free (pats : list string) : bool :=
  match pats with
  | [] => true
  | a :: rest =>
      forallb (fun b => negb (fnmatch ("*" ++ a) b)
                        && negb (fnmatch ("*" ++ b) a)) rest
      && suffix_free rest
  end.

(** ** Vocabulary of the further properties *)

(** The events that call the engine or change the file system. *)
Definition is_effect (ev : event) : bool :=
  match ev with
  | EvTranscribe _ | EvWrite _ _ | EvMove _ _ => true
  | _ => false
  end.

(** The events that only look at a file. *)
Definition is_look (ev : event) : bool :=
  match ev with EvExists _ | EvStat _ => true | _ => false end.

(** Whenever the computation raises, the error and the world it leaves
    satisfy [R]. *)
Definition throws {A : Type} (R : exn -> World -> Prop) (m : M A) : Prop :=
  forall w e w', m w = (Raise e, w') -> R e w'.


(** The second world has the log of the first, followed by events that all
    satisfy [P]. *)
Definition appends (P : event -> Prop) (w w' : World) : Prop :=
  exists evs, log w' = (log w ++ evs)%list /\ Forall P evs.

(** Nothing was done but looking, waiting and printing. *)
Definition harmless : World -> World -> Prop :=
  appends (fun ev => is_effect ev = false).

Definition is_move (ev : event) : bool :=
  match ev with EvMove _ _ => true | _ => false end.

(** The world the [try] body leaves when its move into [done/] went
    through. *)
Definition moved_to_done (p : Path) (f : File) (w : World) : World :=
  emit (EvPrint "  Moved to done/")
    (set_fs (<[(DONE_DIR, name p) := f]> (delete p (fs w)))
       (tick (EvMove p (DONE_DIR, name p)) (tick (EvExists p) w))).

(** What a [write_text] that failed at the instant [t] has left of the
    file: nothing when it could not open it, else the first bytes. *)
Definition cut_short (E : Env) (t : nat) (text : string) (res : option nat)
    : option File :=
  match res with
  | Some n => Some (mkFile (take n (utf8 text)) (wall_clock E t))
  | None => None
  end.

(** The world [save_result] leaves when its second write failed, [g] being
    what that write left of the file. *)
Definition after_text_only (E : Env) (json_dumps : JValue -> string)
    (p : Path) (r : TResult) (txt json : Path) (g : option File) (w : World)
    : World :=
  {| fs := match g with
           | Some g => <[json := g]> (<[txt := txt_file E (clock w) r]> (fs w))
           | None => <[txt := txt_file E (clock w) r]> (fs w)
           end;
     clock := S (S (S (clock w)));
     log := (log w ++ [EvWrite txt (strip (r_text r))] ++ [EvNow]
             ++ [EvWrite json
                   (json_dumps
                      (output_data p r (now_isoformat E (S (clock w)))))])%list
  |}.

(** The entries a visit of the job [p] may change: the file of that name
    in the queue directories, and the two artifacts of the job. *)
Definition own (p q : Path) : Prop :=
  (In (parent q) queue_dirs /\ name q = name p) \/
  txt_path_of p = Return q \/ json_path_of p = Return q.

(** Every entry outside [S] is in the second world what it was in the
    first. *)
Definition unchanged_outside (S : Path -> Prop) (w w' : World) : Prop :=
  forall q, ~ S q -> fs w' !! q = fs w !! q.

(** How often [evs] hands [p] to the engine. *)
Definition is_call_on (p : Path) (ev : event) : bool :=
  match ev with
  | EvTranscribe q => bool_decide (q = p)
  | _ => false
  end.

Definition engine_calls (p : Path) (evs : list event) : nat :=
  List.length (List.filter (is_call_on p) evs).

(** The second world has the log of the first, and after it exactly [n]
    calls of the engine on [p]. *)
Definition calls (n : nat) (p : Path) (w w' : World) : Prop :=
  exists evs, log w' = (log w ++ evs)%list /\ engine_calls p evs = n.

(** Every entry outside [failed/] is in the second world what it was in
    the first. *)
Definition same_outside_failed (w w' : World) : Prop :=
  forall q, parent q <> Failed -> fs w' !! q = fs w !! q.

(** An event that is not a call of the engine on [p]. *)
Definition no_call (p : Path) (ev : event) : Prop := is_call_on p ev = false.

(** ** The producer: [queue/enqueue.py]

    The files named on the command line are read through [sources]: what
    the path leads to when [enqueue.py] runs, a regular file, something
    else, or nothing.  They lie outside the queue directories and nobody
    changes them meanwhile.  [Path(s).name] and [str(Path(s))] are left to
    [pathlib]. *)

Inductive Node :=
| Regular (f : File)
| Directory.

(** [d.mkdir(parents=True, exist_ok=True)] on a queue directory: it is
    there, and the call leaves it as it is. *)
Definition mkdir_exist_ok (d : Dir) : M unit := ret tt.

Section Enqueue.
Variable E : Env.
(** What [Path(file_path)] leads to. *)
Variable sources : string -> option Node.
(** [Path(file_path).name] *)
Variable path_name : string -> string.
(** [str(Path(file_path))] *)
Variable path_str : string -> string.
(** [shutil.copy2] fails, and what it leaves at the destination *)
Variable copy_raises : nat -> string -> Path -> option (exn * residue).

(** [src.exists()] *)
Definition src_exists (src : string) : M bool :=
  ret (bool_decide (is_Some (sources src))).

(** [src.is_file()] *)
Definition src_is_file (src : string) : M bool :=
  ret (match sources src with Some (Regular _) => true | _ => false end).

(** [shutil.copy2(str(src), str(dest))]: content and modification time.
    The destination is created before it is filled. *)
Definition copy2 (src : string) (dest : Path) : M unit :=
  fun w =>
    let w' := {| fs := fs w; clock := S (clock w); log := log w |} in
    match sources src with
    | Some (Regular f) =>
        match copy_raises (clock w) src dest with
        | None => (Return tt, set_fs (<[dest := f]> (fs w)) w')
        | Some (e, r) =>
            (Raise e,
             match left_behind r f (wall_clock E (clock w)) with
             | Some g => set_fs (<[dest := g]> (fs w)) w'
             | None => w'
             end)
        end
    | Some Directory => (Raise (Exn OSError "Is a directory"), w')
    | None => (Raise (Exn OSError "No such file or directory"), w')
    end.

(** The body of the loop of [enqueue_files]. *)
Definition enqueue_one (file_path : string) : M unit :=
  let src := file_path in
  let* there := src_exists src in
  if negb there then print ("File not found: " ++ path_str src)
  else
    let* is_file := src_is_file src in
    if negb is_file then print ("Not a file: " ++ path_str src)
    else
      let dest := (INBOX_DIR, path_name src) in
      let* queued := exists_ E dest in
      if queued then print ("Already in queue: " ++ path_name src)
      else
        copy2 src dest >>
        print ("Queued: " ++ path_name src).

Definition enqueue_files (file_paths : list string) : M unit :=
  mkdir_exist_ok INBOX_DIR >>
  for_each file_paths enqueue_one.

(** The first regular file of the list that goes by the name [nm]. *)
Fixpoint first_regular (nm : string) (file_paths : list string)
    : option File :=
  match file_paths with
  | [] => None
  | src :: rest =>
      match sources src with
      | Some (Regular f) =>
          if String.eqb (path_name src) nm then Some f
          else first_regular nm rest
      | _ => first_regular nm rest
      end
  end.

End Enqueue.

(** The world a [shutil.copy2] leaves, [g] being what it put at the
    destination. *)
Definition copied (dest : Path) (g : option File) (w : World) : World :=
  {| fs := match g with Some g => <[dest := g]> (fs w) | None => fs w end;
     clock := S (clock w);
     log := log w |}.

(** A copy of the file, whole or cut short. *)
Definition copy_of (f0 f : File) : Prop :=
  f = f0 \/ exists n t, f = mkFile (take n (data f0)) t.

(** What was in the queue is still there, and what is new is in the
    inbox. *)
Definition only_adds (w w' : World) : Prop :=
  fs w ⊆ fs w' /\
  forall q, parent q <> Inbox -> fs w' !! q = fs w !! q.

(** ** Sample environments, models and inboxes *)

Definition calm : Env :=
  {| interfere := fun _ m => m;
     exists_raises := fun _ _ => None;
     stat_raises := fun _ _ => None;
     write_raises := fun _ _ => None;
     move_raises := fun _ _ _ => None;
     wall_clock := fun t => 1000 + Z.of_nat t;
     now_isoformat := fun _ => "2024-05-01T12:00:00";
     now_hms := fun _ => "12:00:00";
     elapsed_1f := fun _ => "0.1" |}.

(** Nothing can be moved into [dir]. *)
Definition locked (dir : Dir) : Env :=
  {| interfere := fun _ m => m;
     exists_raises := fun _ _ => None;
     stat_raises := fun _ _ => None;
     write_raises := fun _ _ => None;
     move_raises := fun _ _ dst =>
       if bool_decide (parent dst = dir)
       then Some (Exn OSError "Permission denied", Nothing) else None;
     wall_clock := fun t => 1000 + Z.of_nat t;
     now_isoformat := fun _ => "2024-05-01T12:00:00";
     now_hms := fun _ => "12:00:00";
     elapsed_1f := fun _ => "0.1" |}.

(** A stand-in for [json.dumps], used by the examples only. *)
Definition dumps_sample (v : JValue) : string :=
  match v with
  | JObj members => "{" ++ String.concat "," (map fst members) ++ "}"
  | _ => "null"
  end.

Definition hello_model : Whisper :=
  fun _ _ =>
    Return {| r_text := "  hello world  ";
              r_language := Some "en";
              r_segments := None |}.

Definition broken_model : Whisper :=
  fun _ _ => Raise (Exn OtherException "cannot decode audio").

Definition inbox_of (entries : list (string * File)) : World :=
  {| fs := list_to_map (map (fun e => ((Inbox, fst e), snd e)) entries);
     clock := 0;
     log := [] |}.

Definition inbox_ab : World :=
  inbox_of [("b.wav", mkFile [x52; x49] 200); ("a.mp3", mkFile [x49] 100)].

Definition inbox_c : World := inbox_of [("c.flac", mkFile [x66; x4c] 50)].

Definition inbox_mixed_case : World := inbox_of [("c.Mp3", mkFile [x49] 50)].

Definition inbox_dotted : World := inbox_of [("a.b.mp3", mkFile [x49] 50)].

Definition hello : TResult :=
  {| r_text := "  hello world  "; r_language := Some "en"; r_segments := None |}.

(** Another process is still appending to [c.flac] while the worker waits. *)
Definition copying : Env :=
  {| interfere := fun t m =>
       if (t =? 3)%nat
       then <[(Inbox, "c.flac") := mkFile [x66; x4c; x61] 60]> m else m;
     exists_raises := fun _ _ => None;
     stat_raises := fun _ _ => None;
     write_raises := fun _ _ => None;
     move_raises := fun _ _ _ => None;
     wall_clock := fun t => 1000 + Z.of_nat t;
     now_isoformat := fun _ => "2024-05-01T12:00:00";
     now_hms := fun _ => "12:00:00";
     elapsed_1f := fun _ => "0.1" |}.

(** Somebody removes [c.flac] from the inbox while the engine runs. *)
Definition snatcher : Env :=
  {| interfere := fun t m =>
       if (t =? 6)%nat then delete (Inbox, "c.flac") m else m;
     exists_raises := fun _ _ => None;
     stat_raises := fun _ _ => None;
     write_raises := fun _ _ => None;
     move_raises := fun _ _ _ => None;
     wall_clock := fun t => 1000 + Z.of_nat t;
     now_isoformat := fun _ => "2024-05-01T12:00:00";
     now_hms := fun _ => "12:00:00";
     elapsed_1f := fun _ => "0.1" |}.

(** No [.json] file can be written. *)
Definition json_unwritable : Env :=
  {| interfere := fun _ m => m;
     exists_raises := fun _ _ => None;
     stat_raises := fun _ _ => None;
     write_raises := fun _ p =>
       if fnmatch "*.json" (name p)
       then Some (Exn OSError "No space left on device", Some 0%nat)
       else None;
     move_raises := fun _ _ _ => None;
     wall_clock := fun t => 1000 + Z.of_nat t;
     now_isoformat := fun _ => "2024-05-01T12:00:00";
     now_hms := fun _ => "12:00:00";
     elapsed_1f := fun _ => "0.1" |}.

Definition inbox_empty_file : World := inbox_of [("z.mp3", mkFile [] 10)].



(** Two recordings on the desktop, and the folder they are in. *)
Definition desktop (src : string) : option Node :=
  if String.eqb src "desk/late.mp3" then Some (Regular (mkFile [x49] 300))
  else if String.eqb src "desk/early.wav" then
    Some (Regular (mkFile [x52; x49] 20))
  else if String.eqb src "desk" then Some Directory
  else None.

(** The part of a path text after its last slash. *)
Fixpoint after_slash (s : string) : string :=
  match s with
  | EmptyString => EmptyString
  | String c s' =>
      if existsb (Ascii.eqb "/") (list_ascii_of_string s') then after_slash s'
      else if Ascii.eqb c "/" then s' else s
  end.

Definition no_copy_error : nat -> string -> Path -> option (exn * residue) :=
  fun _ _ _ => None.

(** Every copy stops after its first byte. *)
Definition disk_full : nat -> string -> Path -> option (exn * residue) :=
  fun _ _ _ => Some (Exn OSError "No space left on device", Partial 1).

Definition empty_queue : World := {| fs := ∅; clock := 0; log := [] |}.

(** Nothing can be moved at all. *)
Definition frozen : Env :=
  {| interfere := fun _ m => m;
     exists_raises := fun _ _ => None;
     stat_raises := fun _ _ => None;
     write_raises := fun _ _ => None;
     move_raises := fun _ _ _ =>
       Some (Exn OSError "Read-only file system", Nothing);
     wall_clock := fun t => 1000 + Z.of_nat t;
     now_isoformat := fun _ => "2024-05-01T12:00:00";
     now_hms := fun _ => "12:00:00";
     elapsed_1f := fun _ => "0.1" |}.

(** Nothing can be removed from the inbox: a move out of it copies the
    file and then fails to unlink the source. *)
Definition readonly_inbox : Env :=
  {| interfere := fun _ m => m;
     exists_raises := fun _ _ => None;
     stat_raises := fun _ _ => None;
     write_raises := fun _ _ => None;
     move_raises := fun _ src _ =>
       if bool_decide (parent src = Inbox)
       then Some (Exn OSError "Permission denied", Whole) else None;
     wall_clock := fun t => 1000 + Z.of_nat t;
     now_isoformat := fun _ => "2024-05-01T12:00:00";
     now_hms := fun _ => "12:00:00";
     elapsed_1f := fun _ => "0.1" |}.

(** The inbox cannot be searched at the instant [t]: looking up an entry
    fails. *)
Definition unsearchable (t : nat) : Env :=
  {| interfere := fun _ m => m;
     exists_raises := fun t' _ =>
       if (t' =? t)%nat then Some "Permission denied" else None;
     stat_raises := fun _ _ => None;
     write_raises := fun _ _ => None;
     move_raises := fun _ _ _ => None;
     wall_clock := fun t => 1000 + Z.of_nat t;
     now_isoformat := fun _ => "2024-05-01T12:00:00";
     now_hms := fun _ => "12:00:00";
     elapsed_1f := fun _ => "0.1" |}.

(** Unfolds the system calls and the plumbing of the monad. *)
Ltac unfold_calls :=
  unfold run, exec, bind, try_except, ret, raise, lift, exists_, stat, sleep,
    print, write_text, move, transcribe, time_time, datetime_now_isoformat,
    datetime_now_hms in *.

Ltac reduce_calls :=
  cbn [fst snd fs clock log emit tick set_fs negb bool_decide decide_rel
       is_Some_dec is_OSError is_Exception class_of str_of] in *.

(** * Properties *)

(** ** Running the monad one step at a time *)

Section Stepping.
Context {A B : Type}.

Lemma bind_Return (m : M A) (k : A -> M B) w a w' :
  m w = (Return a, w') -> bind m k w = k a w'.
Proof. intros H. unfold bind. now rewrite H. Qed.

Lemma bind_Raise (m : M A) (k : A -> M B) w e w' :
  m w = (Raise e, w') -> bind m k w = (Raise e, w').
Proof. intros H. unfold bind. now rewrite H. Qed.

Lemma try_Return (m : M A) catches (h : exn -> M A) w a w' :
  m w = (Return a, w') -> try_except m catches h w = (Return a, w').
Proof. intros H. unfold try_except. now rewrite H. Qed.

Lemma try_Raise (m : M A) catches (h : exn -> M A) w e w' :
  m w = (Raise e, w') -> catches e = true ->
  try_except m catches h w = h e w'.
Proof. intros H Hc. unfold try_except. now rewrite H, Hc. Qed.

Lemma try_escapes (m : M A) catches (h : exn -> M A) w e w' :
  m w = (Raise e, w') -> catches e = false ->
  try_except m catches h w = (Raise e, w').
Proof. intros H Hc. unfold try_except. now rewrite H, Hc. Qed.
End Stepping.

Lemma exists_Return E (p : Path) w :
  exists_raises E (clock w) p = None ->
  exists_ E p w
  = (Return (bool_decide (is_Some (fs w !! p))), tick (EvExists p) w).
Proof. intros H. unfold exists_. now rewrite H. Qed.

Lemma exists_Some E (p : Path) w f :
  exists_raises E (clock w) p = None -> fs w !! p = Some f ->
  exists_ E p w = (Return true, tick (EvExists p) w).
Proof. intros H Hf. rewrite (exists_Return _ _ _ H), Hf. reflexivity. Qed.

Lemma exists_None E (p : Path) w :
  exists_raises E (clock w) p = None -> fs w !! p = None ->
  exists_ E p w = (Return false, tick (EvExists p) w).
Proof. intros H Hf. rewrite (exists_Return _ _ _ H), Hf. reflexivity. Qed.

Lemma exists_Raise E (p : Path) w msg :
  exists_raises E (clock w) p = Some msg ->
  exists_ E p w = (Raise (Exn OSError msg), tick (EvExists p) w).
Proof. intros H. unfold exists_. now rewrite H. Qed.

Lemma stat_Return E (p : Path) w f :
  stat_raises E (clock w) p = None -> fs w !! p = Some f ->
  stat E p w = (Return (stat_of f), tick (EvStat p) w).
Proof. intros H1 H2. unfold stat. now rewrite H1, H2. Qed.

Lemma sleep_Return E d w :
  (0 <= d)%Q ->
  sleep E d w
  = (Return tt, set_fs (interfere E (clock w) (fs w)) (tick (EvSleep d) w)).
Proof.
  intros H. unfold sleep. apply Qle_bool_iff in H. now rewrite H.
Qed.


Lemma move_Return E (src dst : Path) w f :
  move_raises E (clock w) src dst = None -> fs w !! src = Some f ->
  move E src dst w
  = (Return tt, set_fs (<[dst := f]> (delete src (fs w))) (tick (EvMove src dst) w)).
Proof. intros H1 H2. unfold move. now rewrite H1, H2. Qed.

Lemma move_Raise E (src dst : Path) w f e r :
  move_raises E (clock w) src dst = Some (e, r) -> fs w !! src = Some f ->
  move E src dst w
  = (Raise e,
     blocked_move src dst (left_behind r f (wall_clock E (clock w))) w).
Proof.
  intros H1 H2. unfold move, blocked_move. rewrite H1, H2.
  now destruct (left_behind r f _).
Qed.

(** ** The readiness detector *)

(** When the first look at the file does not fail and the wait is not
    negative, [is_file_ready] returns, and it returns [True] exactly when
    the file is there before the wait, is there after it, has the same
    size both times, that size is positive, and no later call fails. *)
Lemma is_file_ready_cases (E : Env) (path : Path) (wait_time : Q) (w : World) :
  exists_raises E (clock w) path = None ->
  (0 <= wait_time)%Q ->
  let t := clock w in
  let after := interfere E (S (S t)) (fs w) in
  exists ready : bool,
    run (is_file_ready E path wait_time) w = Return ready /\
    (ready = true <->
     exists f f',
       fs w !! path = Some f /\ after !! path = Some f' /\
       st_size (stat_of f') = st_size (stat_of f) /\
       0 < st_size (stat_of f) /\
       stat_raises E (S t) path = None /\
       exists_raises E (S (S (S t))) path = None /\
       stat_raises E (S (S (S (S t)))) path = None) /\
    (forall f, fs w !! path = Some f -> st_size (stat_of f) = 0 ->
       ready = false) /\
    (stat_raises E (S t) path <> None -> ready = false) /\
    (exists_raises E (S (S (S t))) path <> None -> ready = false) /\
    (stat_raises E (S (S (S (S t)))) path <> None -> ready = false).
Proof.
  intros Hprobe Hwait t after. apply Qle_bool_iff in Hwait.
  unfold is_file_ready. unfold_calls. reduce_calls.
  rewrite Hprobe.
  destruct (fs w !! path) as [f|] eqn:Hf; reduce_calls.
  2:{ exists false. split; [reflexivity|]. split; [|auto].
      split; [discriminate|]. now intros (g & g' & ? & _). }
  fold t.
  destruct (stat_raises E (S t) path) as [msg|] eqn:H0; reduce_calls.
  { exists false. split; [reflexivity|]. split; [|auto 6].
    split; [discriminate|]. now intros (g & g' & _ & _ & _ & _ & ? & _). }
  rewrite Hf. reduce_calls. rewrite Hwait. reduce_calls. fold t after.
  destruct (exists_raises E (S (S (S t))) path) as [msg|] eqn:H1; reduce_calls.
  { exists false. split; [reflexivity|]. split; [|auto 6].
    split; [discriminate|].
    now intros (g & g' & _ & _ & _ & _ & _ & ? & _). }
  destruct (after !! path) as [f'|] eqn:Hf'; reduce_calls.
  2:{ exists false. split; [reflexivity|]. split; [|auto 6].
      split; [discriminate|]. now intros (g & g' & _ & ? & _). }
  fold t.
  destruct (stat_raises E (S (S (S (S t)))) path) as [msg|] eqn:H2;
    reduce_calls.
  { exists false. split; [reflexivity|]. split; [|auto 6].
    split; [discriminate|].
    now intros (g & g' & _ & _ & _ & _ & _ & _ & ?). }
  fold after. rewrite Hf'. reduce_calls.
  eexists. split; [reflexivity|].
  rewrite andb_true_iff, Z.eqb_eq, Z.ltb_lt.
  split; [split|split; [|split; [|split]]].
  - intros [Hs Hp]. exists f, f'. cbn in *.
    repeat split; assumption || reflexivity.
  - intros (g & g' & Hg & Hg' & Hs & Hp & _).
    injection Hg as <-. injection Hg' as <-. cbn in *. lia.
  - intros g Hg Hz. injection Hg as <-. cbn in *.
    apply andb_false_iff. right. apply Z.ltb_ge. lia.
  - congruence.
  - congruence.
  - congruence.
Qed.

(** C1. The first look at the file, [path.exists()] before the [try]
    statement, is not guarded: when it fails with an [OSError],
    [is_file_ready] raises that error instead of answering [False]. *)
Theorem first_probe_error_escapes (E : Env) (path : Path) (wait_time : Q)
    (w : World) (msg : string) :
  exists_raises E (clock w) path = Some msg ->
  is_file_ready E path wait_time w
  = (Raise (Exn OSError msg), tick (EvExists path) w).
Proof.
  intros H. unfold is_file_ready.
  apply bind_Raise, exists_Raise, H.
Qed.

Lemma first_probe_error_escapes_witness :
  run (is_file_ready (unsearchable 0) (Inbox, "c.flac") 1) inbox_c
  = Raise (Exn OSError "Permission denied").
Proof.
  unfold run.
  rewrite (first_probe_error_escapes (unsearchable 0) (Inbox, "c.flac") 1
             inbox_c "Permission denied"); reflexivity.
Defined.

(** ** A small program logic for the file system *)

Section Keeps.
Variable T : World -> World -> Prop.
Hypothesis T_refl : forall w, T w w.
Hypothesis T_trans : forall w1 w2 w3, T w1 w2 -> T w2 w3 -> T w1 w3.

Lemma keeps_bind_post {A B} (m : M A) (k : A -> M B) (Q : A -> Prop) :
  post m Q -> keeps T m -> (forall a, Q a -> keeps T (k a)) ->
  keeps T (bind m k).
Proof.
  intros HQ Hm Hk w. specialize (Hm w). specialize (HQ w).
  unfold exec, bind in *. destruct (m w) as [[a|e] w']; cbn in *.
  - eapply T_trans; [exact Hm|]. apply (Hk a); eauto.
  - exact Hm.
Qed.

Lemma keeps_bind {A B} (m : M A) (k : A -> M B) :
  keeps T m -> (forall a, keeps T (k a)) -> keeps T (bind m k).
Proof.
  intros Hm Hk. apply (keeps_bind_post m k (fun _ => True)); auto.
  intros ? ? ? _. exact I.
Qed.

Lemma keeps_try {A} (m : M A) catches (h : exn -> M A) :
  keeps T m -> (forall e, keeps T (h e)) -> keeps T (try_except m catches h).
Proof.
  intros Hm Hh w. specialize (Hm w).
  unfold exec, try_except in *. destruct (m w) as [[a|e] w']; cbn in *.
  - exact Hm.
  - destruct (catches e); [|exact Hm].
    eapply T_trans; [exact Hm|]. apply (Hh e).
Qed.

Lemma keeps_for_each {A} (xs : list A) (body : A -> M unit) :
  (forall x, In x xs -> keeps T (body x)) -> keeps T (for_each xs body).
Proof.
  induction xs as [|x xs IH]; intros Hb; cbn [for_each].
  - intros w. apply T_refl.
  - apply keeps_bind; [apply Hb; now left|].
    intros _. apply IH. intros y Hy. apply Hb. now right.
Qed.
End Keeps.

(** ** Computations that only read the file system *)

Lemma fs_same_ret {A} (a : A) : fs_same (ret a).
Proof. intros w. reflexivity. Qed.

Lemma fs_same_lift {A} (o : outcome A) : fs_same (lift o).
Proof. intros w. reflexivity. Qed.

Lemma fs_same_print line : fs_same (print line).
Proof. intros w. reflexivity. Qed.

Lemma fs_same_exists E p : fs_same (exists_ E p).
Proof.
  intros w. unfold exec, exists_. now destruct (exists_raises E (clock w) p).
Qed.

Lemma fs_same_time : fs_same time_time.
Proof. intros w. reflexivity. Qed.

Lemma fs_same_now_iso E : fs_same (datetime_now_isoformat E).
Proof. intros w. reflexivity. Qed.

Lemma fs_same_now_hms E : fs_same (datetime_now_hms E).
Proof. intros w. reflexivity. Qed.

Lemma fs_same_glob dir pattern : fs_same (glob dir pattern).
Proof. intros w. reflexivity. Qed.

Lemma fs_same_stat E p : fs_same (stat E p).
Proof.
  intros w. unfold exec, stat.
  destruct (stat_raises E (clock w) p); [reflexivity|].
  destruct (fs w !! p); reflexivity.
Qed.

Lemma fs_same_sleep E d : quiet E -> fs_same (sleep E d).
Proof.
  intros Hq w. unfold exec, sleep. destruct (Qle_bool 0 d); cbn; [apply Hq|].
  reflexivity.
Qed.

Lemma fs_same_transcribe E model p : quiet E -> fs_same (transcribe E model p).
Proof. intros Hq w. cbn. apply Hq. Qed.

Lemma fs_same_bind {A B} (m : M A) (k : A -> M B) :
  fs_same m -> (forall a, fs_same (k a)) -> fs_same (bind m k).
Proof.
  intros Hm Hk.
  apply (keeps_bind (fun w1 w2 => fs w2 = fs w1)); try assumption.
  intros w1 w2 w3 H12 H23. congruence.
Qed.

Lemma fs_same_try {A} (m : M A) catches (h : exn -> M A) :
  fs_same m -> (forall e, fs_same (h e)) -> fs_same (try_except m catches h).
Proof.
  intros Hm Hh.
  apply (keeps_try (fun w1 w2 => fs w2 = fs w1)); try assumption.
  intros w1 w2 w3 H12 H23. congruence.
Qed.

Lemma fs_same_map_M {A B} (f : A -> M B) (xs : list A) :
  (forall x, fs_same (f x)) -> fs_same (map_M f xs).
Proof.
  intros Hf. induction xs as [|x xs IH]; cbn [map_M].
  - apply fs_same_ret.
  - apply fs_same_bind; [apply Hf|]. intros y.
    apply fs_same_bind; [apply IH|]. intros ys. apply fs_same_ret.
Qed.

Lemma fs_same_filter_M {A} (f : A -> M bool) (xs : list A) :
  (forall x, fs_same (f x)) -> fs_same (filter_M f xs).
Proof.
  intros Hf. induction xs as [|x xs IH]; cbn [filter_M].
  - apply fs_same_ret.
  - apply fs_same_bind; [apply Hf|]. intros y.
    apply fs_same_bind; [apply IH|]. intros ys. apply fs_same_ret.
Qed.

Lemma fs_same_is_file_ready E p d : quiet E -> fs_same (is_file_ready E p d).
Proof.
  intros Hq. unfold is_file_ready.
  apply fs_same_bind; [apply fs_same_exists|]. intros [|]; cbn [negb].
  2: apply fs_same_ret.
  apply fs_same_try; [|intros; apply fs_same_ret].
  apply fs_same_bind; [apply fs_same_stat|]. intros st.
  apply fs_same_bind; [now apply fs_same_sleep|]. intros _.
  apply fs_same_bind; [apply fs_same_exists|]. intros [|]; cbn [negb].
  2: apply fs_same_ret.
  apply fs_same_bind; [apply fs_same_stat|]. intros st'. apply fs_same_ret.
Qed.

Lemma fs_same_transcribe_file E model p :
  quiet E -> fs_same (transcribe_file E model p).
Proof.
  intros Hq. unfold transcribe_file.
  apply fs_same_bind; [apply fs_same_print|]. intros _.
  apply fs_same_bind; [apply fs_same_time|]. intros start.
  apply fs_same_bind; [now apply fs_same_transcribe|]. intros r.
  apply fs_same_bind; [apply fs_same_print|]. intros _. apply fs_same_ret.
Qed.

Lemma fs_same_glob_all exts : fs_same (glob_all exts).
Proof.
  induction exts as [|ext exts IH]; cbn [glob_all]; [apply fs_same_ret|].
  apply fs_same_bind.
  - unfold glob_ext. apply fs_same_bind; [apply fs_same_glob|]. intros ?.
    apply fs_same_bind; [apply fs_same_glob|]. intros ?. apply fs_same_ret.
  - intros ?. apply fs_same_bind; [apply IH|]. intros ?. apply fs_same_ret.
Qed.

Lemma fs_same_get_pending_files E exts :
  fs_same (get_pending_files_over E exts).
Proof.
  unfold get_pending_files_over, candidates.
  apply fs_same_bind.
  - apply fs_same_bind; [apply fs_same_glob_all|]. intros ?.
    apply fs_same_filter_M. intros ?. apply fs_same_exists.
  - intros files. case_bool_decide; [apply fs_same_ret|].
    apply fs_same_bind; [|intros; apply fs_same_ret].
    apply fs_same_map_M. intros f.
    apply fs_same_bind; [apply fs_same_stat|]. intros; apply fs_same_ret.
Qed.

(** ** Computations that always return *)

Lemma later_refl w : later w w.
Proof. unfold later. lia. Qed.

Lemma later_trans w1 w2 w3 : later w1 w2 -> later w2 w3 -> later w1 w3.
Proof. unfold later. lia. Qed.

Lemma later_ret {A} (a : A) : keeps later (ret a).
Proof. intros w. apply later_refl. Qed.




Lemma later_glob dir pattern : keeps later (glob dir pattern).
Proof. intros w. apply later_refl. Qed.

Lemma later_exists E p : keeps later (exists_ E p).
Proof.
  intros w. unfold later, exec, exists_.
  destruct (exists_raises E (clock w) p); cbn; lia.
Qed.

Lemma later_stat E p : keeps later (stat E p).
Proof.
  intros w. unfold later, exec, stat.
  destruct (stat_raises E (clock w) p); [cbn; lia|].
  destruct (fs w !! p); cbn; lia.
Qed.







Lemma later_bind {A B} (m : M A) (k : A -> M B) :
  keeps later m -> (forall a, keeps later (k a)) -> keeps later (bind m k).
Proof. apply keeps_bind, later_trans. Qed.








Lemma stat_faultless_lasting E : lasting (stat_faultless E).
Proof.
  intros w w' Hl H k p. unfold later in Hl.
  replace (clock w' + k)%nat with (clock w + (clock w' - clock w + k))%nat
    by lia.
  apply H.
Qed.

Lemma exists_faultless_lasting E : lasting (exists_faultless E).
Proof.
  intros w w' Hl H k p. unfold later in Hl.
  replace (clock w' + k)%nat with (clock w + (clock w' - clock w + k))%nat
    by lia.
  apply H.
Qed.

Lemma exists_faultless_now E w p :
  exists_faultless E w -> exists_raises E (clock w) p = None.
Proof. intros H. specialize (H 0%nat p). now rewrite Nat.add_0_r in H. Qed.

Lemma stat_faultless_now E w p :
  stat_faultless E w -> stat_raises E (clock w) p = None.
Proof. intros H. specialize (H 0%nat p). now rewrite Nat.add_0_r in H. Qed.

Section Returns.
Variable P : World -> Prop.
Hypothesis P_lasting : lasting P.

Lemma lasting_exec {A} (m : M A) w : keeps later m -> P w -> P (exec m w).
Proof. intros Hm. apply P_lasting, Hm. Qed.

Lemma returns_ret {A} (a : A) : returns_on P (ret a).
Proof. intros w Hw. now exists a, w. Qed.


Lemma returns_now_hms E : returns_on P (datetime_now_hms E).
Proof.
  intros w Hw. eexists _, _. split; [reflexivity|].
  revert Hw. apply P_lasting. unfold later. cbn. lia.
Qed.

Lemma returns_sleep E d : (0 <= d)%Q -> returns_on P (sleep E d).
Proof.
  intros Hd w Hw. eexists _, _. split; [now apply sleep_Return|].
  revert Hw. apply P_lasting. unfold later. cbn. lia.
Qed.

Lemma returns_bind {A B} (m : M A) (k : A -> M B) :
  returns_on P m -> (forall a, returns_on P (k a)) -> returns_on P (bind m k).
Proof.
  intros Hm Hk w Hw. destruct (Hm w Hw) as (a & w' & Ha & Hw').
  rewrite (bind_Return _ _ _ _ _ Ha). now apply Hk.
Qed.


(** The same for a handler that catches the errors of one class, when the
    body raises no other. *)
Lemma returns_try {A} (m : M A) catches (h : exn -> M A) :
  keeps later m ->
  (forall w e w', P w -> m w = (Raise e, w') -> catches e = true) ->
  (forall e, returns_on P (h e)) ->
  returns_on P (try_except m catches h).
Proof.
  intros Hm Hc Hh w Hw. pose proof (lasting_exec m w Hm Hw) as Hw'.
  specialize (Hc w). unfold try_except, exec in *.
  destruct (m w) as [[a|e] w'].
  - now exists a, w'.
  - rewrite (Hc e w' Hw eq_refl). cbn in Hw'. now apply Hh.
Qed.

Lemma returns_for_each {A} (xs : list A) (body : A -> M unit) :
  (forall x, returns_on P (body x)) -> returns_on P (for_each xs body).
Proof.
  intros Hb. induction xs as [|x xs IH]; cbn [for_each].
  - apply returns_ret.
  - apply returns_bind; auto.
Qed.

End Returns.


Lemma exists_faultless_at E w t p :
  exists_faultless E w -> (clock w <= t)%nat -> exists_raises E t p = None.
Proof.
  intros H Ht. specialize (H (t - clock w)%nat p).
  now replace (clock w + (t - clock w))%nat with t in H by lia.
Qed.

Lemma stat_faultless_at E w t p :
  stat_faultless E w -> (clock w <= t)%nat -> stat_raises E t p = None.
Proof.
  intros H Ht. specialize (H (t - clock w)%nat p).
  now replace (clock w + (t - clock w))%nat with t in H by lia.
Qed.

Lemma Qle_0_1 : (0 <= 1)%Q.
Proof. unfold Qle. cbn. lia. Qed.





(** ** Pattern matching on names *)

(** A pattern without [*] matches itself and nothing else. *)
Lemma fnmatch_literal lit nm :
  star_free lit = true -> fnmatch lit nm = true <-> nm = lit.
Proof.
  revert nm. induction lit as [|c lit IH]; intros nm Hns; cbn [fnmatch].
  - destruct nm; cbn; split; congruence.
  - cbn in Hns. apply andb_true_iff in Hns as [Hc Hns].
    apply negb_true_iff in Hc. rewrite Hc.
    destruct nm as [|d nm]; [split; congruence|].
    rewrite andb_true_iff, Ascii.eqb_eq, (IH nm Hns).
    split; [intros [-> ->]; reflexivity | intros [= -> ->]; auto].
Qed.

(** [*lit] matches exactly the names that end with [lit]. *)
Lemma fnmatch_star lit nm :
  star_free lit = true -> fnmatch ("*" ++ lit) nm = true <-> ends_with lit nm.
Proof.
  intros Hns. change ("*" ++ lit) with (String "*" lit).
  cbn [fnmatch]. change (Ascii.eqb "*" "*") with true. cbv iota.
  induction nm as [|d nm IH].
  - rewrite orb_false_r, (fnmatch_literal _ _ Hns). split.
    + intros <-. now exists "".
    + intros [pre Hpre]. destruct pre; [exact Hpre | discriminate].
  - rewrite orb_true_iff, (fnmatch_literal _ _ Hns), IH. split.
    + intros [<- | [pre ->]]; [now exists "" | now exists (String d pre)].
    + intros [[|c pre] Hpre]; [left; exact Hpre|].
      right. injection Hpre as -> ->. now exists pre.
Qed.

(** ** Sorting by key *)

Lemma insert_by_key_perm x l : Permutation (insert_by_key x l) (x :: l).
Proof.
  induction l as [|y l IH]; cbn; [reflexivity|].
  destruct (fst x <=? fst y); [reflexivity|].
  rewrite IH. apply perm_swap.
Qed.

Lemma sort_by_key_perm l : Permutation (sort_by_key l) l.
Proof.
  induction l as [|x l IH]; cbn; [reflexivity|].
  rewrite insert_by_key_perm. now constructor.
Qed.

Lemma insert_by_key_sorted x l :
  StronglySorted by_key l -> StronglySorted by_key (insert_by_key x l).
Proof.
  induction 1 as [|y l Hs IH Hy]; cbn.
  - repeat constructor.
  - destruct (fst x <=? fst y) eqn:Hxy.
    + apply Z.leb_le in Hxy. constructor; [now constructor|].
      constructor; [exact Hxy|].
      eapply Forall_impl; [exact Hy|]. unfold by_key. intros; cbn in *; lia.
    + apply Z.leb_gt in Hxy. constructor; [exact IH|].
      rewrite insert_by_key_perm. constructor; [unfold by_key; lia | exact Hy].
Qed.

Lemma sort_by_key_sorted l : StronglySorted by_key (sort_by_key l).
Proof.
  induction l as [|x l IH]; cbn; [constructor|].
  now apply insert_by_key_sorted.
Qed.

(** ** The scanner *)

Lemma in_listing (m : FS) (p : Path) :
  In p (map fst (map_to_list m)) <-> is_Some (m !! p).
Proof.
  rewrite in_map_iff. split.
  - intros ([q f] & <- & Hin). apply list_elem_of_In in Hin.
    apply elem_of_map_to_list in Hin. cbn. eauto.
  - intros [f Hf]. exists (p, f). split; [reflexivity|].
    apply list_elem_of_In. now apply elem_of_map_to_list.
Qed.

Lemma glob_run dir pattern w :
  exists l, glob dir pattern w = (Return l, w) /\
    forall p, In p l <->
      is_Some (fs w !! p) /\ parent p = dir /\ fnmatch pattern (name p) = true.
Proof.
  eexists. split; [reflexivity|]. intros p.
  rewrite filter_In, in_listing, andb_true_iff, bool_decide_eq_true. tauto.
Qed.

Lemma glob_all_run exts w :
  star_free_exts exts = true ->
  exists l, glob_all exts w = (Return l, w) /\
    forall p, In p l <-> eligible exts (fs w) p.
Proof.
  induction exts as [|ext exts IH]; intros Hsf; cbn [glob_all].
  - exists []. split; [reflexivity|]. intros p. split; [intros []|].
    intros (_ & _ & ext & [] & _).
  - unfold star_free_exts in Hsf. cbn in Hsf. fold (star_free_exts exts) in Hsf.
    apply andb_true_iff in Hsf as [Hext Hsf].
    apply andb_true_iff in Hext as [Hlo Hup].
    destruct (IH Hsf) as (more & Hmore & Hin).
    destruct (glob_run INBOX_DIR ("*" ++ ext) w) as (lo & Hlo_run & Hlo_in).
    destruct (glob_run INBOX_DIR ("*" ++ upper ext) w)
      as (up & Hup_run & Hup_in).
    exists ((lo ++ up) ++ more)%list. split.
    + unfold glob_ext, bind, ret. rewrite Hlo_run, Hup_run, Hmore. reflexivity.
    + intros p. rewrite !in_app_iff, Hlo_in, Hup_in, Hin.
      rewrite (fnmatch_star _ _ Hlo), (fnmatch_star _ _ Hup).
      unfold eligible, recognised, INBOX_DIR. cbn [In]. split.
      * intros [[(? & ? & ?) | (? & ? & ?)] | (? & ? & e & ? & ?)];
          repeat split; eauto.
      * intros (? & ? & e & [<- | He] & [? | ?]); eauto 10.
Qed.

Lemma filter_exists_inv E (l : list Path) w l' w' :
  filter_M (exists_ E) l w = (Return l', w') ->
  l' = List.filter (fun p => bool_decide (is_Some (fs w !! p))) l /\
  fs w' = fs w.
Proof.
  revert w l' w'. induction l as [|p l IH]; intros w l' w';
    cbn [filter_M List.filter].
  - intros [= <- <-]. now split.
  - unfold bind at 1. unfold exists_ at 1.
    destruct (exists_raises E (clock w) p); [discriminate|].
    unfold bind at 1.
    destruct (filter_M _ l (tick (EvExists p) w)) as [[ys|e] w2] eqn:Hrest;
      [|discriminate].
    intros [= <- <-]. destruct (IH _ _ _ Hrest) as [-> Hfs].
    split; [reflexivity|exact Hfs].
Qed.

Lemma filter_exists_run E (l : list Path) w :
  exists_faultless E w ->
  exists w',
    filter_M (exists_ E) l w
    = (Return (List.filter (fun p => bool_decide (is_Some (fs w !! p))) l), w')
    /\ fs w' = fs w /\ later w w'.
Proof.
  revert w. induction l as [|p l IH]; intros w Hw; cbn [filter_M List.filter].
  - exists w. split; [reflexivity|]. split; [reflexivity|apply later_refl].
  - pose proof (exists_Return E p w (exists_faultless_now _ _ _ Hw)) as Hp.
    destruct (IH (tick (EvExists p) w)) as (w' & Hrun & Hfs & Hl).
    { revert Hw. apply exists_faultless_lasting. unfold later. cbn. lia. }
    exists w'. rewrite (bind_Return _ _ _ _ _ Hp), (bind_Return _ _ _ _ _ Hrun).
    split; [reflexivity|]. split; [exact Hfs|].
    unfold later in *. cbn in Hl. lia.
Qed.

(** The files the globs of one scan find are all there: the list before it
    is sorted holds the inbox entries with a recognised ending. *)
Lemma candidates_inv E exts w files w' :
  star_free_exts exts = true ->
  candidates E exts w = (Return files, w') ->
  fs w' = fs w /\
  run (glob_all exts) w = Return files /\
  forall p, In p files <-> eligible exts (fs w) p.
Proof.
  intros Hsf. destruct (glob_all_run exts w Hsf) as (l0 & Hrun & Hin).
  unfold candidates. rewrite (bind_Return _ _ _ _ _ Hrun). intros Hf.
  destruct (filter_exists_inv _ _ _ _ _ Hf) as [-> Hfs].
  assert (Hall : List.filter (fun p => bool_decide (is_Some (fs w !! p))) l0
                 = l0).
  { apply forallb_filter_id, forallb_forall. intros p Hp.
    apply bool_decide_eq_true, Hin, Hp. }
  rewrite Hall. split; [exact Hfs|]. split; [|exact Hin].
  unfold run. now rewrite Hrun.
Qed.

Lemma candidates_run E exts w :
  star_free_exts exts = true -> exists_faultless E w ->
  exists files w', candidates E exts w = (Return files, w').
Proof.
  intros Hsf Hw. destruct (glob_all_run exts w Hsf) as (l0 & Hrun & Hin).
  destruct (filter_exists_run E l0 w Hw) as (w' & Hf & _).
  eexists _, w'. unfold candidates. rewrite (bind_Return _ _ _ _ _ Hrun).
  exact Hf.
Qed.

Lemma later_filter_M {A} (f : A -> M bool) (xs : list A) :
  (forall x, keeps later (f x)) -> keeps later (filter_M f xs).
Proof.
  intros Hf. induction xs as [|x xs IH]; cbn [filter_M].
  - apply later_ret.
  - apply later_bind; [apply Hf|]. intros y.
    apply later_bind; [apply IH|]. intros ys. apply later_ret.
Qed.

Lemma later_map_M {A B} (f : A -> M B) (xs : list A) :
  (forall x, keeps later (f x)) -> keeps later (map_M f xs).
Proof.
  intros Hf. induction xs as [|x xs IH]; cbn [map_M].
  - apply later_ret.
  - apply later_bind; [apply Hf|]. intros y.
    apply later_bind; [apply IH|]. intros ys. apply later_ret.
Qed.

Lemma later_glob_all exts : keeps later (glob_all exts).
Proof.
  induction exts as [|ext exts IH]; cbn [glob_all]; [apply later_ret|].
  apply later_bind.
  - unfold glob_ext. apply later_bind; [apply later_glob|]. intros ?.
    apply later_bind; [apply later_glob|]. intros ?. apply later_ret.
  - intros ?. apply later_bind; [apply IH|]. intros ?. apply later_ret.
Qed.

Lemma later_candidates E exts : keeps later (candidates E exts).
Proof.
  unfold candidates. apply later_bind; [apply later_glob_all|]. intros ?.
  apply later_filter_M. intros ?. apply later_exists.
Qed.

Lemma later_get_pending_files E exts :
  keeps later (get_pending_files_over E exts).
Proof.
  unfold get_pending_files_over.
  apply later_bind; [apply later_candidates|].
  intros files. case_bool_decide; [apply later_ret|].
  apply later_bind; [|intros; apply later_ret].
  apply later_map_M. intros f.
  apply later_bind; [apply later_stat|]. intros; apply later_ret.
Qed.

Lemma stat_faultless_tick E ev w :
  stat_faultless E w -> stat_faultless E (tick ev w).
Proof.
  intros H k p. cbn. specialize (H (S k) p).
  now replace (clock w + S k)%nat with (S (clock w + k)) in H by lia.
Qed.

Lemma keys_run E (files : list Path) w :
  stat_faultless E w ->
  Forall (fun p => is_Some (fs w !! p)) files ->
  exists w',
    map_M (fun f => let* st := stat E f in ret (st_mtime st)) files w
    = (Return (map (mtime_at (fs w)) files), w') /\ fs w' = fs w.
Proof.
  revert w. induction files as [|p files IH]; intros w Hok Hall; cbn [map_M map].
  - now exists w.
  - inversion Hall as [|? ? [f Hf] Hrest]; subst.
    assert (Hstat : stat E p w = (Return (stat_of f), tick (EvStat p) w)).
    { apply stat_Return; [|exact Hf].
      specialize (Hok 0%nat p). now rewrite Nat.add_0_r in Hok. }
    destruct (IH (tick (EvStat p) w) (stat_faultless_tick _ _ _ Hok) Hrest)
      as (w' & Hrun & Hfs).
    exists w'. split; [|exact Hfs].
    assert (Hkey : (let* st := stat E p in ret (st_mtime st)) w
                   = (Return (mtime f), tick (EvStat p) w))
      by (rewrite (bind_Return _ _ _ _ _ Hstat); reflexivity).
    rewrite (bind_Return _ _ _ _ _ Hkey), (bind_Return _ _ _ _ _ Hrun).
    unfold ret, mtime_at. cbn [fs tick]. now rewrite Hf.
Qed.

Lemma zip_keys_snd {K} (g : Path -> K) (files : list Path) :
  map snd (zip (map g files) files) = files.
Proof. induction files; cbn; congruence. Qed.

Lemma zip_keys_fst (g : Path -> Z) (files : list Path) :
  Forall (fun x => fst x = g (snd x)) (zip (map g files) files).
Proof. induction files; cbn; constructor; auto. Qed.

Lemma sorted_by_key_snd (g : Path -> Z) (l : list (Z * Path)) :
  StronglySorted by_key l ->
  Forall (fun x => fst x = g (snd x)) l ->
  StronglySorted (fun p q => g p <= g q) (map snd l).
Proof.
  induction 1 as [|x l Hs IH Hx]; intros Hg; cbn; [constructor|].
  inversion Hg as [|? ? Hgx Hgl]; subst. constructor; [auto|].
  apply Forall_forall. intros q Hq. apply list_elem_of_In in Hq.
  apply in_map_iff in Hq as (y & <- & Hy).
  rewrite Forall_forall in Hx, Hgl.
  apply list_elem_of_In in Hy.
  specialize (Hx y Hy). specialize (Hgl y Hy). unfold by_key in Hx. lia.
Qed.

Lemma sorted_candidates (m : FS) (files : list Path) :
  let pending :=
    map snd (sort_by_key (zip (map (mtime_at m) files) files)) in
  Permutation pending files /\ oldest_first m pending.
Proof.
  intros pending. split.
  - etransitivity; [apply Permutation_map, sort_by_key_perm|].
    now rewrite zip_keys_snd.
  - apply sorted_by_key_snd; [apply sort_by_key_sorted|].
    rewrite sort_by_key_perm. apply zip_keys_fst.
Qed.

(** What one scan of the inbox returns when no look at a file and no
    [stat] fails. *)
Lemma scan_run E exts w :
  star_free_exts exts = true ->
  exists_faultless E w -> stat_faultless E w ->
  exists pending w',
    get_pending_files_over E exts w = (Return pending, w') /\ later w w'.
Proof.
  intros Hsf Hprobe Hok.
  destruct (candidates_run E exts w Hsf Hprobe) as (files & w0 & Hcand).
  destruct (candidates_inv _ _ _ _ _ Hsf Hcand) as (Hfs0 & _ & Hin).
  pose proof (later_candidates E exts w) as Hl0.
  unfold exec in Hl0. rewrite Hcand in Hl0. cbn in Hl0.
  unfold get_pending_files_over.
  rewrite (bind_Return _ _ _ _ _ Hcand).
  case_bool_decide as Hnil.
  - now exists [], w0.
  - destruct (keys_run E files w0) as (w' & Hkeys & Hfs).
    { revert Hok. now apply stat_faultless_lasting. }
    { apply Forall_forall. intros p Hp. apply list_elem_of_In, Hin in Hp.
      rewrite Hfs0. apply Hp. }
    rewrite (bind_Return _ _ _ _ _ Hkeys). unfold ret.
    eexists _, w'. split; [reflexivity|].
    eapply later_trans; [exact Hl0|].
    pose proof (later_map_M
                  (fun f => let* st := stat E f in ret (st_mtime st)) files)
      as Hl.
    specialize (Hl (fun f => later_bind _ _ (later_stat E f)
                               (fun st => later_ret (st_mtime st))) w0).
    unfold exec in Hl. now rewrite Hkeys in Hl.
Qed.

Lemma keys_inv E (files : list Path) w keys w' :
  map_M (fun f => let* st := stat E f in ret (st_mtime st)) files w
  = (Return keys, w') ->
  keys = map (mtime_at (fs w)) files /\ fs w' = fs w.
Proof.
  revert w keys w'. induction files as [|p files IH]; intros w keys w';
    cbn [map_M map].
  - intros [= <- <-]. now split.
  - unfold bind at 1. unfold bind at 1. unfold stat at 1.
    destruct (stat_raises E (clock w) p); [discriminate|].
    destruct (fs w !! p) as [f|] eqn:Hf; [|discriminate].
    unfold ret at 1. unfold bind at 1.
    destruct (map_M _ files (tick (EvStat p) w)) as [[ks|e] w2] eqn:Hrest;
      [|discriminate].
    intros [= <- <-]. destruct (IH _ _ _ Hrest) as [-> Hfs].
    split; [|exact Hfs]. cbn [fs tick]. unfold mtime_at at 2. now rewrite Hf.
Qed.

(** What a scan of the inbox has returned, when it returns. *)
Lemma scan_inv E exts w pending w1 :
  star_free_exts exts = true ->
  get_pending_files_over E exts w = (Return pending, w1) ->
  exists files,
    run (glob_all exts) w = Return files /\
    fs w1 = fs w /\
    later w w1 /\
    Permutation pending files /\
    oldest_first (fs w) pending /\
    forall p, In p pending <-> eligible exts (fs w) p.
Proof.
  intros Hsf Hrun.
  pose proof (later_get_pending_files E exts w) as Hl.
  unfold exec in Hl. rewrite Hrun in Hl. cbn in Hl.
  revert Hrun. unfold get_pending_files_over. unfold bind at 1.
  destruct (candidates E exts w) as [[files|e] w0] eqn:Hcand; [|discriminate].
  destruct (candidates_inv _ _ _ _ _ Hsf Hcand) as (Hfs0 & Hglob & Hin).
  exists files. split; [exact Hglob|]. revert Hrun.
  case_bool_decide as Hnil.
  - intros [= <- <-]. subst files.
    split; [exact Hfs0|]. split; [exact Hl|]. split; [constructor|].
    split; [constructor|]. exact Hin.
  - unfold bind, ret.
    destruct (map_M _ files w0) as [[keys|e] w2] eqn:Hkeys; [|discriminate].
    intros [= <- <-]. destruct (keys_inv _ _ _ _ _ Hkeys) as [-> Hfs].
    rewrite Hfs0.
    destruct (sorted_candidates (fs w) files) as [Hperm Hsorted].
    split; [congruence|]. split; [exact Hl|]. split; [exact Hperm|].
    split; [exact Hsorted|].
    intros p. rewrite <- Hin. split; intros Hp.
    + eapply Permutation_in; eauto.
    + eapply Permutation_in; [symmetry|]; eauto.
Qed.
Lemma substring_all s : substring 0 (String.length s) s = s.
Proof. induction s; cbn; congruence. Qed.

Lemma substring_ends_with n s :
  ends_with (substring n (String.length s - n) s) s.
Proof.
  revert s. induction n as [|n IH]; intros s.
  - rewrite Nat.sub_0_r, substring_all. now exists "".
  - destruct s as [|c s]; cbn; [now exists ""|].
    destruct (IH s) as [pre Hpre]. exists (String c pre).
    rewrite Hpre at 1. reflexivity.
Qed.

(** The suffix [pathlib] reports is a suffix of the name. *)
Lemma suffix_ends_with nm : ends_with (suffix nm) nm.
Proof.
  unfold suffix. destruct (_ && _).
  - apply substring_ends_with.
  - exists nm. clear. induction nm as [|c nm IH]; [reflexivity|].
    change (String c nm ++ "") with (String c (nm ++ "")). congruence.
Qed.

Lemma sorted_before (g : Path -> Z) a b l :
  StronglySorted (fun p q => g p <= g q) l ->
  In a l -> In b l -> g a < g b -> before a b l.
Proof.
  intros Hs Ha Hb Hlt.
  apply in_split in Hb as (l1 & l3 & ->).
  apply StronglySorted_app_1_r in Hs as Hs3.
  inversion Hs3 as [|? ? _ Hall]; subst.
  apply in_app_or in Ha as [Ha | [-> | Ha]].
  - apply in_split in Ha as (l0 & l2 & ->).
    exists l0, l2, l3. now rewrite <- app_assoc.
  - lia.
  - rewrite Forall_forall in Hall. apply list_elem_of_In, Hall in Ha. lia.
Qed.

(** ** The scanner lists no file twice *)

Lemma ends_with_both a b nm :
  ends_with a nm -> ends_with b nm -> ends_with a b \/ ends_with b a.
Proof.
  intros [pa Ha] [pb Hb]. subst nm. revert pb Hb.
  induction pa as [|c pa IH]; intros pb Hb.
  - right. exists pb. exact Hb.
  - destruct pb as [|c' pb].
    + left. exists (String c pa). symmetry. exact Hb.
    + change (String c (pa ++ a) = String c' (pb ++ b)) in Hb.
      injection Hb as _ Hb. eauto.
Qed.

Lemma suffix_free_apart a b rest nm :
  star_free a = true -> star_free b = true ->
  forallb (fun b => negb (fnmatch ("*" ++ a) b)
                    && negb (fnmatch ("*" ++ b) a)) rest = true ->
  In b rest -> ends_with a nm -> ends_with b nm -> False.
Proof.
  intros Ha Hb Hall Hin Hea Heb.
  rewrite forallb_forall in Hall. specialize (Hall b Hin).
  apply andb_true_iff in Hall as [H1 H2].
  apply negb_true_iff in H1, H2.
  destruct (ends_with_both a b nm Hea Heb) as [H|H].
  - apply (fnmatch_star a b Ha) in H. congruence.
  - apply (fnmatch_star b a Hb) in H. congruence.
Qed.

Lemma listing_NoDup (m : FS) : List.NoDup (map fst (map_to_list m)).
Proof. apply NoDup_ListNoDup. exact (NoDup_fst_map_to_list m). Qed.

Lemma star_free_endings exts e :
  star_free_exts exts = true -> In e (endings exts) -> star_free e = true.
Proof.
  unfold star_free_exts, endings. rewrite forallb_forall, in_flat_map.
  intros Hall (ext & Hext & He). specialize (Hall ext Hext).
  apply andb_true_iff in Hall as [H1 H2].
  cbn in He. destruct He as [<-|[<-|[]]]; assumption.
Qed.

Lemma glob_all_NoDup exts w l :
  star_free_exts exts = true -> suffix_free (endings exts) = true ->
  glob_all exts w = (Return l, w) -> List.NoDup l.
Proof.
  revert l. induction exts as [|ext exts IH]; intros l Hsf Hfree Hrun.
  - cbn in Hrun. injection Hrun as <-. constructor.
  - pose proof Hsf as Hsf_all.
    unfold star_free_exts in Hsf. cbn in Hsf. fold (star_free_exts exts) in Hsf.
    apply andb_true_iff in Hsf as [Hext Hsf].
    apply andb_true_iff in Hext as [Hlo Hup].
    cbn [endings flat_map app suffix_free] in Hfree.
    fold (endings exts) in Hfree.
    apply andb_true_iff in Hfree as [Hfree_lo Hfree].
    apply andb_true_iff in Hfree as [Hfree_up Hfree].
    destruct (glob_all_run exts w Hsf) as (more & Hmore & Hin_more).
    destruct (glob_run INBOX_DIR ("*" ++ ext) w) as (lo & Hlo_run & Hlo_in).
    destruct (glob_run INBOX_DIR ("*" ++ upper ext) w)
      as (up & Hup_run & Hup_in).
    assert (Hlo_nd : List.NoDup lo).
    { unfold glob in Hlo_run. injection Hlo_run as <-.
      apply List.NoDup_filter, listing_NoDup. }
    assert (Hup_nd : List.NoDup up).
    { unfold glob in Hup_run. injection Hup_run as <-.
      apply List.NoDup_filter, listing_NoDup. }
    cbn [glob_all] in Hrun. unfold glob_ext, bind, ret in Hrun.
    rewrite Hlo_run, Hup_run, Hmore in Hrun. injection Hrun as <-.
    assert (Hmore_ends : forall p, In p more ->
              exists e, In e (endings exts) /\ ends_with e (name p)).
    { intros p Hp. apply Hin_more in Hp as (_ & _ & e & He & Hends).
      unfold endings. setoid_rewrite in_flat_map.
      destruct Hends as [Hends|Hends];
        [exists e | exists (upper e)]; (split; [exists e; cbn; auto | exact Hends]). }
    apply List.NoDup_app; [apply List.NoDup_app| |].
    + exact Hlo_nd.
    + exact Hup_nd.
    + intros p Hp_lo Hp_up.
      apply Hlo_in in Hp_lo as (_ & _ & Hm1).
      apply Hup_in in Hp_up as (_ & _ & Hm2).
      apply (fnmatch_star _ _ Hlo) in Hm1.
      apply (fnmatch_star _ _ Hup) in Hm2.
      eapply (suffix_free_apart ext (upper ext)); eauto. now left.
    + apply IH; assumption.
    + intros p Hp Hp_more.
      apply Hmore_ends in Hp_more as (e & He & Hends).
      pose proof (star_free_endings exts e Hsf He) as He_sf.
      apply in_app_or in Hp as [Hp|Hp].
      * apply Hlo_in in Hp as (_ & _ & Hm). apply (fnmatch_star _ _ Hlo) in Hm.
        eapply (suffix_free_apart ext e); eauto. now right.
      * apply Hup_in in Hp as (_ & _ & Hm). apply (fnmatch_star _ _ Hup) in Hm.
        eapply (suffix_free_apart (upper ext) e); eauto.
Qed.

(** A scan that returns lists every file once. *)
Lemma get_pending_files_NoDup E exts :
  star_free_exts exts = true -> suffix_free (endings exts) = true ->
  post (get_pending_files_over E exts) (@List.NoDup Path).
Proof.
  intros Hsf Hfree w pending w' Hrun.
  destruct (scan_inv _ _ _ _ _ Hsf Hrun) as (files & Hglob & _ & _ & Hperm & _).
  destruct (glob_all_run exts w Hsf) as (found & Hfound & _).
  unfold run in Hglob. rewrite Hfound in Hglob. injection Hglob as ->.
  eapply Permutation_NoDup; [symmetry; exact Hperm|].
  eapply glob_all_NoDup; eauto.
Qed.

(** ** The poll loop *)



Lemma get_pending_files_returns E w :
  exists_faultless E w -> stat_faultless E w ->
  exists pending w',
    get_pending_files E w = (Return pending, w') /\ later w w'.
Proof. intros Hprobe Hok. now apply scan_run. Qed.



(** C4. An error of [path.exists()] is not handled within the job's step.
    The first statement of [process_file] looks at the file outside every
    [try]: when that look fails with an [OSError], [process_file] raises
    it; the loop over the batch stops there, so that no job of the rest of
    the batch is visited; the turn of the poll loop raises it, and so does
    [run_worker], whose only handler is for [KeyboardInterrupt]. *)
Theorem probe_error_stops_worker (E : Env) (dumps : JValue -> string)
    (model : Whisper) (poll_interval : Q) (w w1 : World) (p : Path)
    (rest : list Path) (msg : string) :
  get_pending_files E w = (Return (p :: rest), w1) ->
  exists_raises E (S (clock w1)) p = Some msg ->
  let w2 := emit (EvPrint (found_line E (clock w1) (p :: rest)))
              (tick EvNow w1) in
  let stopped := (Raise (Exn OSError msg), tick (EvExists p) w2) in
  process_file E dumps model p w2 = stopped /\
  for_each (p :: rest) (process_file E dumps model) w2 = stopped /\
  poll_cycle E dumps model poll_interval w = stopped /\
  (forall cycles,
     run_worker E dumps model poll_interval (S cycles) w = stopped) /\
  fs (tick (EvExists p) w2) = fs w.
Proof.
  intros Hscan Hraise w2 stopped.
  assert (Hp : process_file E dumps model p w2 = stopped).
  { unfold process_file. apply bind_Raise, exists_Raise. exact Hraise. }
  assert (Hbatch : for_each (p :: rest) (process_file E dumps model) w2
                   = stopped).
  { cbn [for_each]. now apply bind_Raise. }
  assert (Hcycle : poll_cycle E dumps model poll_interval w = stopped).
  { unfold poll_cycle. rewrite (bind_Return _ _ _ _ _ Hscan).
    rewrite bool_decide_eq_false_2 by discriminate.
    apply bind_Raise.
    unfold bind at 1. unfold datetime_now_hms at 1.
    unfold bind at 1. unfold print at 1.
    apply bind_Raise. exact Hbatch. }
  split; [exact Hp|]. split; [exact Hbatch|]. split; [exact Hcycle|].
  split.
  - intros cycles. cbn [run_worker]. now apply bind_Raise.
  - cbn [fs tick emit].
    destruct (scan_inv E AUDIO_EXTENSIONS w _ _ eq_refl Hscan)
      as (_ & _ & Hfs & _). exact Hfs.
Qed.

(** Two ready jobs wait in the inbox; the look at the first one fails:
    the worker stops and the second job is not visited. *)
Lemma probe_error_stops_worker_witness :
  run (run_worker (unsearchable 5) dumps_sample hello_model 2 3) inbox_ab
  = Raise (Exn OSError "Permission denied") /\
  fs (exec (run_worker (unsearchable 5) dumps_sample hello_model 2 3) inbox_ab)
  = fs inbox_ab.
Proof.
  assert (Hscan : exists w1,
            get_pending_files (unsearchable 5) inbox_ab
            = (Return [(Inbox, "a.mp3"); (Inbox, "b.wav")], w1) /\
            clock w1 = 4%nat).
  { eexists. split; [vm_compute; reflexivity|reflexivity]. }
  destruct Hscan as (w1 & Hscan & Hclock).
  assert (Hraise : exists_raises (unsearchable 5) (S (clock w1))
                     (Inbox, "a.mp3") = Some "Permission denied")
    by (rewrite Hclock; reflexivity).
  destruct (probe_error_stops_worker (unsearchable 5) dumps_sample hello_model
              2 inbox_ab w1 (Inbox, "a.mp3") [(Inbox, "b.wav")]
              "Permission denied" Hscan Hraise)
    as (_ & _ & _ & Hworker & Hfs).
  unfold run, exec. rewrite (Hworker 2%nat). split; [reflexivity|exact Hfs].
Defined.

(** ** Which files the scanner lists, and in which order *)

(** C5. The scanner is not case-insensitive: [c.Mp3] sits in the inbox,
    its extension is [.mp3] up to letter case, no call fails, and the scan
    returns no file. *)
Theorem mixed_case_not_listed :
  is_Some (fs inbox_mixed_case !! (Inbox, "c.Mp3")) /\
  In ".mp3" AUDIO_EXTENSIONS /\
  upper (suffix "c.Mp3") = upper ".mp3" /\
  run (get_pending_files calm) inbox_mixed_case = Return [] /\
  forall poll_interval cycles,
    (0 <= poll_interval)%Q ->
    fs (exec (run_worker calm dumps_sample hello_model poll_interval cycles)
          inbox_mixed_case)
    = fs inbox_mixed_case.
Proof.
  split; [eexists; vm_compute; reflexivity|].
  split; [left; reflexivity|].
  split; [vm_compute; reflexivity|].
  split; [vm_compute; reflexivity|].
  intros poll_interval cycles Hd. apply Qle_bool_iff in Hd.
  assert (Hcycle : forall w,
            fs w = fs inbox_mixed_case ->
            exists w', poll_cycle calm dumps_sample hello_model poll_interval w
                       = (Return tt, w') /\ fs w' = fs inbox_mixed_case).
  { intros w Hw.
    assert (Hscan : get_pending_files calm w = (Return [], w)).
    { unfold get_pending_files, get_pending_files_over, candidates.
      assert (Hglob : glob_all AUDIO_EXTENSIONS w = (Return [], w)).
      { destruct w as [m c l]. cbn in Hw. subst m. vm_compute. reflexivity. }
      rewrite (bind_Return _ _ _ _ _
                 (eq_trans (bind_Return _ _ _ _ _ Hglob) eq_refl)).
      reflexivity. }
    eexists. unfold poll_cycle. rewrite (bind_Return _ _ _ _ _ Hscan).
    cbn [bool_decide decide_rel]. unfold bind, ret, sleep. rewrite Hd.
    split; [reflexivity|]. exact Hw. }
  assert (Hall : forall w, fs w = fs inbox_mixed_case ->
            fs (exec (run_worker calm dumps_sample hello_model poll_interval
                        cycles) w) = fs inbox_mixed_case).
  { induction cycles as [|n IH]; intros w Hw; [exact Hw|].
    cbn [run_worker]. destruct (Hcycle w Hw) as (w' & Hrun & Hw').
    unfold exec. rewrite (bind_Return _ _ _ _ _ Hrun). now apply IH. }
  now apply Hall.
Qed.

(** X22. The scanner looks for each extension as it is written in
    [AUDIO_EXTENSIONS] and in upper case.  An inbox file whose extension is
    a recognised one, all in lower case or all in upper case, is in every
    list the scan returns; such a list holds exactly the inbox entries
    whose name ends with one of these two spellings; and the scan does
    return when no look at a file and no [stat] fails. *)
Theorem lower_or_upper_listed (E : Env) (w : World) (nm ext : string) :
  In ext AUDIO_EXTENSIONS ->
  is_Some (fs w !! (Inbox, nm)) ->
  suffix nm = ext \/ suffix nm = upper ext ->
  (forall pending w',
     get_pending_files E w = (Return pending, w') ->
     In (Inbox, nm) pending /\
     forall p, In p pending <-> eligible AUDIO_EXTENSIONS (fs w) p) /\
  (exists_faultless E w -> stat_faultless E w ->
   exists pending w', get_pending_files E w = (Return pending, w')).
Proof.
  intros Hext Hnm Hsfx. split.
  2:{ intros Hprobe Hok.
      destruct (get_pending_files_returns E w Hprobe Hok)
        as (pending & w' & Hrun & _). now exists pending, w'. }
  intros pending w' Hrun.
  destruct (scan_inv E AUDIO_EXTENSIONS w pending w' eq_refl Hrun)
    as (_ & _ & _ & _ & _ & _ & Hin).
  split; [|exact Hin].
  apply Hin. split; [exact Hnm|]. split; [reflexivity|].
  exists ext. split; [exact Hext|]. cbn [name snd].
  pose proof (suffix_ends_with nm) as Hends.
  destruct Hsfx as [<- | Hup]; [now left|].
  right. now rewrite <- Hup.
Qed.

Lemma lower_or_upper_listed_witness :
  In ".mp3" AUDIO_EXTENSIONS /\
  is_Some (fs inbox_ab !! (Inbox, "a.mp3")) /\
  (suffix "a.mp3" = ".mp3" \/ suffix "a.mp3" = upper ".mp3") /\
  exists_faultless calm inbox_ab /\
  stat_faultless calm inbox_ab /\
  exists pending w',
    get_pending_files calm inbox_ab = (Return pending, w') /\
    In (Inbox, "a.mp3") pending.
Proof.
  assert (H1 : In ".mp3" AUDIO_EXTENSIONS) by (left; reflexivity).
  assert (H2 : is_Some (fs inbox_ab !! (Inbox, "a.mp3")))
    by (eexists; vm_compute; reflexivity).
  assert (H3 : suffix "a.mp3" = ".mp3" \/ suffix "a.mp3" = upper ".mp3")
    by (left; reflexivity).
  assert (H4 : exists_faultless calm inbox_ab) by (intros k p; reflexivity).
  assert (H5 : stat_faultless calm inbox_ab) by (intros k p; reflexivity).
  repeat (split; [assumption|]).
  destruct (lower_or_upper_listed calm inbox_ab "a.mp3" ".mp3" H1 H2 H3)
    as [Hlisted Hreturns].
  destruct (Hreturns H4 H5) as (pending & w' & Hrun).
  exists pending, w'. split; [exact Hrun|]. exact (proj1 (Hlisted _ _ Hrun)).
Defined.


(** ** The result writer *)

Lemma append_cancel_l (x a b : string) : x ++ a = x ++ b -> a = b.
Proof.
  induction x as [|c x IH]; [auto|].
  change (String c x ++ a) with (String c (x ++ a)).
  change (String c x ++ b) with (String c (x ++ b)).
  intros [= H]. auto.
Qed.

Lemma with_suffix_parent (base : Path) (sfx : string) (q : Path) :
  with_suffix base sfx = Return q -> parent q = parent base.
Proof.
  unfold with_suffix.
  destruct (is_empty (name base)); [discriminate|].
  destruct (is_empty (suffix (name base))); intros [= <-]; reflexivity.
Qed.

Lemma join_plain (dir : Dir) (part : string) :
  part <> "" -> part <> "." -> join dir part = (dir, part).
Proof.
  intros H1 H2. unfold join. rewrite bool_decide_eq_false_2; [reflexivity|].
  intros [?|?]; contradiction.
Qed.

Lemma join_dot (dir : Dir) : join dir "." = (Script, dir_name dir).
Proof. reflexivity. Qed.

Lemma join_parent (dir : Dir) (part : string) :
  parent (join dir part) = dir \/ parent (join dir part) = Script.
Proof. unfold join. case_bool_decide; [right|left]; reflexivity. Qed.

(** The artifacts are entries of [output/] or, for the stem [.], of the
    script directory: never of a queue directory. *)
Lemma with_suffix_artifact (base sfx : string) (q : Path) :
  with_suffix (join OUTPUT_DIR base) sfx = Return q ->
  ~ In (parent q) queue_dirs.
Proof.
  intros H. rewrite (with_suffix_parent _ _ _ H).
  destruct (join_parent OUTPUT_DIR base) as [-> | ->]; cbn; intuition discriminate.
Qed.

Lemma txt_json_differ (p txt json : Path) :
  txt_path_of p = Return txt -> json_path_of p = Return json -> txt <> json.
Proof.
  unfold txt_path_of, json_path_of, with_suffix.
  destruct (is_empty (name (join OUTPUT_DIR (stem p)))); [discriminate|].
  destruct (is_empty (suffix (name (join OUTPUT_DIR (stem p)))));
    intros [= <-] [= <-] [= H];
    apply append_cancel_l in H; discriminate.
Qed.

(** What a successful [save_result] leaves behind. *)
Lemma save_result_run E dumps (p : Path) (r : TResult) w txt json :
  txt_path_of p = Return txt -> json_path_of p = Return json ->
  write_raises E (clock w) txt = None ->
  write_raises E (S (S (clock w))) json = None ->
  save_result E dumps p r w = (Return tt, after_save E dumps p r txt json w).
Proof.
  unfold txt_path_of, json_path_of. intros Htxt Hjson Hw1 Hw2.
  unfold save_result. unfold_calls. rewrite Htxt, Hw1. reduce_calls.
  rewrite Hjson. reduce_calls. rewrite Hw2. reduce_calls.
  unfold after_save, txt_file, json_file, emit, set_fs, tick.
  cbn [fs clock log]. rewrite <- !app_assoc. reflexivity.
Qed.

(** A [save_result] that returns has written both files. *)
Lemma save_result_inv E dumps (p : Path) (r : TResult) w :
  run (save_result E dumps p r) w = Return tt ->
  exists txt json,
    txt_path_of p = Return txt /\ json_path_of p = Return json /\
    write_raises E (clock w) txt = None /\
    write_raises E (S (S (clock w))) json = None.
Proof.
  unfold txt_path_of, json_path_of, save_result. unfold_calls.
  destruct (with_suffix (join OUTPUT_DIR (stem p)) ".txt") as [txt|] eqn:Htxt;
    [|discriminate].
  destruct (write_raises E (clock w) txt) as [[e [n|]]|] eqn:Hw1;
    [discriminate|discriminate|].
  reduce_calls.
  destruct (with_suffix (join OUTPUT_DIR (stem p)) ".json") as [json|] eqn:Hjson;
    [|discriminate].
  reduce_calls.
  destruct (write_raises E (S (S (clock w))) json) as [[e [n|]]|] eqn:Hw2;
    [discriminate|discriminate|].
  intros _. now exists txt, json.
Qed.

(** ** One job, step by step *)

Lemma is_file_ready_true E p d w :
  run (is_file_ready E p d) w = Return true ->
  is_file_ready E p d w = (Return true, after_ready_check E p d w).
Proof.
  unfold is_file_ready, after_ready_check. unfold_calls. reduce_calls.
  destruct (exists_raises E (clock w) p); reduce_calls; [discriminate|].
  destruct (fs w !! p) as [f|] eqn:Hf; reduce_calls; [|discriminate].
  destruct (stat_raises E (S (clock w)) p); reduce_calls; [discriminate|].
  rewrite Hf. reduce_calls.
  destruct (Qle_bool 0 d); reduce_calls; [|discriminate].
  destruct (exists_raises E (S (S (S (clock w)))) p); reduce_calls;
    [discriminate|].
  destruct (interfere E (S (S (clock w))) (fs w) !! p) as [f'|] eqn:Hf';
    reduce_calls; [|discriminate].
  destruct (stat_raises E (S (S (S (S (clock w))))) p); reduce_calls;
    [discriminate|].
  rewrite Hf'. reduce_calls. intros [= H]. f_equal. f_equal. exact H.
Qed.

Lemma transcribe_file_Return E model p w r :
  model (clock w) p = Return r ->
  transcribe_file E model p w = (Return r, after_transcribe_file E p w).
Proof.
  intros Hm. unfold transcribe_file, after_transcribe_file, after_engine.
  unfold_calls. reduce_calls. rewrite Hm. reflexivity.
Qed.

Lemma transcribe_file_Raise E model p w e :
  model (clock w) p = Raise e ->
  transcribe_file E model p w = (Raise e, after_engine E p w).
Proof.
  intros Hm. unfold transcribe_file, after_engine.
  unfold_calls. reduce_calls. rewrite Hm. reflexivity.
Qed.

Lemma on_error_probe E p e w :
  exists_raises E (clock w) p = None ->
  on_error E p e w
  = (if bool_decide (is_Some (fs w !! p)) then
       try_except
         (move E p (FAILED_DIR, name p) >> print "  Moved to failed/")
         is_Exception
         (fun move_err =>
            print ("  Could not move to failed/: " ++ str_of move_err))
     else ret tt) (on_error_probed p e w).
Proof.
  intros Hp. unfold on_error, on_error_probed.
  unfold bind at 1. unfold print at 1.
  assert (Hex : exists_ E p (emit (EvPrint ("  ERROR: " ++ str_of e)) w)
                = (Return (bool_decide (is_Some (fs w !! p))),
                   tick (EvExists p)
                     (emit (EvPrint ("  ERROR: " ++ str_of e)) w)))
    by exact (exists_Return E p (emit (EvPrint _) w) Hp).
  rewrite (bind_Return _ _ _ _ _ Hex). reflexivity.
Qed.

Lemma on_error_moved E p e w f :
  exists_raises E (clock w) p = None ->
  fs w !! p = Some f ->
  move_raises E (S (clock w)) p (FAILED_DIR, name p) = None ->
  on_error E p e w = (Return tt, routed_to_failed p e f w).
Proof.
  intros Hp Hf Hmv. rewrite (on_error_probe _ _ _ _ Hp), Hf.
  cbn [bool_decide decide_rel is_Some_dec].
  assert (Hmove : move E p (FAILED_DIR, name p) (on_error_probed p e w)
                  = (Return tt,
                     set_fs (<[(FAILED_DIR, name p) := f]> (delete p (fs w)))
                       (tick (EvMove p (FAILED_DIR, name p))
                          (on_error_probed p e w))))
    by exact (move_Return E p _ (on_error_probed p e w) f Hmv Hf).
  apply try_Return. rewrite (bind_Return _ _ _ _ _ Hmove). reflexivity.
Qed.

Lemma on_error_stuck E p e w f move_err r :
  exists_raises E (clock w) p = None ->
  fs w !! p = Some f ->
  move_raises E (S (clock w)) p (FAILED_DIR, name p) = Some (move_err, r) ->
  on_error E p e w
  = (Return tt,
     stuck_in_inbox p e move_err
       (left_behind r f (wall_clock E (S (clock w)))) w).
Proof.
  intros Hp Hf Hmv. rewrite (on_error_probe _ _ _ _ Hp), Hf.
  cbn [bool_decide decide_rel is_Some_dec].
  assert (Hmove : move E p (FAILED_DIR, name p) (on_error_probed p e w)
                  = (Raise move_err,
                     blocked_move p (FAILED_DIR, name p)
                       (left_behind r f (wall_clock E (S (clock w))))
                       (on_error_probed p e w)))
    by exact (move_Raise E p _ (on_error_probed p e w) f _ _ Hmv Hf).
  rewrite (try_Raise _ _ _ _ _ _ (bind_Raise _ _ _ _ _ Hmove) eq_refl).
  reflexivity.
Qed.

Lemma on_error_gone E p e w :
  exists_raises E (clock w) p = None ->
  fs w !! p = None ->
  on_error E p e w = (Return tt, on_error_probed p e w).
Proof.
  intros Hp Hf. rewrite (on_error_probe _ _ _ _ Hp), Hf. reflexivity.
Qed.

Lemma on_error_probe_raises E p e w msg :
  exists_raises E (clock w) p = Some msg ->
  on_error E p e w = (Raise (Exn OSError msg), on_error_probed p e w).
Proof.
  intros Hp. unfold on_error, on_error_probed.
  unfold bind at 1. unfold print at 1.
  apply bind_Raise. exact (exists_Raise E p (emit (EvPrint _) w) msg Hp).
Qed.

(** A job that is present and ready enters the [try] statement. *)
Lemma process_file_ready E dumps model p w :
  exists_raises E (clock w) p = None ->
  is_Some (fs w !! p) ->
  run (is_file_ready E p 1) (checking p w) = Return true ->
  process_file E dumps model p w
  = try_except (try_body E dumps model p) is_Exception (on_error E p)
      (after_ready_check E p 1 (checking p w)).
Proof.
  intros Hp [f Hf] Hready. unfold process_file.
  rewrite (bind_Return _ _ _ _ _ (exists_Some _ _ _ _ Hp Hf)). cbn [negb].
  unfold bind at 1. unfold print at 1. fold (checking p w).
  rewrite (bind_Return _ _ _ _ _ (is_file_ready_true _ _ _ _ Hready)).
  reflexivity.
Qed.

Lemma moved_lookup (m : FS) (src dst : Path) f (q : Path) :
  (<[dst := f]> (delete src m)) !! q
  = if decide (q = dst) then Some f
    else if decide (q = src) then None else m !! q.
Proof.
  destruct (decide (q = dst)) as [->|Hd]; [apply lookup_insert_eq|].
  rewrite lookup_insert_ne by congruence.
  destruct (decide (q = src)) as [->|Hs]; [apply lookup_delete_eq|].
  apply lookup_delete_ne. congruence.
Qed.

Lemma blocked_move_fs (src dst : Path) g w :
  fs (blocked_move src dst g w)
  = match g with Some g => <[dst := g]> (fs w) | None => fs w end.
Proof. now destruct g. Qed.

Lemma blocked_move_log (src dst : Path) g w :
  log (blocked_move src dst g w) = (log w ++ [EvMove src dst])%list.
Proof. now destruct g. Qed.

Lemma blocked_move_clock (src dst : Path) g w :
  clock (blocked_move src dst g w) = S (clock w).
Proof. now destruct g. Qed.

Lemma blocked_move_lookup (src dst : Path) g w (q : Path) :
  q <> dst -> fs (blocked_move src dst g w) !! q = fs w !! q.
Proof.
  intros Hq. rewrite blocked_move_fs. destruct g; [|reflexivity].
  now apply lookup_insert_ne.
Qed.

Lemma saved_lookup_other (m : FS) (txt json q : Path) ft fj :
  ~ In (parent txt) queue_dirs -> ~ In (parent json) queue_dirs ->
  In (parent q) queue_dirs ->
  (<[json := fj]> (<[txt := ft]> m)) !! q = m !! q.
Proof.
  intros Ht Hj Hq. rewrite !lookup_insert_ne; congruence.
Qed.

Lemma log_checking (p : Path) w :
  log (checking p w)
  = (log w ++ [EvExists p; EvPrint ("  Checking: " ++ name p)])%list.
Proof. unfold checking, emit, tick. cbn [log]. now rewrite <- app_assoc. Qed.

Lemma log_after_ready_check E (p : Path) d w :
  log (after_ready_check E p d w)
  = (log w ++ [EvExists p; EvStat p; EvSleep d; EvExists p; EvStat p])%list.
Proof.
  unfold after_ready_check, tick, set_fs. cbn [log].
  now rewrite <- !app_assoc.
Qed.

Lemma log_after_engine E (p : Path) w :
  log (after_engine E p w)
  = (log w ++ [EvPrint ("  Transcribing: " ++ name p); EvTranscribe p])%list.
Proof.
  unfold after_engine, tick, emit, set_fs. cbn [log]. now rewrite <- !app_assoc.
Qed.

Lemma log_after_transcribe_file E (p : Path) w :
  log (after_transcribe_file E p w)
  = (log w ++ [EvPrint ("  Transcribing: " ++ name p); EvTranscribe p;
               EvPrint ("  Completed in " ++ elapsed_1f E (clock w) ++ "s")])%list.
Proof.
  unfold after_transcribe_file, emit. cbn [log].
  rewrite log_after_engine. now rewrite <- !app_assoc.
Qed.

Lemma log_after_save E dumps (p : Path) r txt json w :
  log (after_save E dumps p r txt json w)
  = (log w ++ [EvWrite txt (strip (r_text r)); EvNow;
               EvWrite json
                 (dumps (output_data p r (now_isoformat E (S (clock w)))));
               EvPrint ("  Saved: " ++ name txt ++ ", " ++ name json)])%list.
Proof. reflexivity. Qed.

Lemma log_on_error_probed (p : Path) e w :
  log (on_error_probed p e w)
  = (log w ++ [EvPrint ("  ERROR: " ++ str_of e); EvExists p])%list.
Proof.
  unfold on_error_probed, tick, emit. cbn [log]. now rewrite <- !app_assoc.
Qed.

Lemma log_routed_to_failed (p : Path) e f w :
  log (routed_to_failed p e f w)
  = (log w ++ [EvPrint ("  ERROR: " ++ str_of e); EvExists p;
               EvMove p (FAILED_DIR, name p);
               EvPrint "  Moved to failed/"])%list.
Proof.
  unfold routed_to_failed, emit, set_fs, tick. cbn [log].
  rewrite log_on_error_probed. now rewrite <- !app_assoc.
Qed.

Lemma log_stuck_in_inbox (p : Path) e move_err g w :
  log (stuck_in_inbox p e move_err g w)
  = (log w ++ [EvPrint ("  ERROR: " ++ str_of e); EvExists p;
               EvMove p (FAILED_DIR, name p);
               EvPrint ("  Could not move to failed/: "
                        ++ str_of move_err)])%list.
Proof.
  unfold stuck_in_inbox, emit. cbn [log].
  rewrite blocked_move_log, log_on_error_probed. now rewrite <- !app_assoc.
Qed.

Lemma log_moved_to_done (p : Path) f w :
  log (moved_to_done p f w)
  = (log w ++ [EvExists p; EvMove p (DONE_DIR, name p);
               EvPrint "  Moved to done/"])%list.
Proof.
  unfold moved_to_done, emit, set_fs, tick. cbn [log].
  now rewrite <- !app_assoc.
Qed.

Lemma new_events_log {A} (m : M A) w evs :
  log (exec m w) = (log w ++ evs)%list -> new_events m w = evs.
Proof. intros H. unfold new_events. now rewrite H, drop_app_length. Qed.

(** ** Failure routing *)

(** C3, as the claim has it, fails: with [failed/] locked, the engine
    raises on the ready job [c.flac] and the file is not in [failed/]
    afterwards: it is still in the inbox. *)
Lemma engine_error_not_always_in_failed :
  let p := (Inbox, "c.flac") in
  let w' := exec (process_file (locked Failed) dumps_sample broken_model p)
              inbox_c in
  run (is_file_ready (locked Failed) p 1) (checking p inbox_c) = Return true /\
  broken_model (clock (after_ready_check (locked Failed) p 1
                         (checking p inbox_c))) p
  = Raise (Exn OtherException "cannot decode audio") /\
  fs w' !! (Failed, "c.flac") = None /\
  is_Some (fs w' !! p).
Proof.
  cbv zeta. split; [vm_compute; reflexivity|]. split; [reflexivity|].
  split; [vm_compute; reflexivity|]. eexists. vm_compute. reflexivity.
Qed.

Lemma log_engine_raised E (p : Path) w :
  log (after_engine E p (after_ready_check E p 1 (checking p w)))
  = (log w ++ [EvExists p; EvPrint ("  Checking: " ++ name p);
               EvExists p; EvStat p; EvSleep 1; EvExists p; EvStat p;
               EvPrint ("  Transcribing: " ++ name p);
               EvTranscribe p])%list.
Proof.
  rewrite log_after_engine, log_after_ready_check, log_checking.
  now rewrite <- !app_assoc.
Qed.

(** C3, amended. When the engine raises on a ready job, [process_file]
    writes nothing and leaves every entry outside the queue directories as
    the engine call left it.  When its look at the file in the [except]
    clause does not fail, it returns; if the file is then still in the
    inbox, it tries exactly one move, the one into [failed/], and the file
    ends in [failed/] and is gone from the inbox when that move succeeds;
    if the file is no longer there, it moves nothing. *)
Theorem engine_error_routes_to_failed (E : Env) (dumps : JValue -> string)
    (model : Whisper) (nm : string) (w : World) (e : exn) :
  let p := (Inbox, nm) in
  let w1 := after_ready_check E p 1 (checking p w) in
  let w2 := after_engine E p w1 in
  let evs := new_events (process_file E dumps model p) w in
  let w' := exec (process_file E dumps model p) w in
  exists_raises E (clock w) p = None ->
  is_Some (fs w !! p) ->
  run (is_file_ready E p 1) (checking p w) = Return true ->
  model (clock w1) p = Raise e ->
  Forall (fun ev => is_write ev = false) evs /\
  (forall q, ~ In (parent q) queue_dirs -> fs w' !! q = fs w2 !! q) /\
  (exists_raises E (clock w2) p = None ->
   run (process_file E dumps model p) w = Return tt /\
   match fs w2 !! p with
   | Some f =>
       List.filter is_move evs = [EvMove p (Failed, nm)] /\
       (move_raises E (S (clock w2)) p (Failed, nm) = None ->
        fs w' = <[(Failed, nm) := f]> (delete p (fs w2)) /\
        fs w' !! (Failed, nm) = Some f /\
        fs w' !! p = None)
   | None => List.filter is_move evs = [] /\ fs w' = fs w2
   end).
Proof.
  intros p w1 w2 evs w' Hp Hex Hready Hmodel.
  assert (Hstart : process_file E dumps model p w = on_error E p e w2).
  { rewrite (process_file_ready _ _ _ _ _ Hp Hex Hready). fold w1.
    assert (Hbody : try_body E dumps model p w1 = (Raise e, w2))
      by (unfold try_body;
          apply bind_Raise, transcribe_file_Raise, Hmodel).
    now rewrite (try_Raise _ _ _ _ _ _ Hbody eq_refl). }
  pose proof (log_engine_raised E p w) as Hlog2. fold w1 w2 in Hlog2.
  destruct (exists_raises E (clock w2) p) as [msg|] eqn:Hp2.
  { pose proof (on_error_probe_raises E p e w2 msg Hp2) as Hrun.
    rewrite <- Hstart in Hrun.
    assert (Hw' : w' = on_error_probed p e w2)
      by (unfold w', exec; now rewrite Hrun).
    assert (Hevs : evs = _)
      by (apply new_events_log; fold w';
          rewrite Hw', log_on_error_probed, Hlog2, <- !app_assoc;
          reflexivity).
    rewrite Hevs, Hw'. split; [repeat constructor|].
    split; [reflexivity|discriminate]. }
  destruct (fs w2 !! p) as [f|] eqn:Hf.
  2:{ pose proof (on_error_gone E p e w2 Hp2 Hf) as Hrun.
      rewrite <- Hstart in Hrun.
      assert (Hw' : w' = on_error_probed p e w2)
        by (unfold w', exec; now rewrite Hrun).
      assert (Hevs : evs = _)
        by (apply new_events_log; fold w';
            rewrite Hw', log_on_error_probed, Hlog2, <- !app_assoc;
            reflexivity).
      rewrite Hevs, Hw'. split; [repeat constructor|].
      split; [reflexivity|]. intros _.
      split; [unfold run; now rewrite Hrun|]. split; reflexivity. }
  destruct (move_raises E (S (clock w2)) p (Failed, nm)) as [[move_err r]|]
    eqn:Hmv.
  - pose proof (on_error_stuck E p e w2 f move_err r Hp2 Hf Hmv) as Hrun.
    rewrite <- Hstart in Hrun.
    set (g := left_behind r f (wall_clock E (S (clock w2)))) in *.
    assert (Hw' : w' = stuck_in_inbox p e move_err g w2)
      by (unfold w', exec; now rewrite Hrun).
    assert (Hevs : evs = _)
      by (apply new_events_log; fold w';
          rewrite Hw', log_stuck_in_inbox, Hlog2, <- !app_assoc;
          reflexivity).
    rewrite Hevs, Hw'. split; [repeat constructor|].
    split.
    { intros q Hq. unfold stuck_in_inbox. cbn [fs emit].
      rewrite blocked_move_lookup; [reflexivity|].
      intros ->. apply Hq. cbn. auto. }
    intros _. split; [unfold run; now rewrite Hrun|].
    split; [reflexivity|discriminate].
  - pose proof (on_error_moved E p e w2 f Hp2 Hf Hmv) as Hrun.
    rewrite <- Hstart in Hrun.
    assert (Hw' : w' = routed_to_failed p e f w2)
      by (unfold w', exec; now rewrite Hrun).
    assert (Hevs : evs = _)
      by (apply new_events_log; fold w';
          rewrite Hw', log_routed_to_failed, Hlog2, <- !app_assoc;
          reflexivity).
    assert (Hfs : fs (routed_to_failed p e f w2)
                  = <[(Failed, nm) := f]> (delete p (fs w2))) by reflexivity.
    rewrite Hevs, Hw', Hfs. split; [repeat constructor|].
    split.
    { intros q Hq. rewrite moved_lookup.
      rewrite !decide_False; [reflexivity| |]; intros ->; apply Hq; cbn; auto. }
    intros _. split; [unfold run; now rewrite Hrun|].
    split; [reflexivity|]. intros _. split; [reflexivity|].
    rewrite !moved_lookup.
    split; [now rewrite decide_True|].
    rewrite decide_False by discriminate. now rewrite decide_True.
Qed.

Lemma engine_error_routes_to_failed_witness :
  let p := (Inbox, "c.flac") in
  let w' := exec (process_file calm dumps_sample broken_model p) inbox_c in
  exists_raises calm (clock inbox_c) p = None /\
  is_Some (fs inbox_c !! p) /\
  run (is_file_ready calm p 1) (checking p inbox_c) = Return true /\
  run (process_file calm dumps_sample broken_model p) inbox_c = Return tt /\
  fs w' !! (Failed, "c.flac") = Some (mkFile [x66; x4c] 50) /\
  fs w' !! p = None /\
  Forall (fun ev => is_write ev = false)
    (new_events (process_file calm dumps_sample broken_model p) inbox_c).
Proof.
  cbv zeta.
  assert (H0 : exists_raises calm (clock inbox_c) (Inbox, "c.flac") = None)
    by reflexivity.
  assert (H1 : is_Some (fs inbox_c !! (Inbox, "c.flac")))
    by (eexists; vm_compute; reflexivity).
  assert (H2 : run (is_file_ready calm (Inbox, "c.flac") 1)
                 (checking (Inbox, "c.flac") inbox_c) = Return true)
    by (vm_compute; reflexivity).
  split; [exact H0|]. split; [exact H1|]. split; [exact H2|].
  pose proof (engine_error_routes_to_failed calm dumps_sample
                broken_model "c.flac" inbox_c
                (Exn OtherException "cannot decode audio")
                H0 H1 H2 eq_refl) as H.
  cbv zeta in H. destruct H as (Hwrites & _ & H).
  specialize (H eq_refl). destruct H as (Hret & H).
  assert (H3 : fs (after_engine calm (Inbox, "c.flac")
                     (after_ready_check calm (Inbox, "c.flac") 1
                        (checking (Inbox, "c.flac") inbox_c)))
               !! (Inbox, "c.flac") = Some (mkFile [x66; x4c] 50))
    by (vm_compute; reflexivity).
  rewrite H3 in H. destruct H as (_ & H). specialize (H eq_refl).
  destruct H as (_ & H4 & H5). auto.
Defined.

Lemma artifact_names (p : Path) :
  stem p <> "." -> is_empty (stem p) = false -> suffix (stem p) = "" ->
  txt_path_of p = Return (Output, stem p ++ ".txt") /\
  json_path_of p = Return (Output, stem p ++ ".json").
Proof.
  intros Hdot Hne Hsfx. unfold txt_path_of, json_path_of.
  rewrite join_plain; [|intros H; now rewrite H in Hne|exact Hdot].
  unfold with_suffix. cbn [name parent fst snd].
  rewrite Hne, Hsfx. split; reflexivity.
Qed.

Lemma saved_lookup_source (E : Env) dumps (p : Path) r txt json w :
  In (parent p) queue_dirs ->
  txt_path_of p = Return txt -> json_path_of p = Return json ->
  forall q, In (parent q) queue_dirs ->
    fs (after_save E dumps p r txt json w) !! q = fs w !! q.
Proof.
  intros Hp Htxt Hjson q Hq. unfold after_save. cbn [fs].
  apply saved_lookup_other; [| |exact Hq].
  - exact (with_suffix_artifact _ _ _ Htxt).
  - exact (with_suffix_artifact _ _ _ Hjson).
Qed.

Lemma saved_lookup_txt (E : Env) dumps (p : Path) r txt json w :
  txt_path_of p = Return txt -> json_path_of p = Return json ->
  fs (after_save E dumps p r txt json w) !! txt
  = Some (txt_file E (clock w) r).
Proof.
  intros Htxt Hjson. unfold after_save. cbn [fs].
  rewrite lookup_insert_ne
    by (intros ->; now apply (txt_json_differ p txt txt)).
  apply lookup_insert_eq.
Qed.

Lemma saved_lookup_json (E : Env) dumps (p : Path) r txt json w :
  fs (after_save E dumps p r txt json w) !! json
  = Some (json_file E dumps (clock w) p r).
Proof. unfold after_save. cbn [fs]. apply lookup_insert_eq. Qed.

(** The [try] body up to its move into [done/], when that move raises. *)
Lemma try_body_blocked E dumps model (p : Path) w1 r txt json f e res :
  In (parent p) queue_dirs ->
  let w2 := after_transcribe_file E p w1 in
  let w3 := after_save E dumps p r txt json w2 in
  model (clock w1) p = Return r ->
  txt_path_of p = Return txt ->
  json_path_of p = Return json ->
  write_raises E (clock w2) txt = None ->
  write_raises E (S (S (clock w2))) json = None ->
  exists_raises E (clock w3) p = None ->
  fs w2 !! p = Some f ->
  move_raises E (S (clock w3)) p (DONE_DIR, name p) = Some (e, res) ->
  try_body E dumps model p w1
  = (Raise e,
     blocked_move p (DONE_DIR, name p)
       (left_behind res f (wall_clock E (S (clock w3))))
       (tick (EvExists p) w3)).
Proof.
  intros Hq w2 w3 Hmodel Htxt Hjson Hw1 Hw2 Hp3 Hf Hdone.
  assert (Hf3 : fs w3 !! p = Some f).
  { unfold w3. now rewrite (saved_lookup_source E dumps p r txt json w2 Hq
                              Htxt Hjson p Hq). }
  unfold try_body.
  rewrite (bind_Return _ _ _ _ _ (transcribe_file_Return _ _ _ _ _ Hmodel)).
  fold w2.
  rewrite (bind_Return _ _ _ _ _
             (save_result_run _ dumps _ r _ _ _ Htxt Hjson Hw1 Hw2)).
  fold w3.
  rewrite (bind_Return _ _ _ _ _ (exists_Some _ _ _ _ Hp3 Hf3)).
  apply bind_Raise.
  exact (move_Raise E p _ (tick (EvExists p) w3) f _ _ Hdone Hf3).
Qed.



(** ** The invariants of the queue *)

(** C2. A failed [shutil.move] can leave a copy behind, and the worker
    does not clean it up.  When the move into [done/] raises after it has
    copied the file, and the move into [failed/] then does the same,
    [process_file] returns with the job's file in the inbox, in [done/]
    and in [failed/] at once. *)
Theorem failed_moves_leave_copies (E : Env) (dumps : JValue -> string)
    (model : Whisper) (nm : string) (w : World) (r : TResult)
    (txt json : Path) (e e' : exn) (f : File) :
  let p := (Inbox, nm) in
  let w1 := after_ready_check E p 1 (checking p w) in
  let w2 := after_transcribe_file E p w1 in
  let w3 := after_save E dumps p r txt json w2 in
  exists_raises E (clock w) p = None ->
  is_Some (fs w !! p) ->
  run (is_file_ready E p 1) (checking p w) = Return true ->
  model (clock w1) p = Return r ->
  txt_path_of p = Return txt ->
  json_path_of p = Return json ->
  write_raises E (clock w2) txt = None ->
  write_raises E (S (S (clock w2))) json = None ->
  exists_raises E (clock w3) p = None ->
  fs w2 !! p = Some f ->
  move_raises E (S (clock w3)) p (Done, nm) = Some (e, Whole) ->
  exists_raises E (S (S (clock w3))) p = None ->
  move_raises E (S (S (S (clock w3)))) p (Failed, nm) = Some (e', Whole) ->
  let w' := exec (process_file E dumps model p) w in
  run (process_file E dumps model p) w = Return tt /\
  fs w' !! (Inbox, nm) = Some f /\
  fs w' !! (Done, nm) = Some f /\
  fs w' !! (Failed, nm) = Some f /\
  locations (fs w') nm = [Inbox; Done; Failed].
Proof.
  intros p w1 w2 w3 Hp Hex Hready Hmodel Htxt Hjson Hw1 Hw2 Hp3 Hf Hdone
    Hp4 Hfailed w'.
  assert (Hq : In (parent p) queue_dirs) by (cbn; auto).
  set (w4 := blocked_move p (DONE_DIR, name p) (Some f) (tick (EvExists p) w3)).
  pose proof (try_body_blocked E dumps model p w1 r txt json f e Whole Hq
                Hmodel Htxt Hjson Hw1 Hw2 Hp3 Hf Hdone) as Hbody.
  cbn [left_behind] in Hbody. fold w2 w3 w4 in Hbody.
  assert (Hsrc : forall q, In (parent q) queue_dirs ->
            fs w3 !! q = fs w2 !! q)
    by (apply saved_lookup_source; assumption).
  assert (Hf4 : fs w4 !! p = Some f).
  { unfold w4. rewrite blocked_move_lookup by discriminate.
    cbn [fs tick]. now rewrite Hsrc. }
  assert (Hrun : process_file E dumps model p w
                 = (Return tt, stuck_in_inbox p e e' (Some f) w4)).
  { rewrite (process_file_ready _ _ _ _ _ Hp Hex Hready). fold w1.
    rewrite (try_Raise _ _ _ _ _ _ Hbody eq_refl).
    apply (on_error_stuck E p e w4 f e' Whole); [|exact Hf4|];
      unfold w4; rewrite blocked_move_clock; cbn [clock tick]; assumption. }
  assert (H1 : fs w' !! (Inbox, nm) = Some f /\
               fs w' !! (Done, nm) = Some f /\
               fs w' !! (Failed, nm) = Some f).
  { subst w'. unfold exec. rewrite Hrun. cbn [snd].
    unfold stuck_in_inbox. cbn [fs emit blocked_move set_fs].
    split; [|split].
    - rewrite lookup_insert_ne by discriminate. exact Hf4.
    - rewrite lookup_insert_ne by discriminate.
      unfold w4. cbn [fs blocked_move set_fs]. apply lookup_insert_eq.
    - apply lookup_insert_eq. }
  split; [unfold run; now rewrite Hrun|].
  destruct H1 as (Hi & Hd & Hfl). repeat (split; [assumption|]).
  unfold locations, queue_dirs. cbn [List.filter].
  rewrite Hi, Hd, Hfl. reflexivity.
Qed.

(** Nothing can be removed from the inbox: after one visit [c.flac] is in
    all three directories. *)
Lemma failed_moves_leave_copies_witness :
  let p := (Inbox, "c.flac") in
  let w' := exec (process_file readonly_inbox dumps_sample hello_model p)
              inbox_c in
  is_Some (fs inbox_c !! p) /\
  run (is_file_ready readonly_inbox p 1) (checking p inbox_c) = Return true /\
  locations (fs inbox_c) "c.flac" = [Inbox] /\
  locations (fs w') "c.flac" = [Inbox; Done; Failed].
Proof.
  cbv zeta.
  assert (H1 : is_Some (fs inbox_c !! (Inbox, "c.flac")))
    by (eexists; vm_compute; reflexivity).
  assert (H2 : run (is_file_ready readonly_inbox (Inbox, "c.flac") 1)
                 (checking (Inbox, "c.flac") inbox_c) = Return true)
    by (vm_compute; reflexivity).
  split; [exact H1|]. split; [exact H2|].
  split; [vm_compute; reflexivity|].
  assert (H3 : fs (after_transcribe_file readonly_inbox (Inbox, "c.flac")
                     (after_ready_check readonly_inbox (Inbox, "c.flac") 1
                        (checking (Inbox, "c.flac") inbox_c)))
               !! (Inbox, "c.flac") = Some (mkFile [x66; x4c] 50))
    by (vm_compute; reflexivity).
  pose proof (failed_moves_leave_copies readonly_inbox dumps_sample
                hello_model "c.flac" inbox_c
                {| r_text := "  hello world  ";
                   r_language := Some "en";
                   r_segments := None |}
                (Output, "c.txt") (Output, "c.json")
                (Exn OSError "Permission denied")
                (Exn OSError "Permission denied")
                (mkFile [x66; x4c] 50)
                eq_refl H1 H2 eq_refl eq_refl eq_refl eq_refl eq_refl eq_refl
                H3 eq_refl eq_refl eq_refl) as H.
  cbv zeta in H. destruct H as (_ & _ & _ & _ & H). exact H.
Defined.

(** ** The artifacts *)

Lemma lstrip_spec s :
  exists l, s = l ++ lstrip s /\ all_space l = true /\
            starts_with_space (lstrip s) = false.
Proof.
  induction s as [|c s (l & Hl & Hsp & Hst)]; [now exists ""|].
  cbn [lstrip]. destruct (isspace c) eqn:Hc.
  - exists (String c l). split; [|split; [|exact Hst]].
    + change (String c l ++ lstrip s) with (String c (l ++ lstrip s)).
      congruence.
    + cbn. now rewrite Hc.
  - exists "". split; [reflexivity|]. split; [reflexivity|]. exact Hc.
Qed.

Lemma rstrip_spec s :
  exists r, s = rstrip s ++ r /\ all_space r = true /\
            ends_with_space (rstrip s) = false /\
            (starts_with_space s = false ->
             starts_with_space (rstrip s) = false).
Proof.
  induction s as [|c s (r & Hr & Hsp & Hend & _)]; [now exists ""|].
  cbn [rstrip]. destruct (isspace c && is_empty (rstrip s)) eqn:Hc.
  - apply andb_true_iff in Hc as [Hc Hemp].
    destruct (rstrip s) eqn:Hrs; [|discriminate].
    exists (String c s). split; [reflexivity|]. split; [|split].
    + cbn. rewrite Hc. cbn. change ("" ++ r) with r in Hr. congruence.
    + reflexivity.
    + reflexivity.
  - exists r. split; [|split; [exact Hsp|split]].
    + change (String c (rstrip s) ++ r) with (String c (rstrip s ++ r)).
      congruence.
    + cbn [ends_with_space]. destruct (rstrip s) eqn:Hrs; [|exact Hend].
      cbn in Hc. now rewrite andb_true_r in Hc.
    + cbn. auto.
Qed.

(** [strip] removes white space at both ends and nothing else. *)
Lemma strip_trimmed s :
  exists l r, s = l ++ strip s ++ r /\
    all_space l = true /\ all_space r = true /\
    starts_with_space (strip s) = false /\ ends_with_space (strip s) = false.
Proof.
  destruct (lstrip_spec s) as (l & Hl & Hlsp & Hst).
  destruct (rstrip_spec (lstrip s)) as (r & Hr & Hrsp & Hend & Hfirst).
  exists l, r. unfold strip. split; [congruence|].
  split; [exact Hlsp|]. split; [exact Hrsp|]. split; [|exact Hend].
  exact (Hfirst Hst).
Qed.

(** A [save_result] that returns leaves the trimmed text, encoded, in the
    text artifact. *)
Lemma save_result_txt E dumps (p : Path) (r : TResult) w :
  run (save_result E dumps p r) w = Return tt ->
  exists txt, txt_path_of p = Return txt /\
    fs (exec (save_result E dumps p r) w) !! txt
    = Some (txt_file E (clock w) r).
Proof.
  intros Hrun.
  destruct (save_result_inv _ _ _ _ _ Hrun) as (txt & json & Ht & Hj & H1 & H2).
  exists txt. split; [exact Ht|]. unfold exec.
  rewrite (save_result_run _ dumps _ r _ _ _ Ht Hj H1 H2).
  cbn [snd after_save fs].
  rewrite lookup_insert_ne
    by (intros ->; now apply (txt_json_differ p txt txt)).
  apply lookup_insert_eq.
Qed.

(** C9. When the result writer runs twice in a row for the same job and
    the same result, the text artifact holds the same bytes after the first
    run and after the second: the encoding of the trimmed text. *)
Theorem text_artifact_deterministic (E : Env) (dumps : JValue -> string)
    (p : Path) (r : TResult) (w : World) :
  let w' := exec (save_result E dumps p r) w in
  let w'' := exec (save_result E dumps p r) w' in
  run (save_result E dumps p r) w = Return tt ->
  run (save_result E dumps p r) w' = Return tt ->
  exists txt,
    txt_path_of p = Return txt /\
    data <$> fs w' !! txt = Some (utf8 (strip (r_text r))) /\
    data <$> fs w'' !! txt = Some (utf8 (strip (r_text r))).
Proof.
  intros w' w'' H1 H2.
  destruct (save_result_txt _ _ _ _ _ H1) as (txt & Ht & Hfirst).
  destruct (save_result_txt _ _ _ _ _ H2) as (txt' & Ht' & Hsecond).
  assert (txt' = txt) as -> by congruence.
  exists txt. split; [exact Ht|]. subst w' w''.
  rewrite Hfirst, Hsecond. split; reflexivity.
Qed.

Lemma text_artifact_deterministic_witness :
  let p := (Inbox, "a.mp3") in
  let w' := exec (save_result calm dumps_sample p hello) inbox_ab in
  let w'' := exec (save_result calm dumps_sample p hello) w' in
  run (save_result calm dumps_sample p hello) inbox_ab = Return tt /\
  run (save_result calm dumps_sample p hello) w' = Return tt /\
  exists txt,
    txt_path_of p = Return txt /\
    data <$> fs w' !! txt = Some (utf8 (strip (r_text hello))) /\
    data <$> fs w'' !! txt = Some (utf8 (strip (r_text hello))).
Proof.
  cbv zeta.
  assert (H1 : run (save_result calm dumps_sample (Inbox, "a.mp3") hello)
                 inbox_ab = Return tt) by (vm_compute; reflexivity).
  assert (H2 : run (save_result calm dumps_sample (Inbox, "a.mp3") hello)
                 (exec (save_result calm dumps_sample (Inbox, "a.mp3") hello)
                    inbox_ab) = Return tt) by (vm_compute; reflexivity).
  split; [exact H1|]. split; [exact H2|].
  exact (text_artifact_deterministic calm dumps_sample (Inbox, "a.mp3") hello
           inbox_ab H1 H2).
Defined.

(** C7 at the job [a.b.mp3]: the stem is [a.b], and the two artifacts are
    written as [a.txt] and [a.json]; nothing is written under [a.b]. *)
Theorem dotted_name_artifacts :
  let p := (Inbox, "a.b.mp3") in
  let w' := exec (save_result calm dumps_sample p hello) inbox_dotted in
  stem p = "a.b" /\
  run (save_result calm dumps_sample p hello) inbox_dotted = Return tt /\
  txt_path_of p = Return (Output, "a.txt") /\
  json_path_of p = Return (Output, "a.json") /\
  data <$> fs w' !! (Output, "a.txt") = Some (utf8 "hello world") /\
  is_Some (fs w' !! (Output, "a.json")) /\
  fs w' !! (Output, "a.b.txt") = None /\
  fs w' !! (Output, "a.b.json") = None.
Proof.
  cbv zeta. repeat split; try (vm_compute; reflexivity).
  eexists. vm_compute. reflexivity.
Qed.

(** ** What the system calls write to the log *)

Lemma exists_log E p w :
  log (exec (exists_ E p) w) = (log w ++ [EvExists p])%list.
Proof.
  unfold exec, exists_. now destruct (exists_raises E (clock w) p).
Qed.

Lemma stat_log E p w :
  log (exec (stat E p) w) = (log w ++ [EvStat p])%list.
Proof.
  unfold exec, stat. destruct (stat_raises E (clock w) p); [reflexivity|].
  destruct (fs w !! p); reflexivity.
Qed.

Lemma sleep_log E d w :
  log (exec (sleep E d) w) = (log w ++ [EvSleep d])%list \/
  log (exec (sleep E d) w) = log w.
Proof. unfold exec, sleep. destruct (Qle_bool 0 d); [left|right]; reflexivity. Qed.

Lemma write_log E p text w :
  log (exec (write_text E p text) w) = (log w ++ [EvWrite p text])%list.
Proof.
  unfold exec, write_text.
  destruct (write_raises E (clock w) p) as [[e [n|]]|]; reflexivity.
Qed.

Lemma move_log E src dst w :
  log (exec (move E src dst) w) = (log w ++ [EvMove src dst])%list.
Proof.
  unfold exec, move. destruct (fs w !! src) as [f|]; [|reflexivity].
  destruct (move_raises E (clock w) src dst) as [[e r]|]; [|reflexivity].
  cbn [snd]. now destruct (left_behind r f _).
Qed.

(** ** Counting the tries to move a job into [failed/] *)

Lemma attempts_app p evs1 evs2 :
  attempts p (evs1 ++ evs2) = (attempts p evs1 + attempts p evs2)%nat.
Proof. unfold attempts. now rewrite List.filter_app, length_app. Qed.

Lemma within_refl n p w : within n p w w.
Proof. exists []. split; [now rewrite app_nil_r | cbn; lia]. Qed.

Lemma within_trans a b p w1 w2 w3 :
  within a p w1 w2 -> within b p w2 w3 -> within (a + b) p w1 w3.
Proof.
  intros (e1 & H1 & N1) (e2 & H2 & N2). exists (e1 ++ e2)%list. split.
  - now rewrite H2, H1, app_assoc.
  - rewrite attempts_app. lia.
Qed.

Lemma within_mono a b p w w' :
  (a <= b)%nat -> within a p w w' -> within b p w w'.
Proof. intros Hab (evs & H & N). exists evs. split; [exact H | lia]. Qed.

Lemma within_0_trans p w1 w2 w3 :
  within 0 p w1 w2 -> within 0 p w2 w3 -> within 0 p w1 w3.
Proof. apply (within_trans 0 0). Qed.

(** A system call that logs one event which is no such move. *)
Lemma within_one_event p ev w w' :
  log w' = (log w ++ [ev])%list -> is_move_to FAILED_DIR p ev = false ->
  within 0 p w w'.
Proof.
  intros Hlog Hev. exists [ev]. split; [exact Hlog|].
  unfold attempts. cbn. now rewrite Hev.
Qed.

Lemma keeps_within_bind {A B} a b p (m : M A) (k : A -> M B) :
  keeps (within a p) m -> (forall x, keeps (within b p) (k x)) ->
  keeps (within (a + b) p) (bind m k).
Proof.
  intros Hm Hk w. specialize (Hm w).
  unfold exec, bind in *. destruct (m w) as [[x|e] w']; cbn in *.
  - eapply within_trans; [exact Hm | apply (Hk x)].
  - eapply within_mono; [|exact Hm]. lia.
Qed.

Lemma keeps_within_try {A} a b p (m : M A) catches (h : exn -> M A) :
  keeps (within a p) m -> (forall e, keeps (within b p) (h e)) ->
  keeps (within (a + b) p) (try_except m catches h).
Proof.
  intros Hm Hh w. specialize (Hm w).
  unfold exec, try_except in *. destruct (m w) as [[x|e] w']; cbn in *.
  - eapply within_mono; [|exact Hm]. lia.
  - destruct (catches e).
    + eapply within_trans; [exact Hm | apply (Hh e)].
    + eapply within_mono; [|exact Hm]. lia.
Qed.

Lemma quiet_bind {A B} p (m : M A) (k : A -> M B) :
  keeps (within 0 p) m -> (forall x, keeps (within 0 p) (k x)) ->
  keeps (within 0 p) (bind m k).
Proof. apply (keeps_within_bind 0 0). Qed.

Lemma quiet_ret {A} p (a : A) : keeps (within 0 p) (ret a).
Proof. intros w. apply within_refl. Qed.

Lemma quiet_lift {A} p (o : outcome A) : keeps (within 0 p) (lift o).
Proof. intros w. apply within_refl. Qed.

Lemma quiet_exists E p q : keeps (within 0 p) (exists_ E q).
Proof.
  intros w. apply (within_one_event p (EvExists q)); [apply exists_log|].
  reflexivity.
Qed.

Lemma quiet_time p : keeps (within 0 p) time_time.
Proof. intros w. apply within_refl. Qed.

Lemma quiet_glob p dir pattern : keeps (within 0 p) (glob dir pattern).
Proof. intros w. apply within_refl. Qed.

Lemma quiet_print p line : keeps (within 0 p) (print line).
Proof. intros w. now apply (within_one_event p (EvPrint line)). Qed.

Lemma quiet_sleep E p d : keeps (within 0 p) (sleep E d).
Proof.
  intros w. destruct (sleep_log E d w) as [H|H].
  - now apply (within_one_event p (EvSleep d)).
  - exists []. split; [now rewrite app_nil_r|cbn; lia].
Qed.

Lemma quiet_now_iso E p : keeps (within 0 p) (datetime_now_isoformat E).
Proof. intros w. now apply (within_one_event p EvNow). Qed.

Lemma quiet_now_hms E p : keeps (within 0 p) (datetime_now_hms E).
Proof. intros w. now apply (within_one_event p EvNow). Qed.

Lemma quiet_transcribe E p model q : keeps (within 0 p) (transcribe E model q).
Proof. intros w. now apply (within_one_event p (EvTranscribe q)). Qed.

Lemma quiet_stat E p q : keeps (within 0 p) (stat E q).
Proof.
  intros w. apply (within_one_event p (EvStat q)); [|reflexivity].
  apply stat_log.
Qed.

Lemma quiet_write E p q text : keeps (within 0 p) (write_text E q text).
Proof.
  intros w. apply (within_one_event p (EvWrite q text)); [|reflexivity].
  apply write_log.
Qed.

(** A move that is not the move of [p] into [failed/]. *)
Lemma quiet_move E p src dst :
  src <> p \/ parent dst <> Failed -> keeps (within 0 p) (move E src dst).
Proof.
  intros Hne w. apply (within_one_event p (EvMove src dst)); [apply move_log|].
  cbn. destruct Hne as [Hne|Hne].
  - now rewrite (bool_decide_eq_false_2 _ Hne).
  - rewrite (bool_decide_eq_false_2 (dst = _)), andb_false_r; [reflexivity|].
    intros ->. now apply Hne.
Qed.

Lemma one_move E p src dst : keeps (within 1 p) (move E src dst).
Proof.
  intros w. exists [EvMove src dst]. split; [apply move_log|].
  unfold attempts. cbn. destruct (_ && _); cbn; lia.
Qed.

Lemma quiet_try {A} p (m : M A) catches (h : exn -> M A) :
  keeps (within 0 p) m -> (forall e, keeps (within 0 p) (h e)) ->
  keeps (within 0 p) (try_except m catches h).
Proof. apply (keeps_within_try 0 0). Qed.

Lemma quiet_map_M {A B} p (f : A -> M B) (xs : list A) :
  (forall x, keeps (within 0 p) (f x)) -> keeps (within 0 p) (map_M f xs).
Proof.
  intros Hf. induction xs as [|x xs IH]; cbn [map_M]; [apply quiet_ret|].
  apply quiet_bind; [apply Hf|]. intros y.
  apply quiet_bind; [apply IH|]. intros ys. apply quiet_ret.
Qed.

Lemma quiet_filter_M {A} p (f : A -> M bool) (xs : list A) :
  (forall x, keeps (within 0 p) (f x)) -> keeps (within 0 p) (filter_M f xs).
Proof.
  intros Hf. induction xs as [|x xs IH]; cbn [filter_M]; [apply quiet_ret|].
  apply quiet_bind; [apply Hf|]. intros y.
  apply quiet_bind; [apply IH|]. intros ys. apply quiet_ret.
Qed.

Lemma quiet_is_file_ready E p q d : keeps (within 0 p) (is_file_ready E q d).
Proof.
  unfold is_file_ready.
  apply quiet_bind; [apply quiet_exists|]. intros [|]; cbn [negb].
  2: apply quiet_ret.
  apply quiet_try; [|intros; apply quiet_ret].
  apply quiet_bind; [apply quiet_stat|]. intros st.
  apply quiet_bind; [apply quiet_sleep|]. intros _.
  apply quiet_bind; [apply quiet_exists|]. intros [|]; cbn [negb].
  2: apply quiet_ret.
  apply quiet_bind; [apply quiet_stat|]. intros st'. apply quiet_ret.
Qed.

Lemma quiet_transcribe_file E p model q :
  keeps (within 0 p) (transcribe_file E model q).
Proof.
  unfold transcribe_file.
  apply quiet_bind; [apply quiet_print|]. intros _.
  apply quiet_bind; [apply quiet_time|]. intros start.
  apply quiet_bind; [apply quiet_transcribe|]. intros r.
  apply quiet_bind; [apply quiet_print|]. intros _. apply quiet_ret.
Qed.

Lemma quiet_save_result E dumps p q r :
  keeps (within 0 p) (save_result E dumps q r).
Proof.
  unfold save_result.
  apply quiet_bind; [apply quiet_lift|]. intros txt.
  apply quiet_bind; [apply quiet_write|]. intros _.
  apply quiet_bind; [apply quiet_lift|]. intros json.
  apply quiet_bind; [apply quiet_now_iso|]. intros stamp.
  apply quiet_bind; [apply quiet_write|]. intros _. apply quiet_print.
Qed.

(** The [try] body moves files into [done/] only. *)
Lemma quiet_try_body E dumps model p q :
  keeps (within 0 p) (try_body E dumps model q).
Proof.
  unfold try_body.
  apply quiet_bind; [apply quiet_transcribe_file|]. intros r.
  apply quiet_bind; [apply quiet_save_result|]. intros _.
  apply quiet_bind; [apply quiet_exists|]. intros [|]; [|apply quiet_ret].
  apply quiet_bind; [apply quiet_move; right; discriminate|].
  intros _. apply quiet_print.
Qed.

(** The [except] clause tries the move into [failed/] at most once, and
    only for the job it was entered for. *)
Lemma on_error_attempts E p q e :
  keeps (within (if bool_decide (q = p) then 1 else 0) p) (on_error E q e).
Proof.
  unfold on_error.
  apply (keeps_within_bind 0); [apply quiet_print|]. intros _.
  apply (keeps_within_bind 0); [apply quiet_exists|].
  intros [|]; [|intros w; apply within_refl].
  case_bool_decide as Hq.
  - apply (keeps_within_try 1 0).
    + apply (keeps_within_bind 1 0); [apply one_move|].
      intros _. apply quiet_print.
    + intros. apply quiet_print.
  - apply quiet_try.
    + apply quiet_bind; [apply quiet_move; now left|].
      intros _. apply quiet_print.
    + intros. apply quiet_print.
Qed.

Lemma process_file_attempts E dumps model p q :
  keeps (within (if bool_decide (q = p) then 1 else 0) p)
    (process_file E dumps model q).
Proof.
  unfold process_file.
  apply (keeps_within_bind 0); [apply quiet_exists|].
  intros [|]; cbn [negb].
  2: { intros w. eapply within_mono; [|apply quiet_print]. lia. }
  apply (keeps_within_bind 0); [apply quiet_print|]. intros _.
  apply (keeps_within_bind 0); [apply quiet_is_file_ready|].
  intros [|]; cbn [negb].
  2: { intros w. eapply within_mono; [|apply quiet_print]. lia. }
  apply (keeps_within_try 0); [apply quiet_try_body|].
  intros e. apply on_error_attempts.
Qed.

(** A batch in which [p] does not occur never tries; a batch without
    repetition tries at most once. *)
Lemma batch_without p E dumps model batch :
  ~ In p batch ->
  keeps (within 0 p) (for_each batch (process_file E dumps model)).
Proof.
  induction batch as [|q batch IH]; intros Hnot; cbn [for_each].
  - apply quiet_ret.
  - apply quiet_bind.
    + pose proof (process_file_attempts E dumps model p q) as H.
      rewrite bool_decide_eq_false_2 in H; [exact H|].
      intros ->. apply Hnot. now left.
    + intros _. apply IH. intros Hin. apply Hnot. now right.
Qed.

Lemma batch_attempts p E dumps model batch :
  List.NoDup batch ->
  keeps (within 1 p) (for_each batch (process_file E dumps model)).
Proof.
  induction 1 as [|q batch Hq Hnd IH]; cbn [for_each].
  - intros w. apply within_refl.
  - pose proof (process_file_attempts E dumps model p q) as H.
    case_bool_decide as Hqp.
    + subst q. apply (keeps_within_bind 1 0); [exact H|].
      intros _. now apply batch_without.
    + apply (keeps_within_bind 0 1); [exact H|]. intros _. exact IH.
Qed.

(** One turn of the poll loop tries at most once to move a given job into
    [failed/]. *)
Lemma poll_cycle_attempts E dumps model poll_interval p :
  keeps (within 1 p) (poll_cycle E dumps model poll_interval).
Proof.
  unfold poll_cycle, get_pending_files.
  intros w.
  pose proof (get_pending_files_NoDup E AUDIO_EXTENSIONS eq_refl eq_refl w)
    as Hnd.
  assert (Hscan : within 0 p w
                    (exec (get_pending_files_over E AUDIO_EXTENSIONS) w)).
  { unfold get_pending_files_over, candidates.
    apply quiet_bind.
    - apply quiet_bind.
      + clear. induction AUDIO_EXTENSIONS as [|ext exts IH]; cbn [glob_all];
          [apply quiet_ret|].
        apply quiet_bind.
        * unfold glob_ext. apply quiet_bind; [apply quiet_glob|]. intros ?.
          apply quiet_bind; [apply quiet_glob|]. intros ?. apply quiet_ret.
        * intros ?. apply quiet_bind; [apply IH|]. intros ?. apply quiet_ret.
      + intros ?. apply quiet_filter_M. intros ?. apply quiet_exists.
    - intros files. case_bool_decide; [apply quiet_ret|].
      apply quiet_bind; [|intros; apply quiet_ret].
      apply quiet_map_M. intros f.
      apply quiet_bind; [apply quiet_stat|]. intros; apply quiet_ret. }
  unfold exec, bind in *.
  destruct (get_pending_files_over E AUDIO_EXTENSIONS w)
    as [[pending|e] w1] eqn:Hrun; cbn [snd] in *.
  2: { eapply within_mono; [|exact Hscan]. lia. }
  specialize (Hnd pending w1 eq_refl).
  apply (within_trans 0 1 p w w1); [exact Hscan|].
  assert (Hrest : keeps (within 1 p)
            ((if bool_decide (pending = []) then ret tt
              else
                let* hms := datetime_now_hms E in
                print ("[" ++ hms ++ "] Found " ++ pretty (List.length pending)
                       ++ " file(s) to process") >>
                for_each pending (process_file E dumps model) >>
                print "") >>
             sleep E poll_interval)).
  { apply (keeps_within_bind 1 0); [|intros _; apply quiet_sleep].
    case_bool_decide.
    - intros w0. apply within_refl.
    - apply (keeps_within_bind 0 1); [apply quiet_now_hms|]. intros hms.
      apply (keeps_within_bind 0 1); [apply quiet_print|]. intros _.
      apply (keeps_within_bind 1 0); [now apply batch_attempts|].
      intros _. apply quiet_print. }
  exact (Hrest w1).
Qed.

Lemma new_events_within {A} n p (m : M A) w :
  within n p w (exec m w) -> (attempts p (new_events m w) <= n)%nat.
Proof.
  intros (evs & Hlog & Hn). unfold new_events.
  now rewrite Hlog, drop_app_length.
Qed.

(** C8. On the failure path, when the move into [failed/] fails too, the
    handler prints the condition and returns with the file still in the
    inbox, the very file it found there; no entry other than the one of
    that name in [failed/] has changed, and that one holds what the failed
    move left behind, or else what it held before; the handler's events
    are the error line, its look at the file, the one move, and the line
    that reports its failure; the visit of the job tries that move exactly
    once, and a whole turn of the poll loop tries it at most once. *)
Theorem failed_move_leaves_job_in_inbox (E : Env) (dumps : JValue -> string)
    (model : Whisper) (nm : string) (w : World) (e move_err : exn)
    (res : residue) (f : File) :
  let p := (Inbox, nm) in
  let w1 := after_ready_check E p 1 (checking p w) in
  let w2 := exec (try_body E dumps model p) w1 in
  exists_raises E (clock w) p = None ->
  is_Some (fs w !! p) ->
  run (is_file_ready E p 1) (checking p w) = Return true ->
  run (try_body E dumps model p) w1 = Raise e ->
  exists_raises E (clock w2) p = None ->
  fs w2 !! p = Some f ->
  move_raises E (S (clock w2)) p (Failed, nm) = Some (move_err, res) ->
  let w' := exec (process_file E dumps model p) w in
  run (process_file E dumps model p) w = Return tt /\
  fs w' !! p = Some f /\
  (forall q, q <> (Failed, nm) -> fs w' !! q = fs w2 !! q) /\
  fs w' !! (Failed, nm)
  = match left_behind res f (wall_clock E (S (clock w2))) with
    | Some copy => Some copy
    | None => fs w2 !! (Failed, nm)
    end /\
  log w'
  = (log w2 ++ [EvPrint ("  ERROR: " ++ str_of e);
                EvExists p;
                EvMove p (Failed, nm);
                EvPrint ("  Could not move to failed/: " ++ str_of move_err)])%list /\
  attempts p (new_events (process_file E dumps model p) w) = 1%nat /\
  forall poll_interval w0,
    (attempts p (new_events (poll_cycle E dumps model poll_interval) w0)
     <= 1)%nat.
Proof.
  intros p w1 w2 Hp Hex Hready Hraise Hp2 Hf Hmv w'.
  assert (Hbody : try_body E dumps model p w1 = (Raise e, w2)).
  { unfold run in Hraise. unfold w2, exec.
    destruct (try_body E dumps model p w1) as [o w3]. cbn in *. congruence. }
  set (g := left_behind res f (wall_clock E (S (clock w2)))).
  assert (Hrun : process_file E dumps model p w
                 = (Return tt, stuck_in_inbox p e move_err g w2)).
  { rewrite (process_file_ready _ _ _ _ _ Hp Hex Hready). fold w1.
    rewrite (try_Raise _ _ _ _ _ _ Hbody eq_refl).
    now apply (on_error_stuck E p e w2 f). }
  pose proof (log_stuck_in_inbox p e move_err g w2) as Hlog.
  split; [unfold run; now rewrite Hrun|].
  assert (Hw' : w' = stuck_in_inbox p e move_err g w2)
    by (unfold w', exec; now rewrite Hrun).
  assert (Hother : forall q, q <> (Failed, nm) -> fs w' !! q = fs w2 !! q).
  { intros q Hq. rewrite Hw'. unfold stuck_in_inbox. cbn [fs emit].
    now rewrite blocked_move_lookup. }
  split; [rewrite Hother by discriminate; exact Hf|].
  split; [exact Hother|].
  split.
  { rewrite Hw'. unfold stuck_in_inbox. cbn [fs emit].
    rewrite blocked_move_fs. destruct g as [copy|]; [|reflexivity].
    apply lookup_insert_eq. }
  split; [now rewrite Hw'|]. split.
  - destruct (quiet_try_body E dumps model p p w1) as (evs & Hevs & Hnone).
    fold w2 in Hevs.
    unfold new_events. fold w'. rewrite Hw', Hlog, Hevs.
    unfold w1. rewrite log_after_ready_check, log_checking.
    rewrite <- !app_assoc, drop_app_length, !attempts_app.
    unfold attempts at 1 2 4. cbn.
    rewrite !bool_decide_eq_true_2 by reflexivity. cbn. lia.
  - intros poll_interval w0.
    apply new_events_within, poll_cycle_attempts.
Qed.

Lemma failed_move_leaves_job_in_inbox_witness :
  let p := (Inbox, "c.flac") in
  let E := locked Failed in
  let w1 := after_ready_check E p 1 (checking p inbox_c) in
  let w2 := exec (try_body E dumps_sample broken_model p) w1 in
  let w' := exec (process_file E dumps_sample broken_model p) inbox_c in
  is_Some (fs inbox_c !! p) /\
  run (is_file_ready E p 1) (checking p inbox_c) = Return true /\
  run (try_body E dumps_sample broken_model p) w1
  = Raise (Exn OtherException "cannot decode audio") /\
  fs w2 !! p = Some (mkFile [x66; x4c] 50) /\
  move_raises E (S (clock w2)) p (Failed, "c.flac")
  = Some (Exn OSError "Permission denied", Nothing) /\
  fs w' !! p = Some (mkFile [x66; x4c] 50) /\
  attempts p (new_events (process_file E dumps_sample broken_model p) inbox_c)
  = 1%nat.
Proof.
  cbv zeta.
  assert (H1 : is_Some (fs inbox_c !! (Inbox, "c.flac")))
    by (eexists; vm_compute; reflexivity).
  assert (H2 : run (is_file_ready (locked Failed) (Inbox, "c.flac") 1)
                 (checking (Inbox, "c.flac") inbox_c) = Return true)
    by (vm_compute; reflexivity).
  assert (H3 : run (try_body (locked Failed) dumps_sample broken_model
                      (Inbox, "c.flac"))
                 (after_ready_check (locked Failed) (Inbox, "c.flac") 1
                    (checking (Inbox, "c.flac") inbox_c))
               = Raise (Exn OtherException "cannot decode audio"))
    by (vm_compute; reflexivity).
  assert (H4 : fs (exec (try_body (locked Failed) dumps_sample broken_model
                           (Inbox, "c.flac"))
                     (after_ready_check (locked Failed) (Inbox, "c.flac") 1
                        (checking (Inbox, "c.flac") inbox_c)))
               !! (Inbox, "c.flac") = Some (mkFile [x66; x4c] 50))
    by (vm_compute; reflexivity).
  assert (H5 : move_raises (locked Failed)
                 (S (clock (exec (try_body (locked Failed) dumps_sample
                                    broken_model (Inbox, "c.flac"))
                              (after_ready_check (locked Failed)
                                 (Inbox, "c.flac") 1
                                 (checking (Inbox, "c.flac") inbox_c)))))
                 (Inbox, "c.flac") (Failed, "c.flac")
               = Some (Exn OSError "Permission denied", Nothing))
    by (vm_compute; reflexivity).
  repeat (split; [assumption|]).
  pose proof (failed_move_leaves_job_in_inbox (locked Failed) dumps_sample
                broken_model "c.flac" inbox_c
                (Exn OtherException "cannot decode audio")
                (Exn OSError "Permission denied") Nothing
                (mkFile [x66; x4c] 50) eq_refl H1 H2 H3 eq_refl H4 H5) as H.
  cbv zeta in H. destruct H as (_ & H6 & _ & _ & _ & H7 & _). auto.
Defined.

(** ** The scenarios of the specification *)


(** [a.mp3] is older than [b.wav]: the scan lists it first, it is checked
    first, and after the turn both files are in [done/] and the four
    artifacts are in [output/]. *)
Example fifo_scenario :
  let w' := exec (poll_cycle calm dumps_sample hello_model 2) inbox_ab in
  run (get_pending_files calm) inbox_ab
  = Return [(Inbox, "a.mp3"); (Inbox, "b.wav")] /\
  List.filter (fun ev => match ev with EvTranscribe _ => true | _ => false end)
    (log w')
  = [EvTranscribe (Inbox, "a.mp3"); EvTranscribe (Inbox, "b.wav")] /\
  forallb (fun q => bool_decide (is_Some (fs w' !! q)))
    [(Done, "a.mp3"); (Done, "b.wav"); (Output, "a.txt"); (Output, "a.json");
     (Output, "b.txt"); (Output, "b.json")] = true /\
  size (fs w') = 6%nat.
Proof. cbv zeta. repeat split; vm_compute; reflexivity. Qed.

(** The engine fails on [c.flac]: the file ends in [failed/] and nothing is
    written to [output/]. *)
Example engine_failure_scenario :
  let w' := exec (poll_cycle calm dumps_sample broken_model 2) inbox_c in
  map fst (map_to_list (fs w')) = [(Failed, "c.flac")].
Proof. vm_compute. reflexivity. Qed.

(** * Further properties of the worker *)

Lemma appends_refl P w : appends P w w.
Proof. exists []. split; [now rewrite app_nil_r|constructor]. Qed.

Lemma appends_trans P w1 w2 w3 :
  appends P w1 w2 -> appends P w2 w3 -> appends P w1 w3.
Proof.
  intros (e1 & H1 & F1) (e2 & H2 & F2). exists (e1 ++ e2)%list.
  split; [now rewrite H2, H1, app_assoc|]. now apply Forall_app.
Qed.

Lemma appends_event (P : event -> Prop) ev w w' :
  P ev -> log w' = (log w ++ [ev])%list -> appends P w w'.
Proof.
  intros Hev Hlog. exists [ev]. split; [exact Hlog|]. now repeat constructor.
Qed.

Lemma appends_bind P {A B} (m : M A) (k : A -> M B) :
  keeps (appends P) m -> (forall a, keeps (appends P) (k a)) ->
  keeps (appends P) (bind m k).
Proof. apply keeps_bind, appends_trans. Qed.

Lemma appends_ret P {A} (a : A) : keeps (appends P) (ret a).
Proof. intros w. apply appends_refl. Qed.

Lemma appends_exists (P : event -> Prop) E p :
  P (EvExists p) -> keeps (appends P) (exists_ E p).
Proof.
  intros HP w. apply (appends_event P (EvExists p)); [exact HP|].
  apply exists_log.
Qed.

Lemma appends_glob P dir pattern : keeps (appends P) (glob dir pattern).
Proof. intros w. apply appends_refl. Qed.

Lemma appends_stat (P : event -> Prop) E p :
  P (EvStat p) -> keeps (appends P) (stat E p).
Proof.
  intros HP w. apply (appends_event P (EvStat p)); [exact HP|].
  apply stat_log.
Qed.

Lemma appends_new_events P {A} (m : M A) w :
  appends P w (exec m w) -> Forall P (new_events m w).
Proof.
  intros (evs & Hlog & Hall). unfold new_events.
  now rewrite Hlog, drop_app_length.
Qed.

Lemma harmless_refl w : harmless w w.
Proof. apply appends_refl. Qed.

Lemma harmless_trans w1 w2 w3 :
  harmless w1 w2 -> harmless w2 w3 -> harmless w1 w3.
Proof. apply appends_trans. Qed.

Lemma harmless_event ev w w' :
  is_effect ev = false -> log w' = (log w ++ [ev])%list -> harmless w w'.
Proof. apply (appends_event (fun ev => is_effect ev = false)). Qed.

Lemma harmless_ret {A} (a : A) : keeps harmless (ret a).
Proof. intros w. apply harmless_refl. Qed.

Lemma harmless_print line : keeps harmless (print line).
Proof. intros w. now apply (harmless_event (EvPrint line)). Qed.

Lemma harmless_exists E p : keeps harmless (exists_ E p).
Proof. now apply appends_exists. Qed.

Lemma harmless_glob dir pattern : keeps harmless (glob dir pattern).
Proof. intros w. apply harmless_refl. Qed.

Lemma harmless_sleep E d : keeps harmless (sleep E d).
Proof.
  intros w. destruct (sleep_log E d w) as [H|H].
  - now apply (harmless_event (EvSleep d)).
  - exists []. split; [now rewrite app_nil_r|constructor].
Qed.

Lemma harmless_now_hms E : keeps harmless (datetime_now_hms E).
Proof. intros w. now apply (harmless_event EvNow). Qed.

Lemma harmless_stat E p : keeps harmless (stat E p).
Proof.
  intros w. apply (harmless_event (EvStat p)); [reflexivity|].
  apply stat_log.
Qed.

Lemma harmless_bind {A B} (m : M A) (k : A -> M B) :
  keeps harmless m -> (forall a, keeps harmless (k a)) ->
  keeps harmless (bind m k).
Proof. apply keeps_bind, harmless_trans. Qed.

Lemma harmless_is_file_ready E p d : keeps harmless (is_file_ready E p d).
Proof.
  unfold is_file_ready.
  apply harmless_bind; [apply harmless_exists|]. intros [|]; cbn [negb].
  2: apply harmless_ret.
  apply (keeps_try harmless harmless_trans).
  2: intros; apply harmless_ret.
  apply harmless_bind; [apply harmless_stat|]. intros st.
  apply harmless_bind; [apply harmless_sleep|]. intros _.
  apply harmless_bind; [apply harmless_exists|]. intros [|]; cbn [negb].
  2: apply harmless_ret.
  apply harmless_bind; [apply harmless_stat|]. intros; apply harmless_ret.
Qed.

Lemma new_events_harmless {A} (m : M A) w :
  harmless w (exec m w) ->
  Forall (fun ev => is_effect ev = false) (new_events m w).
Proof.
  intros (evs & Hlog & Hall). unfold new_events.
  now rewrite Hlog, drop_app_length.
Qed.

(** A visit that does not find the job ready does nothing but look, wait
    and print, whether it returns or not. *)
Lemma not_ready_harmless E dumps model p w :
  run (is_file_ready E p 1) (checking p w) <> Return true ->
  harmless w (exec (process_file E dumps model p) w).
Proof.
  intros Hready. unfold process_file, exec, bind at 1.
  pose proof (harmless_exists E p w) as H0. unfold exec in H0.
  destruct (exists_ E p w) as [[[|]|e] w0] eqn:Hex; cbn [snd negb] in *.
  2:{ eapply harmless_trans; [exact H0|]. apply harmless_print. }
  2:{ exact H0. }
  assert (Hw0 : w0 = tick (EvExists p) w).
  { unfold exists_ in Hex. destruct (exists_raises E (clock w) p);
      now injection Hex as _ <-. }
  subst w0. unfold bind at 1, print at 1. fold (checking p w).
  eapply harmless_trans; [exact H0|].
  eapply harmless_trans.
  { apply (harmless_event (EvPrint ("  Checking: " ++ name p))
             (tick (EvExists p) w) (checking p w)); reflexivity. }
  pose proof (harmless_is_file_ready E p 1 (checking p w)) as H1.
  unfold run, exec, bind in *.
  destruct (is_file_ready E p 1 (checking p w)) as [[[|]|e] w1];
    cbn [fst snd negb] in *; [congruence| |exact H1].
  eapply harmless_trans; [exact H1|]. apply harmless_print.
Qed.

Lemma not_ready_fs E dumps model p w :
  quiet E ->
  run (is_file_ready E p 1) (checking p w) <> Return true ->
  fs (exec (process_file E dumps model p) w) = fs w.
Proof.
  intros Hq Hready. unfold process_file, exec, bind at 1.
  pose proof (fs_same_exists E p w) as H0. unfold exec in H0.
  destruct (exists_ E p w) as [[[|]|e] w0] eqn:Hex; cbn [snd negb] in *;
    [|exact H0|exact H0].
  assert (Hw0 : w0 = tick (EvExists p) w).
  { unfold exists_ in Hex. destruct (exists_raises E (clock w) p);
      now injection Hex as _ <-. }
  subst w0. unfold bind at 1, print at 1. fold (checking p w).
  pose proof (fs_same_is_file_ready E p 1 Hq (checking p w)) as H1.
  unfold run, exec, bind in *.
  destruct (is_file_ready E p 1 (checking p w)) as [[[|]|e] w1];
    cbn [fst snd negb] in *; [congruence|exact H1|exact H1].
Qed.

(** A job whose readiness check answers [False] is left alone. *)
Lemma process_file_not_ready E dumps model p w :
  exists_raises E (clock w) p = None ->
  is_Some (fs w !! p) ->
  run (is_file_ready E p 1) (checking p w) = Return false ->
  process_file E dumps model p w
  = (Return tt,
     emit (EvPrint ("  SKIP: " ++ name p ++ " not ready (still copying?)"))
       (exec (is_file_ready E p 1) (checking p w))).
Proof.
  intros Hp [f Hf] Hready. unfold process_file.
  rewrite (bind_Return _ _ _ _ _ (exists_Some _ _ _ _ Hp Hf)). cbn [negb].
  unfold bind at 1. unfold print at 1. fold (checking p w).
  unfold run, exec in *. unfold bind.
  destruct (is_file_ready E p 1 (checking p w)) as [[b|e] w1]; cbn in *;
    [|discriminate].
  injection Hready as ->. reflexivity.
Qed.

(** An empty file is never found ready. *)
Lemma is_file_ready_empty E p d w f :
  fs w !! p = Some f -> data f = [] ->
  run (is_file_ready E p d) w <> Return true.
Proof.
  intros Hf Hempty. unfold is_file_ready. unfold_calls. reduce_calls.
  destruct (exists_raises E (clock w) p); reduce_calls; [discriminate|].
  rewrite Hf. reduce_calls.
  destruct (stat_raises E (S (clock w)) p); reduce_calls; [discriminate|].
  rewrite Hf. reduce_calls.
  destruct (Qle_bool 0 d); reduce_calls; [|discriminate].
  destruct (exists_raises E (S (S (S (clock w)))) p); reduce_calls;
    [discriminate|].
  destruct (interfere E (S (S (clock w))) (fs w) !! p) as [f'|] eqn:Hf';
    reduce_calls; [|discriminate].
  destruct (stat_raises E (S (S (S (S (clock w))))) p); reduce_calls;
    [discriminate|].
  rewrite Hf'. reduce_calls. unfold stat_of. rewrite Hempty. cbn.
  rewrite andb_false_r. discriminate.
Qed.

(** When the two looks at the file that are not guarded do not fail, the
    check of an empty file answers [False]. *)
Lemma is_file_ready_empty_false E p w f :
  exists_raises E (clock w) p = None ->
  fs w !! p = Some f -> data f = [] ->
  run (is_file_ready E p 1) w = Return false.
Proof.
  intros Hp Hf Hempty.
  destruct (is_file_ready_cases E p 1 w Hp Qle_0_1)
    as (ready & Hrun & _ & Hzero & _).
  rewrite Hrun. f_equal. apply (Hzero f Hf).
  unfold stat_of. cbn. now rewrite Hempty.
Qed.

(** X1. A job that is in place but fails the readiness check is skipped:
    [process_file] returns, prints the line that says so last, does nothing
    to the file system beyond what the check let others do (nothing at
    all in a quiet environment), and neither calls the engine nor writes
    nor moves anything. *)
Theorem not_ready_job_skipped (E : Env) (dumps : JValue -> string)
    (model : Whisper) (p : Path) (w : World) :
  exists_raises E (clock w) p = None ->
  is_Some (fs w !! p) ->
  run (is_file_ready E p 1) (checking p w) = Return false ->
  let w' := exec (process_file E dumps model p) w in
  run (process_file E dumps model p) w = Return tt /\
  fs w' = fs (exec (is_file_ready E p 1) (checking p w)) /\
  (quiet E -> fs w' = fs w) /\
  Forall (fun ev => is_effect ev = false)
    (new_events (process_file E dumps model p) w) /\
  last (log w')
  = Some (EvPrint ("  SKIP: " ++ name p ++ " not ready (still copying?)")).
Proof.
  intros Hp Hex Hready w'.
  pose proof (process_file_not_ready E dumps model p w Hp Hex Hready) as Hrun.
  assert (Hw' : w' = emit (EvPrint ("  SKIP: " ++ name p
                                    ++ " not ready (still copying?)"))
                       (exec (is_file_ready E p 1) (checking p w)))
    by (unfold w', exec at 1; now rewrite Hrun).
  assert (Hnot : run (is_file_ready E p 1) (checking p w) <> Return true)
    by (rewrite Hready; discriminate).
  split; [unfold run; now rewrite Hrun|].
  split; [now rewrite Hw'|].
  split; [intros Hq; now apply not_ready_fs|].
  split; [now apply new_events_harmless, not_ready_harmless|].
  rewrite Hw'. cbn [log emit]. apply last_snoc.
Qed.

Lemma not_ready_job_skipped_witness :
  let p := (Inbox, "c.flac") in
  let w' := exec (process_file copying dumps_sample hello_model p) inbox_c in
  is_Some (fs inbox_c !! p) /\
  run (is_file_ready copying p 1) (checking p inbox_c) = Return false /\
  Forall (fun ev => is_effect ev = false)
    (new_events (process_file copying dumps_sample hello_model p) inbox_c) /\
  last (log w')
  = Some (EvPrint "  SKIP: c.flac not ready (still copying?)").
Proof.
  cbv zeta.
  assert (H1 : is_Some (fs inbox_c !! (Inbox, "c.flac")))
    by (eexists; vm_compute; reflexivity).
  assert (H2 : run (is_file_ready copying (Inbox, "c.flac") 1)
                 (checking (Inbox, "c.flac") inbox_c) = Return false)
    by (vm_compute; reflexivity).
  split; [exact H1|]. split; [exact H2|].
  pose proof (not_ready_job_skipped copying dumps_sample hello_model
                (Inbox, "c.flac") inbox_c eq_refl H1 H2) as H.
  cbv zeta in H. destruct H as (_ & _ & _ & H3 & H4). auto.
Defined.

(** X2. An empty file is never processed, whatever the environment does:
    [process_file] ends without a call of the engine, a write or a move,
    and in a quiet environment the file system is as before, so the file
    stays in the inbox; it returns when its own look at the file and the
    first one of the readiness check do not fail. *)
Theorem empty_file_never_processed (E : Env) (dumps : JValue -> string)
    (model : Whisper) (p : Path) (w : World) (f : File) :
  fs w !! p = Some f ->
  data f = [] ->
  let w' := exec (process_file E dumps model p) w in
  Forall (fun ev => is_effect ev = false)
    (new_events (process_file E dumps model p) w) /\
  (quiet E -> fs w' = fs w) /\
  (exists_raises E (clock w) p = None ->
   exists_raises E (S (clock w)) p = None ->
   run (process_file E dumps model p) w = Return tt).
Proof.
  intros Hf Hempty w'.
  assert (Hex : is_Some (fs w !! p)) by eauto.
  assert (Hnot : run (is_file_ready E p 1) (checking p w) <> Return true)
    by (apply (is_file_ready_empty E p 1 (checking p w) f); assumption).
  split; [now apply new_events_harmless, not_ready_harmless|].
  split; [intros Hq; now apply not_ready_fs|].
  intros Hp0 Hp1.
  assert (Hready : run (is_file_ready E p 1) (checking p w) = Return false)
    by (apply (is_file_ready_empty_false E p (checking p w) f); assumption).
  pose proof (process_file_not_ready E dumps model p w Hp0 Hex Hready) as Hrun.
  unfold run. now rewrite Hrun.
Qed.

Lemma empty_file_never_processed_witness :
  let p := (Inbox, "z.mp3") in
  fs inbox_empty_file !! p = Some (mkFile [] 10) /\
  data (mkFile [] 10) = [] /\
  Forall (fun ev => is_effect ev = false)
    (new_events (process_file calm dumps_sample hello_model p)
       inbox_empty_file) /\
  run (process_file calm dumps_sample hello_model p) inbox_empty_file
  = Return tt.
Proof.
  cbv zeta.
  assert (H1 : fs inbox_empty_file !! (Inbox, "z.mp3") = Some (mkFile [] 10))
    by (vm_compute; reflexivity).
  split; [exact H1|]. split; [reflexivity|].
  pose proof (empty_file_never_processed calm dumps_sample
                hello_model (Inbox, "z.mp3") inbox_empty_file
                (mkFile [] 10) H1 eq_refl) as H.
  cbv zeta in H. destruct H as (H2 & _ & H3).
  split; [exact H2|]. now apply H3.
Defined.

(** ** The three ways through the [try] body *)

Lemma try_body_done E dumps model (p : Path) w r txt json f :
  In (parent p) queue_dirs ->
  model (clock w) p = Return r ->
  txt_path_of p = Return txt -> json_path_of p = Return json ->
  let w2 := after_transcribe_file E p w in
  let w3 := after_save E dumps p r txt json w2 in
  write_raises E (clock w2) txt = None ->
  write_raises E (S (S (clock w2))) json = None ->
  exists_raises E (clock w3) p = None ->
  fs w2 !! p = Some f ->
  move_raises E (S (clock w3)) p (DONE_DIR, name p) = None ->
  try_body E dumps model p w = (Return tt, moved_to_done p f w3).
Proof.
  intros Hp Hmodel Htxt Hjson w2 w3 Hw1 Hw2 Hp3 Hf Hmv.
  assert (Hf3 : fs w3 !! p = Some f).
  { unfold w3. now rewrite (saved_lookup_source E dumps p r txt json w2 Hp
                              Htxt Hjson p Hp). }
  unfold try_body.
  rewrite (bind_Return _ _ _ _ _ (transcribe_file_Return _ _ _ _ _ Hmodel)).
  fold w2.
  rewrite (bind_Return _ _ _ _ _
             (save_result_run _ dumps _ r _ _ _ Htxt Hjson Hw1 Hw2)).
  fold w3.
  rewrite (bind_Return _ _ _ _ _ (exists_Some _ _ _ _ Hp3 Hf3)).
  rewrite (bind_Return _ _ _ _ _
             (move_Return E p _ (tick (EvExists p) w3) f Hmv Hf3)).
  reflexivity.
Qed.

(** X3. When nothing goes wrong (the job is ready, the engine returns, both
    writes and the move into [done/] succeed, no look at the file fails),
    [process_file] leaves the source file, with its content and
    modification time, in [done/] and no longer in the inbox, does not
    touch [failed/], leaves the two artifacts where [save_result] puts
    them, changes no other entry, and its effects are, in this order, the
    call of the engine, the two writes and the one move. *)
Theorem success_routes_to_done (E : Env) (dumps : JValue -> string)
    (model : Whisper) (nm : string) (w : World) (r : TResult)
    (txt json : Path) (f : File) :
  let p := (Inbox, nm) in
  let w1 := after_ready_check E p 1 (checking p w) in
  let w2 := after_transcribe_file E p w1 in
  let w3 := after_save E dumps p r txt json w2 in
  exists_raises E (clock w) p = None ->
  is_Some (fs w !! p) ->
  run (is_file_ready E p 1) (checking p w) = Return true ->
  model (clock w1) p = Return r ->
  txt_path_of p = Return txt ->
  json_path_of p = Return json ->
  write_raises E (clock w2) txt = None ->
  write_raises E (S (S (clock w2))) json = None ->
  exists_raises E (clock w3) p = None ->
  fs w2 !! p = Some f ->
  move_raises E (S (clock w3)) p (Done, nm) = None ->
  let w' := exec (process_file E dumps model p) w in
  run (process_file E dumps model p) w = Return tt /\
  fs w' !! (Done, nm) = Some f /\
  fs w' !! p = None /\
  fs w' !! (Failed, nm) = fs w2 !! (Failed, nm) /\
  fs w' !! txt = Some (txt_file E (clock w2) r) /\
  fs w' !! json = Some (json_file E dumps (clock w2) p r) /\
  (forall q, q <> p -> q <> (Done, nm) -> q <> txt -> q <> json ->
     fs w' !! q = fs w2 !! q) /\
  List.filter is_effect (new_events (process_file E dumps model p) w)
  = [EvTranscribe p;
     EvWrite txt (strip (r_text r));
     EvWrite json
       (dumps (output_data p r (now_isoformat E (S (clock w2)))));
     EvMove p (Done, nm)].
Proof.
  intros p w1 w2 w3 Hp0 Hex Hready Hmodel Htxt Hjson Hw1 Hw2 Hp3 Hf Hmv w'.
  pose proof (with_suffix_artifact _ _ _ Htxt) as Ptxt.
  pose proof (with_suffix_artifact _ _ _ Hjson) as Pjson.
  assert (Hp : In (parent p) queue_dirs) by (cbn; auto).
  assert (Hrun : process_file E dumps model p w
                 = (Return tt, moved_to_done p f w3)).
  { rewrite (process_file_ready _ _ _ _ _ Hp0 Hex Hready). fold w1.
    apply try_Return.
    exact (try_body_done E dumps model p w1 r txt json f Hp Hmodel Htxt Hjson
             Hw1 Hw2 Hp3 Hf Hmv). }
  unfold new_events. subst w'. unfold run, exec. rewrite Hrun. cbn [fst snd].
  split; [reflexivity|].
  assert (Hfs : fs (moved_to_done p f w3)
                = <[(Done, nm) := f]> (delete p (fs w3))) by reflexivity.
  rewrite Hfs.
  split; [rewrite moved_lookup; now rewrite decide_True|].
  split; [rewrite moved_lookup, decide_False by discriminate;
          now rewrite decide_True|].
  split.
  { rewrite moved_lookup, !decide_False by discriminate.
    unfold w3. apply (saved_lookup_source E dumps p); auto. cbn. auto. }
  split.
  { rewrite moved_lookup, !decide_False
      by (intros ->; apply Ptxt; cbn; auto).
    unfold w3. now apply (saved_lookup_txt E dumps p). }
  split.
  { rewrite moved_lookup, !decide_False
      by (intros ->; apply Pjson; cbn; auto).
    unfold w3. apply saved_lookup_json. }
  split.
  { intros q Hq1 Hq2 Hq3 Hq4. rewrite moved_lookup, !decide_False by assumption.
    unfold w3, after_save. cbn [fs].
    rewrite !lookup_insert_ne by congruence. reflexivity. }
  rewrite log_moved_to_done. unfold w3. rewrite log_after_save. unfold w2.
  rewrite log_after_transcribe_file. unfold w1.
  rewrite log_after_ready_check, log_checking.
  rewrite <- !app_assoc, drop_app_length. reflexivity.
Qed.

Lemma success_routes_to_done_witness :
  let p := (Inbox, "c.flac") in
  let w' := exec (process_file calm dumps_sample hello_model p) inbox_c in
  is_Some (fs inbox_c !! p) /\
  run (is_file_ready calm p 1) (checking p inbox_c) = Return true /\
  fs w' !! (Done, "c.flac") = Some (mkFile [x66; x4c] 50) /\
  fs w' !! p = None /\
  fs w' !! (Output, "c.txt") = Some (mkFile (utf8 "hello world") 1007).
Proof.
  cbv zeta.
  assert (H1 : is_Some (fs inbox_c !! (Inbox, "c.flac")))
    by (eexists; vm_compute; reflexivity).
  assert (H2 : run (is_file_ready calm (Inbox, "c.flac") 1)
                 (checking (Inbox, "c.flac") inbox_c) = Return true)
    by (vm_compute; reflexivity).
  split; [exact H1|]. split; [exact H2|].
  assert (H3 : fs (after_transcribe_file calm (Inbox, "c.flac")
                     (after_ready_check calm (Inbox, "c.flac") 1
                        (checking (Inbox, "c.flac") inbox_c)))
               !! (Inbox, "c.flac") = Some (mkFile [x66; x4c] 50))
    by (vm_compute; reflexivity).
  pose proof (success_routes_to_done calm dumps_sample hello_model "c.flac"
                inbox_c hello (Output, "c.txt") (Output, "c.json")
                (mkFile [x66; x4c] 50)
                eq_refl H1 H2 eq_refl eq_refl eq_refl eq_refl eq_refl eq_refl
                H3 eq_refl) as H.
  cbv zeta in H. destruct H as (_ & H4 & H5 & _ & H6 & _).
  split; [exact H4|]. split; [exact H5|]. rewrite H6. reflexivity.
Defined.

Lemma save_result_json_raises E dumps (p : Path) (r : TResult) w txt json e
    res :
  txt_path_of p = Return txt -> json_path_of p = Return json ->
  write_raises E (clock w) txt = None ->
  write_raises E (S (S (clock w))) json = Some (e, res) ->
  save_result E dumps p r w
  = (Raise e,
     after_text_only E dumps p r txt json
       (cut_short E (S (S (clock w)))
          (dumps (output_data p r (now_isoformat E (S (clock w))))) res) w).
Proof.
  unfold txt_path_of, json_path_of. intros Htxt Hjson Hw1 Hw2.
  unfold save_result. unfold_calls. rewrite Htxt, Hw1. reduce_calls.
  rewrite Hjson. reduce_calls. rewrite Hw2.
  unfold after_text_only, txt_file, emit, set_fs, tick.
  destruct res as [n|]; cbn [fs clock log cut_short];
    rewrite <- !app_assoc; reflexivity.
Qed.

(** X4. The two writes of [save_result] are not one step.  When the text
    artifact is written and the write of the JSON record fails, the error
    reaches the [except] clause of [process_file]: the job goes to
    [failed/], the text artifact stays where it was written, and the entry
    at the JSON path is what the failed write left of it, the first bytes
    of the record or none, or, when the file could not even be opened,
    what it was before. *)
Theorem json_write_error_leaves_text_artifact (E : Env)
    (dumps : JValue -> string) (model : Whisper) (nm : string) (w : World)
    (r : TResult) (txt json : Path) (e : exn) (res : option nat) (f : File) :
  let p := (Inbox, nm) in
  let w1 := after_ready_check E p 1 (checking p w) in
  let w2 := after_transcribe_file E p w1 in
  let record := dumps (output_data p r (now_isoformat E (S (clock w2)))) in
  let w3 := after_text_only E dumps p r txt json
              (cut_short E (S (S (clock w2))) record res) w2 in
  exists_raises E (clock w) p = None ->
  is_Some (fs w !! p) ->
  run (is_file_ready E p 1) (checking p w) = Return true ->
  model (clock w1) p = Return r ->
  txt_path_of p = Return txt ->
  json_path_of p = Return json ->
  write_raises E (clock w2) txt = None ->
  write_raises E (S (S (clock w2))) json = Some (e, res) ->
  exists_raises E (clock w3) p = None ->
  fs w2 !! p = Some f ->
  move_raises E (S (clock w3)) p (Failed, nm) = None ->
  let w' := exec (process_file E dumps model p) w in
  run (process_file E dumps model p) w = Return tt /\
  fs w' !! (Failed, nm) = Some f /\
  fs w' !! p = None /\
  fs w' !! (Done, nm) = fs w2 !! (Done, nm) /\
  fs w' !! txt = Some (txt_file E (clock w2) r) /\
  fs w' !! json
  = match res with
    | Some n =>
        Some (mkFile (take n (utf8 record)) (wall_clock E (S (S (clock w2)))))
    | None => fs w2 !! json
    end /\
  In (EvPrint ("  ERROR: " ++ str_of e)) (log w').
Proof.
  intros p w1 w2 record w3 Hp0 Hex Hready Hmodel Htxt Hjson Hw1 Hw2 Hp3 Hf
    Hmv w'.
  pose proof (with_suffix_artifact _ _ _ Htxt) as Ptxt.
  pose proof (with_suffix_artifact _ _ _ Hjson) as Pjson.
  pose proof (txt_json_differ p txt json Htxt Hjson) as Hdiff.
  assert (Hqueue : forall q, In (parent q) queue_dirs ->
            fs w3 !! q = fs w2 !! q).
  { intros q Hq. unfold w3, after_text_only. cbn [fs].
    destruct (cut_short _ _ _ _);
      rewrite !lookup_insert_ne; congruence. }
  assert (Hf3 : fs w3 !! p = Some f)
    by (rewrite Hqueue; [exact Hf|cbn; auto]).
  assert (Hbody : try_body E dumps model p w1 = (Raise e, w3)).
  { unfold try_body.
    rewrite (bind_Return _ _ _ _ _ (transcribe_file_Return _ _ _ _ _ Hmodel)).
    fold w2.
    apply bind_Raise, save_result_json_raises; assumption. }
  assert (Hrun : process_file E dumps model p w
                 = (Return tt, routed_to_failed p e f w3)).
  { rewrite (process_file_ready _ _ _ _ _ Hp0 Hex Hready). fold w1.
    rewrite (try_Raise _ _ _ _ _ _ Hbody eq_refl).
    apply on_error_moved; [exact Hp3 | exact Hf3 | exact Hmv]. }
  subst w'. unfold run, exec. rewrite Hrun. cbn [fst snd].
  split; [reflexivity|].
  assert (Hfs : fs (routed_to_failed p e f w3)
                = <[(Failed, nm) := f]> (delete p (fs w3))) by reflexivity.
  rewrite Hfs, !moved_lookup.
  split; [now rewrite decide_True|].
  split; [rewrite decide_False by discriminate; now rewrite decide_True|].
  split.
  { rewrite !decide_False by discriminate. apply Hqueue. cbn. auto. }
  split.
  { rewrite !decide_False by (intros ->; apply Ptxt; cbn; auto).
    unfold w3, after_text_only. cbn [fs].
    destruct (cut_short _ _ _ _);
      [rewrite lookup_insert_ne by congruence|]; apply lookup_insert_eq. }
  split.
  { rewrite !decide_False by (intros ->; apply Pjson; cbn; auto).
    unfold w3, after_text_only. cbn [fs]. destruct res as [n|]; cbn [cut_short].
    - apply lookup_insert_eq.
    - now apply lookup_insert_ne. }
  rewrite log_routed_to_failed.
  rewrite !in_app_iff. right. now left.
Qed.

Lemma json_write_error_leaves_text_artifact_witness :
  let p := (Inbox, "c.flac") in
  let w' := exec (process_file json_unwritable dumps_sample hello_model p)
              inbox_c in
  is_Some (fs inbox_c !! p) /\
  run (is_file_ready json_unwritable p 1) (checking p inbox_c)
  = Return true /\
  fs w' !! (Failed, "c.flac") = Some (mkFile [x66; x4c] 50) /\
  fs w' !! (Output, "c.txt") = Some (mkFile (utf8 "hello world") 1007) /\
  fs w' !! (Output, "c.json") = Some (mkFile [] 1009).
Proof.
  cbv zeta.
  assert (H1 : is_Some (fs inbox_c !! (Inbox, "c.flac")))
    by (eexists; vm_compute; reflexivity).
  assert (H2 : run (is_file_ready json_unwritable (Inbox, "c.flac") 1)
                 (checking (Inbox, "c.flac") inbox_c) = Return true)
    by (vm_compute; reflexivity).
  split; [exact H1|]. split; [exact H2|].
  assert (H3 : fs (after_transcribe_file json_unwritable (Inbox, "c.flac")
                     (after_ready_check json_unwritable (Inbox, "c.flac") 1
                        (checking (Inbox, "c.flac") inbox_c)))
               !! (Inbox, "c.flac") = Some (mkFile [x66; x4c] 50))
    by (vm_compute; reflexivity).
  pose proof (json_write_error_leaves_text_artifact json_unwritable
                dumps_sample hello_model "c.flac" inbox_c hello
                (Output, "c.txt") (Output, "c.json")
                (Exn OSError "No space left on device") (Some 0%nat)
                (mkFile [x66; x4c] 50)
                eq_refl H1 H2 eq_refl eq_refl eq_refl eq_refl eq_refl eq_refl
                H3 eq_refl) as H.
  cbv zeta in H. destruct H as (_ & H4 & _ & _ & H5 & H6 & _).
  split; [exact H4|]. split; [rewrite H5; reflexivity|].
  rewrite H6. reflexivity.
Defined.

(** X5. When the source file is gone by the time the engine returns,
    [process_file] still writes both artifacts and then, the test
    [audio_path.exists()] answering [False], returns without any move:
    no entry but the two artifacts changes. *)
Theorem vanished_source_still_saved (E : Env) (dumps : JValue -> string)
    (model : Whisper) (nm : string) (w : World) (r : TResult)
    (txt json : Path) :
  let p := (Inbox, nm) in
  let w1 := after_ready_check E p 1 (checking p w) in
  let w2 := after_transcribe_file E p w1 in
  let w3 := after_save E dumps p r txt json w2 in
  exists_raises E (clock w) p = None ->
  is_Some (fs w !! p) ->
  run (is_file_ready E p 1) (checking p w) = Return true ->
  model (clock w1) p = Return r ->
  txt_path_of p = Return txt ->
  json_path_of p = Return json ->
  write_raises E (clock w2) txt = None ->
  write_raises E (S (S (clock w2))) json = None ->
  exists_raises E (clock w3) p = None ->
  fs w2 !! p = None ->
  process_file E dumps model p w = (Return tt, tick (EvExists p) w3) /\
  fs w3 !! txt = Some (txt_file E (clock w2) r) /\
  fs w3 !! json = Some (json_file E dumps (clock w2) p r) /\
  (forall q, q <> txt -> q <> json -> fs w3 !! q = fs w2 !! q) /\
  (forall q, In (parent q) queue_dirs -> fs w3 !! q = fs w2 !! q) /\
  List.filter is_move (new_events (process_file E dumps model p) w) = [].
Proof.
  intros p w1 w2 w3 Hp0 Hex Hready Hmodel Htxt Hjson Hw1 Hw2 Hp3 Hgone.
  assert (Hp : In (parent p) queue_dirs) by (cbn; auto).
  assert (Hqueue : forall q, In (parent q) queue_dirs ->
            fs w3 !! q = fs w2 !! q)
    by (apply saved_lookup_source; assumption).
  assert (Hf3 : fs w3 !! p = None) by (rewrite Hqueue; assumption).
  assert (Hrun : process_file E dumps model p w
                 = (Return tt, tick (EvExists p) w3)).
  { rewrite (process_file_ready _ _ _ _ _ Hp0 Hex Hready). fold w1.
    apply try_Return. unfold try_body.
    rewrite (bind_Return _ _ _ _ _ (transcribe_file_Return _ _ _ _ _ Hmodel)).
    fold w2.
    rewrite (bind_Return _ _ _ _ _
               (save_result_run _ dumps _ r _ _ _ Htxt Hjson Hw1 Hw2)).
    fold w3.
    rewrite (bind_Return _ _ _ _ _ (exists_None _ _ _ Hp3 Hf3)). reflexivity. }
  split; [exact Hrun|].
  split; [unfold w3; now apply (saved_lookup_txt E dumps p)|].
  split; [unfold w3; apply saved_lookup_json|].
  split.
  { intros q Hq1 Hq2. unfold w3, after_save. cbn [fs].
    rewrite !lookup_insert_ne by congruence. reflexivity. }
  split; [exact Hqueue|].
  unfold new_events, exec. rewrite Hrun. cbn [snd log tick].
  unfold w3. rewrite log_after_save. unfold w2.
  rewrite log_after_transcribe_file. unfold w1.
  rewrite log_after_ready_check, log_checking.
  rewrite <- !app_assoc, drop_app_length. reflexivity.
Qed.

Lemma vanished_source_still_saved_witness :
  let p := (Inbox, "c.flac") in
  let w' := exec (process_file snatcher dumps_sample hello_model p) inbox_c in
  is_Some (fs inbox_c !! p) /\
  run (is_file_ready snatcher p 1) (checking p inbox_c) = Return true /\
  fs w' !! (Output, "c.txt") = Some (mkFile (utf8 "hello world") 1007) /\
  fs w' !! (Done, "c.flac") = None /\
  fs w' !! (Failed, "c.flac") = None.
Proof.
  cbv zeta.
  assert (H1 : is_Some (fs inbox_c !! (Inbox, "c.flac")))
    by (eexists; vm_compute; reflexivity).
  assert (H2 : run (is_file_ready snatcher (Inbox, "c.flac") 1)
                 (checking (Inbox, "c.flac") inbox_c) = Return true)
    by (vm_compute; reflexivity).
  split; [exact H1|]. split; [exact H2|].
  assert (H3 : fs (after_transcribe_file snatcher (Inbox, "c.flac")
                     (after_ready_check snatcher (Inbox, "c.flac") 1
                        (checking (Inbox, "c.flac") inbox_c)))
               !! (Inbox, "c.flac") = None)
    by (vm_compute; reflexivity).
  pose proof (vanished_source_still_saved snatcher dumps_sample hello_model
                "c.flac" inbox_c hello (Output, "c.txt") (Output, "c.json")
                eq_refl H1 H2 eq_refl eq_refl eq_refl eq_refl eq_refl eq_refl
                H3) as H.
  cbv zeta in H. destruct H as (Hrun & H4 & _ & _ & H5 & _).
  unfold exec. rewrite Hrun. cbn [snd fs tick].
  split; [rewrite H4; reflexivity|].
  split; rewrite H5 by (cbn; auto); vm_compute; reflexivity.
Defined.

(** ** More on the scanner *)

Lemma only_looks_glob_all exts :
  keeps (appends (fun ev => is_look ev = true)) (glob_all exts).
Proof.
  induction exts as [|ext exts IH]; cbn [glob_all]; [apply appends_ret|].
  apply appends_bind.
  - unfold glob_ext. apply appends_bind; [apply appends_glob|]. intros ?.
    apply appends_bind; [apply appends_glob|]. intros ?. apply appends_ret.
  - intros ?. apply appends_bind; [apply IH|]. intros ?. apply appends_ret.
Qed.

Lemma only_looks_scan E exts :
  keeps (appends (fun ev => is_look ev = true)) (get_pending_files_over E exts).
Proof.
  unfold get_pending_files_over, candidates.
  apply appends_bind.
  - apply appends_bind; [apply only_looks_glob_all|]. intros files.
    induction files as [|f files IH]; cbn [filter_M]; [apply appends_ret|].
    apply appends_bind; [now apply appends_exists|]. intros ?.
    apply appends_bind; [apply IH|]. intros ?. apply appends_ret.
  - intros files. case_bool_decide as Hnil; [apply appends_ret|]. clear Hnil.
    apply appends_bind; [|intros; apply appends_ret].
    induction files as [|f files IH]; cbn [map_M]; [apply appends_ret|].
    apply appends_bind.
    + apply appends_bind; [now apply appends_stat|]. intros; apply appends_ret.
    + intros ?. apply appends_bind; [apply IH|]. intros; apply appends_ret.
Qed.

(** X6. The scan only looks: whether it returns or raises,
    [get_pending_files] leaves the file system as it is, and it prints
    nothing, calls no engine, writes nothing and moves nothing: beyond
    listing the inbox, all it does is ask whether a file exists and what
    its [stat] is. *)
Theorem scan_is_read_only (E : Env) (w : World) :
  fs (exec (get_pending_files E) w) = fs w /\
  Forall (fun ev => is_look ev = true) (new_events (get_pending_files E) w).
Proof.
  split; [apply fs_same_get_pending_files|].
  apply appends_new_events, only_looks_scan.
Qed.

(** X7. A scan that returns lists no file twice, and every file it lists is
    an entry of the inbox that was there when the scan ran. *)
Theorem scan_lists_each_file_once (E : Env) (w : World) (pending : list Path)
    (w' : World) :
  get_pending_files E w = (Return pending, w') ->
  List.NoDup pending /\
  (forall p, In p pending -> parent p = Inbox /\ is_Some (fs w !! p)).
Proof.
  intros Hrun.
  assert (Hnd : List.NoDup pending)
    by exact (get_pending_files_NoDup E AUDIO_EXTENSIONS eq_refl eq_refl
                w pending w' Hrun).
  split; [exact Hnd|].
  destruct (scan_inv E AUDIO_EXTENSIONS w pending w' eq_refl Hrun)
    as (_ & _ & _ & _ & _ & _ & Hin).
  intros p Hp. apply Hin in Hp. destruct Hp as (Hex & Hpar & _). auto.
Qed.

Lemma scan_lists_each_file_once_witness :
  exists pending w',
    get_pending_files calm inbox_ab = (Return pending, w') /\
    List.NoDup pending.
Proof.
  eexists _, _.
  assert (H : get_pending_files calm inbox_ab
              = (Return [(Inbox, "a.mp3"); (Inbox, "b.wav")],
                 exec (get_pending_files calm) inbox_ab))
    by (vm_compute; reflexivity).
  split; [exact H|].
  exact (proj1 (scan_lists_each_file_once calm inbox_ab _ _ H)).
Defined.






(** ** What can end the poll loop *)

Section Throws.
Variable R : exn -> World -> Prop.

Lemma throws_never {A} (m : M A) :
  (forall w, exists a w', m w = (Return a, w')) -> throws R m.
Proof. intros H w e w' Hr. destruct (H w) as (a & w1 & Ha). congruence. Qed.








End Throws.













(** ** What a visit of one job leaves alone *)

Section Frame.
Variable S : Path -> Prop.

Lemma unchanged_refl w : unchanged_outside S w w.
Proof. intros q _. reflexivity. Qed.

Lemma unchanged_trans w1 w2 w3 :
  unchanged_outside S w1 w2 -> unchanged_outside S w2 w3 ->
  unchanged_outside S w1 w3.
Proof. intros H12 H23 q Hq. now rewrite H23, H12. Qed.

Lemma unchanged_same {A} (m : M A) :
  fs_same m -> keeps (unchanged_outside S) m.
Proof. intros H w q _. now rewrite H. Qed.

Lemma unchanged_bind {A B} (m : M A) (k : A -> M B) :
  keeps (unchanged_outside S) m ->
  (forall a, keeps (unchanged_outside S) (k a)) ->
  keeps (unchanged_outside S) (bind m k).
Proof. apply keeps_bind, unchanged_trans. Qed.

Lemma unchanged_write E (q : Path) text :
  S q -> keeps (unchanged_outside S) (write_text E q text).
Proof.
  intros Hq w x Hx. unfold exec, write_text.
  destruct (write_raises E (clock w) q) as [[e [n|]]|]; cbn;
    [|reflexivity|]; apply lookup_insert_ne; intros ->; contradiction.
Qed.

Lemma unchanged_move E (src dst : Path) :
  S src -> S dst -> keeps (unchanged_outside S) (move E src dst).
Proof.
  intros Hsrc Hdst w x Hx. unfold exec, move.
  destruct (fs w !! src) as [f|]; cbn; [|reflexivity].
  destruct (move_raises E (clock w) src dst) as [[e r]|]; cbn.
  - destruct (left_behind r f _); cbn; [|reflexivity].
    apply lookup_insert_ne. intros ->. contradiction.
  - rewrite lookup_insert_ne by (intros ->; contradiction).
    apply lookup_delete_ne. intros ->. contradiction.
Qed.

Lemma post_lift {A} (o : outcome A) : post (lift o) (fun a => o = Return a).
Proof. intros w a w'. unfold lift. now intros [= -> _]. Qed.

Lemma unchanged_save_result E dumps (p : Path) r :
  (forall q, txt_path_of p = Return q -> S q) ->
  (forall q, json_path_of p = Return q -> S q) ->
  keeps (unchanged_outside S) (save_result E dumps p r).
Proof.
  intros Htxt Hjson. unfold save_result.
  eapply (keeps_bind_post (unchanged_outside S) unchanged_trans);
    [apply post_lift | apply unchanged_same, fs_same_lift |].
  intros txt Ht.
  apply unchanged_bind; [apply unchanged_write, Htxt, Ht|]. intros _.
  eapply (keeps_bind_post (unchanged_outside S) unchanged_trans);
    [apply post_lift | apply unchanged_same, fs_same_lift |].
  intros json Hj.
  apply unchanged_bind; [apply unchanged_same, fs_same_now_iso|].
  intros stamp.
  apply unchanged_bind; [apply unchanged_write, Hjson, Hj|]. intros _.
  apply unchanged_same, fs_same_print.
Qed.

Lemma unchanged_process_file E dumps model (p : Path) :
  quiet E ->
  S p -> S (DONE_DIR, name p) -> S (FAILED_DIR, name p) ->
  (forall q, txt_path_of p = Return q -> S q) ->
  (forall q, json_path_of p = Return q -> S q) ->
  keeps (unchanged_outside S) (process_file E dumps model p).
Proof.
  intros Hq Hp Hdone Hfailed Htxt Hjson. unfold process_file.
  apply unchanged_bind; [apply unchanged_same, fs_same_exists|].
  intros [|]; cbn [negb]; [|apply unchanged_same, fs_same_print].
  apply unchanged_bind; [apply unchanged_same, fs_same_print|]. intros _.
  apply unchanged_bind;
    [now apply unchanged_same, fs_same_is_file_ready|].
  intros [|]; cbn [negb]; [|apply unchanged_same, fs_same_print].
  apply (keeps_try (unchanged_outside S) unchanged_trans).
  - unfold try_body.
    apply unchanged_bind;
      [now apply unchanged_same, fs_same_transcribe_file|]. intros r.
    apply unchanged_bind; [now apply unchanged_save_result|]. intros _.
    apply unchanged_bind; [apply unchanged_same, fs_same_exists|].
    intros [|]; [|apply unchanged_same, fs_same_ret].
    apply unchanged_bind; [now apply unchanged_move|].
    intros _. apply unchanged_same, fs_same_print.
  - intros e. unfold on_error.
    apply unchanged_bind; [apply unchanged_same, fs_same_print|]. intros _.
    apply unchanged_bind; [apply unchanged_same, fs_same_exists|].
    intros [|]; [|apply unchanged_same, fs_same_ret].
    apply (keeps_try (unchanged_outside S) unchanged_trans).
    + apply unchanged_bind; [now apply unchanged_move|].
      intros _. apply unchanged_same, fs_same_print.
    + intros. apply unchanged_same, fs_same_print.
Qed.
End Frame.

Lemma own_process_file E dumps model nm :
  quiet E ->
  keeps (unchanged_outside (own (Inbox, nm)))
    (process_file E dumps model (Inbox, nm)).
Proof.
  intros Hq. apply unchanged_process_file; [exact Hq|..].
  - left. split; [cbn; auto|reflexivity].
  - left. split; [cbn; auto|reflexivity].
  - left. split; [cbn; auto|reflexivity].
  - intros q Hq'. right. now left.
  - intros q Hq'. right. now right.
Qed.

(** X10. In a quiet environment a visit of one job changes nothing but that
    job: every entry other than the file of that name in the queue
    directories and the two artifacts of the job is after
    [process_file] what it was before; in particular the source files of
    all other jobs are. *)
Theorem siblings_untouched (E : Env) (dumps : JValue -> string)
    (model : Whisper) (nm : string) (w : World) :
  quiet E ->
  (forall q, ~ own (Inbox, nm) q ->
     fs (exec (process_file E dumps model (Inbox, nm)) w) !! q = fs w !! q) /\
  (forall d nm', In d queue_dirs -> nm' <> nm ->
     fs (exec (process_file E dumps model (Inbox, nm)) w) !! (d, nm')
     = fs w !! (d, nm')).
Proof.
  intros Hq. pose proof (own_process_file E dumps model nm Hq w) as Hown.
  split; [exact Hown|].
  intros d nm' Hd Hnm. apply Hown.
  intros [[_ Hname]|[Hart|Hart]].
  - cbn in Hname. contradiction.
  - now apply with_suffix_artifact in Hart.
  - now apply with_suffix_artifact in Hart.
Qed.

Lemma siblings_untouched_witness :
  quiet calm /\
  fs (exec (process_file calm dumps_sample hello_model (Inbox, "a.mp3"))
        inbox_ab) !! (Inbox, "b.wav")
  = Some (mkFile [x52; x49] 200).
Proof.
  assert (H : quiet calm) by (intros t m; reflexivity).
  split; [exact H|].
  assert (H0 : fs inbox_ab !! (Inbox, "b.wav") = Some (mkFile [x52; x49] 200))
    by (vm_compute; reflexivity).
  rewrite <- H0.
  apply (proj2 (siblings_untouched calm dumps_sample hello_model "a.mp3"
                  inbox_ab H) Inbox "b.wav"); [cbn; auto|discriminate].
Defined.

(** ** A turn of the poll loop when the environment behaves *)










(** ** A job that can go nowhere *)

Lemma engine_calls_app p evs1 evs2 :
  engine_calls p (evs1 ++ evs2) = (engine_calls p evs1 + engine_calls p evs2)%nat.
Proof. unfold engine_calls. now rewrite List.filter_app, length_app. Qed.

Lemma calls_trans a b p w1 w2 w3 :
  calls a p w1 w2 -> calls b p w2 w3 -> calls (a + b) p w1 w3.
Proof.
  intros (e1 & H1 & C1) (e2 & H2 & C2). exists (e1 ++ e2)%list.
  split; [now rewrite H2, H1, app_assoc|].
  now rewrite engine_calls_app, C1, C2.
Qed.


Lemma calls_none (P : event -> Prop) p w w' :
  (forall ev, P ev -> is_call_on p ev = false) ->
  appends P w w' -> calls 0 p w w'.
Proof.
  intros HP (evs & Hlog & Hall). exists evs. split; [exact Hlog|].
  clear Hlog. unfold engine_calls.
  induction Hall as [|ev evs Hev _ IH]; [reflexivity|].
  cbn [List.filter]. now rewrite (HP ev Hev).
Qed.

Lemma calls_new_events {A} n p (m : M A) w :
  calls n p w (exec m w) -> engine_calls p (new_events m w) = n.
Proof.
  intros (evs & Hlog & Hn). unfold new_events.
  now rewrite Hlog, drop_app_length.
Qed.




Lemma same_outside_failed_fs w w' :
  fs w' = fs w -> same_outside_failed w w'.
Proof. intros H q _. now rewrite H. Qed.


Section Stuck.
Variables (E : Env) (dumps : JValue -> string) (model : Whisper).
Hypothesis Hquiet : quiet E.
Hypothesis Hprobe : forall t q, exists_raises E t q = None.
Hypothesis Hstat : forall t q, stat_raises E t q = None.
Hypothesis Hmodel : forall t q, exists e, model t q = Raise e.
Hypothesis Hmove :
  forall t src nm, exists e r, move_raises E t src (Failed, nm) = Some (e, r).





End Stuck.



(** ** Every job once *)

Lemma try_bind_Return {A B} (m : M A) (k : A -> M B) catches
    (h : exn -> M B) w a w' :
  m w = (Return a, w') ->
  try_except (bind m k) catches h w = try_except (k a) catches h w'.
Proof. intros H. unfold try_except, bind. now rewrite H. Qed.

Section NoCall.
Variable p : Path.

Lemma no_call_print line : keeps (appends (no_call p)) (print line).
Proof. intros w. now apply (appends_event (no_call p) (EvPrint line)). Qed.

Lemma no_call_write E q text : keeps (appends (no_call p)) (write_text E q text).
Proof.
  intros w. apply (appends_event (no_call p) (EvWrite q text)); [reflexivity|].
  apply write_log.
Qed.

Lemma no_call_move E src dst : keeps (appends (no_call p)) (move E src dst).
Proof.
  intros w. apply (appends_event (no_call p) (EvMove src dst)); [reflexivity|].
  apply move_log.
Qed.

Lemma no_call_save_result E dumps q r :
  keeps (appends (no_call p)) (save_result E dumps q r).
Proof.
  unfold save_result.
  apply appends_bind; [intros w; apply appends_refl|]. intros txt.
  apply appends_bind; [apply no_call_write|]. intros _.
  apply appends_bind; [intros w; apply appends_refl|]. intros json.
  apply appends_bind;
    [intros w; now apply (appends_event (no_call p) EvNow)|]. intros stamp.
  apply appends_bind; [apply no_call_write|]. intros _.
  apply no_call_print.
Qed.

Lemma no_call_on_error E q e : keeps (appends (no_call p)) (on_error E q e).
Proof.
  unfold on_error.
  apply appends_bind; [apply no_call_print|]. intros _.
  apply appends_bind; [now apply appends_exists|].
  intros [|]; [|apply appends_ret].
  apply (keeps_try (appends (no_call p)) (appends_trans (no_call p))).
  - apply appends_bind; [apply no_call_move|]. intros _. apply no_call_print.
  - intros. apply no_call_print.
Qed.

(** A visit that enters the [try] statement calls the engine once. *)
Lemma ready_visit_calls E dumps model (q : Path) w :
  exists_raises E (clock w) q = None ->
  is_Some (fs w !! q) ->
  run (is_file_ready E q 1) (checking q w) = Return true ->
  calls (if bool_decide (q = p) then 1 else 0) p w
    (exec (process_file E dumps model q) w).
Proof.
  intros Hp0 Hex Hready. unfold exec.
  rewrite (process_file_ready _ _ _ _ _ Hp0 Hex Hready).
  set (w1 := after_ready_check E q 1 (checking q w)).
  assert (H01 : calls 0 p w w1).
  { exists [EvExists q; EvPrint ("  Checking: " ++ name q);
            EvExists q; EvStat q; EvSleep 1; EvExists q; EvStat q].
    split; [|reflexivity].
    unfold w1. rewrite log_after_ready_check, log_checking.
    now rewrite <- !app_assoc. }
  assert (H12 : calls (if bool_decide (q = p) then 1 else 0) p w1
                  (after_engine E q w1)).
  { exists [EvPrint ("  Transcribing: " ++ name q); EvTranscribe q].
    split.
    - unfold after_engine, emit, tick, set_fs. cbn [log].
      now rewrite <- !app_assoc.
    - unfold engine_calls. cbn. now destruct (bool_decide (q = p)). }
  assert (Hzero : forall P w2 w3, (no_call p) = P -> appends P w2 w3 ->
            calls 0 p w2 w3).
  { intros P w2 w3 <-. apply calls_none. auto. }
  destruct (model (clock w1) q) as [r|e] eqn:Hmodel.
  - unfold try_body.
    rewrite (try_bind_Return _ _ _ _ _ _ _
               (transcribe_file_Return E model q w1 r Hmodel)).
    assert (H23 : calls 0 p (after_engine E q w1)
                    (after_transcribe_file E q w1)).
    { exists [EvPrint ("  Completed in " ++ elapsed_1f E (clock w1) ++ "s")].
      split; reflexivity. }
    assert (H34 : appends (no_call p) (after_transcribe_file E q w1)
                    (snd (try_except
                       (save_result E dumps q r >>
                        let* present := exists_ E q in
                        if present then
                          move E q (DONE_DIR, name q) >>
                          print "  Moved to done/"
                        else ret tt)
                       is_Exception (on_error E q)
                       (after_transcribe_file E q w1)))).
    { apply (keeps_try (appends (no_call p)) (appends_trans (no_call p))).
      - apply appends_bind; [apply no_call_save_result|]. intros _.
        apply appends_bind; [now apply appends_exists|].
        intros [|]; [|apply appends_ret].
        apply appends_bind; [apply no_call_move|]. intros _.
        apply no_call_print.
      - intros. apply no_call_on_error. }
    apply (Hzero _ _ _ eq_refl) in H34.
    pose proof (calls_trans _ _ p _ _ _ H01
                  (calls_trans _ _ p _ _ _ H12
                     (calls_trans _ _ p _ _ _ H23 H34))) as H.
    cbn [Nat.add] in H. now rewrite Nat.add_0_r in H.
  - assert (Hbody : try_body E dumps model q w1
                    = (Raise e, after_engine E q w1))
      by (unfold try_body; apply bind_Raise, transcribe_file_Raise, Hmodel).
    rewrite (try_Raise _ _ _ _ _ _ Hbody eq_refl).
    pose proof (no_call_on_error E q e (after_engine E q w1)) as H23.
    apply (Hzero _ _ _ eq_refl) in H23.
    pose proof (calls_trans _ _ p _ _ _ H01
                  (calls_trans _ _ p _ _ _ H12 H23)) as H.
    cbn [Nat.add] in H. now rewrite Nat.add_0_r in H.
Qed.
End NoCall.






(** X14. When transcription and both writes succeed, the move into [done/]
    raises and the move into [failed/] raises as well, [process_file]
    returns with the source file still in the inbox and both artifacts
    written; [done/] and [failed/] hold what the failed moves left there,
    a copy of the file, whole or partial, or else what they held before,
    and no other entry has changed; it has tried each move once and the
    last line it prints reports the second failure. *)
Theorem both_moves_fail_job_stays (E : Env) (dumps : JValue -> string)
    (model : Whisper) (nm : string) (w : World) (r : TResult)
    (txt json : Path) (e move_err : exn) (res res' : residue) (f : File) :
  let p := (Inbox, nm) in
  let w1 := after_ready_check E p 1 (checking p w) in
  let w2 := after_transcribe_file E p w1 in
  let w3 := after_save E dumps p r txt json w2 in
  exists_raises E (clock w) p = None ->
  is_Some (fs w !! p) ->
  run (is_file_ready E p 1) (checking p w) = Return true ->
  model (clock w1) p = Return r ->
  txt_path_of p = Return txt ->
  json_path_of p = Return json ->
  write_raises E (clock w2) txt = None ->
  write_raises E (S (S (clock w2))) json = None ->
  exists_raises E (clock w3) p = None ->
  fs w2 !! p = Some f ->
  move_raises E (S (clock w3)) p (Done, nm) = Some (e, res) ->
  exists_raises E (S (S (clock w3))) p = None ->
  move_raises E (S (S (S (clock w3)))) p (Failed, nm) = Some (move_err, res') ->
  let w' := exec (process_file E dumps model p) w in
  run (process_file E dumps model p) w = Return tt /\
  fs w' !! p = Some f /\
  fs w' !! txt = Some (txt_file E (clock w2) r) /\
  fs w' !! json = Some (json_file E dumps (clock w2) p r) /\
  fs w' !! (Done, nm)
  = match left_behind res f (wall_clock E (S (clock w3))) with
    | Some copy => Some copy
    | None => fs w2 !! (Done, nm)
    end /\
  fs w' !! (Failed, nm)
  = match left_behind res' f (wall_clock E (S (S (S (clock w3))))) with
    | Some copy => Some copy
    | None => fs w2 !! (Failed, nm)
    end /\
  (forall q, q <> (Done, nm) -> q <> (Failed, nm) ->
     fs w' !! q = fs w3 !! q) /\
  List.filter is_move (new_events (process_file E dumps model p) w)
  = [EvMove p (Done, nm); EvMove p (Failed, nm)] /\
  last (log w')
  = Some (EvPrint ("  Could not move to failed/: " ++ str_of move_err)).
Proof.
  intros p w1 w2 w3 Hp0 Hex Hready Hmodel Htxt Hjson Hw1 Hw2 Hp3 Hf Hdone
    Hp4 Hfailed w'.
  assert (Hq : In (parent p) queue_dirs) by (cbn; auto).
  pose proof (with_suffix_artifact _ _ _ Htxt) as Ptxt.
  pose proof (with_suffix_artifact _ _ _ Hjson) as Pjson.
  set (g := left_behind res f (wall_clock E (S (clock w3)))).
  set (g' := left_behind res' f (wall_clock E (S (S (S (clock w3)))))).
  set (w4 := blocked_move p (DONE_DIR, name p) g (tick (EvExists p) w3)).
  pose proof (try_body_blocked E dumps model p w1 r txt json f e res Hq
                Hmodel Htxt Hjson Hw1 Hw2 Hp3 Hf Hdone) as Hbody.
  fold w2 w3 g w4 in Hbody.
  assert (Hsrc : forall q, In (parent q) queue_dirs ->
            fs w3 !! q = fs w2 !! q)
    by (apply saved_lookup_source; assumption).
  assert (Hf4 : fs w4 !! p = Some f).
  { unfold w4. rewrite blocked_move_lookup by discriminate.
    cbn [fs tick]. now rewrite Hsrc. }
  assert (Hc4 : clock w4 = S (S (clock w3)))
    by (unfold w4; now rewrite blocked_move_clock).
  assert (Hrun : process_file E dumps model p w
                 = (Return tt, stuck_in_inbox p e move_err g' w4)).
  { rewrite (process_file_ready _ _ _ _ _ Hp0 Hex Hready). fold w1.
    rewrite (try_Raise _ _ _ _ _ _ Hbody eq_refl).
    unfold g'. rewrite <- Hc4.
    apply (on_error_stuck E p e w4 f move_err res');
      [now rewrite Hc4|exact Hf4|now rewrite Hc4]. }
  assert (Hw' : w' = stuck_in_inbox p e move_err g' w4)
    by (unfold w', exec; now rewrite Hrun).
  assert (Hother : forall q, q <> (Done, nm) -> q <> (Failed, nm) ->
            fs w' !! q = fs w3 !! q).
  { intros q Hq1 Hq2. rewrite Hw'. unfold stuck_in_inbox. cbn [fs emit].
    rewrite blocked_move_lookup by exact Hq2.
    unfold on_error_probed. cbn [fs tick emit]. unfold w4.
    now rewrite blocked_move_lookup. }
  split; [unfold run; now rewrite Hrun|].
  split.
  { rewrite Hother by discriminate. now rewrite Hsrc. }
  split.
  { rewrite Hother by (intros ->; apply Ptxt; cbn; auto).
    unfold w3. now apply (saved_lookup_txt E dumps p). }
  split.
  { rewrite Hother by (intros ->; apply Pjson; cbn; auto).
    unfold w3. apply saved_lookup_json. }
  split.
  { rewrite Hw'. unfold stuck_in_inbox. cbn [fs emit].
    rewrite blocked_move_lookup by discriminate.
    unfold on_error_probed. cbn [fs tick emit]. unfold w4.
    rewrite blocked_move_fs. cbn [fs tick]. destruct g as [copy|].
    - apply lookup_insert_eq.
    - apply Hsrc. cbn. auto. }
  split.
  { rewrite Hw'. unfold stuck_in_inbox. cbn [fs emit].
    rewrite blocked_move_fs. destruct g' as [copy|].
    - apply lookup_insert_eq.
    - unfold on_error_probed. cbn [fs tick emit]. unfold w4.
      rewrite blocked_move_lookup by discriminate.
      cbn [fs tick]. apply Hsrc. cbn. auto. }
  split; [exact Hother|].
  split.
  - apply (f_equal (List.filter is_move)
             (new_events_log (process_file E dumps model p) w _
                ltac:(fold w'; rewrite Hw', log_stuck_in_inbox; unfold w4;
                      rewrite blocked_move_log; cbn [log tick]; unfold w3;
                      rewrite log_after_save; unfold w2;
                      rewrite log_after_transcribe_file; unfold w1;
                      rewrite log_after_ready_check, log_checking,
                        <- !app_assoc; reflexivity))).
  - rewrite Hw'. unfold stuck_in_inbox. cbn [log emit]. apply last_snoc.
Qed.

Lemma both_moves_fail_job_stays_witness :
  let p := (Inbox, "c.flac") in
  let w' := exec (process_file frozen dumps_sample hello_model p) inbox_c in
  is_Some (fs inbox_c !! p) /\
  run (is_file_ready frozen p 1) (checking p inbox_c) = Return true /\
  fs w' !! p = Some (mkFile [x66; x4c] 50) /\
  fs w' !! (Output, "c.txt") = Some (mkFile (utf8 "hello world") 1007) /\
  is_Some (fs w' !! (Output, "c.json")).
Proof.
  cbv zeta.
  assert (H1 : is_Some (fs inbox_c !! (Inbox, "c.flac")))
    by (eexists; vm_compute; reflexivity).
  assert (H2 : run (is_file_ready frozen (Inbox, "c.flac") 1)
                 (checking (Inbox, "c.flac") inbox_c) = Return true)
    by (vm_compute; reflexivity).
  split; [exact H1|]. split; [exact H2|].
  assert (H3 : fs (after_transcribe_file frozen (Inbox, "c.flac")
                     (after_ready_check frozen (Inbox, "c.flac") 1
                        (checking (Inbox, "c.flac") inbox_c)))
               !! (Inbox, "c.flac") = Some (mkFile [x66; x4c] 50))
    by (vm_compute; reflexivity).
  pose proof (both_moves_fail_job_stays frozen dumps_sample hello_model
                "c.flac" inbox_c hello (Output, "c.txt") (Output, "c.json")
                (Exn OSError "Read-only file system")
                (Exn OSError "Read-only file system") Nothing Nothing
                (mkFile [x66; x4c] 50)
                eq_refl H1 H2 eq_refl eq_refl eq_refl eq_refl eq_refl eq_refl
                H3 eq_refl eq_refl eq_refl) as H.
  cbv zeta in H. destruct H as (_ & H4 & H5 & H6 & _).
  split; [exact H4|]. split; [rewrite H5; reflexivity|].
  eexists. exact H6.
Defined.

(** ** When the engine is called *)

Lemma process_file_absent E dumps model (q : Path) w :
  exists_raises E (clock w) q = None ->
  fs w !! q = None ->
  process_file E dumps model q w
  = (Return tt,
     emit (EvPrint ("  SKIP: " ++ name q ++ " no longer exists"))
       (tick (EvExists q) w)).
Proof.
  intros Hp Hf. unfold process_file.
  rewrite (bind_Return _ _ _ _ _ (exists_None _ _ _ Hp Hf)). reflexivity.
Qed.

(** A visit of one job never calls the engine on another. *)
Lemma no_call_process_file E dumps model (p q : Path) :
  p <> q -> keeps (appends (no_call p)) (process_file E dumps model q).
Proof.
  intros Hpq.
  pose proof (appends_trans (no_call p)) as Htrans.
  unfold process_file.
  apply appends_bind; [now apply appends_exists|]. intros [|]; cbn [negb].
  2: apply no_call_print.
  apply appends_bind; [apply no_call_print|]. intros _.
  apply appends_bind.
  { unfold is_file_ready.
    apply appends_bind; [now apply appends_exists|]. intros [|]; cbn [negb].
    2: apply appends_ret.
    apply (keeps_try (appends (no_call p)) Htrans);
      [|intros; apply appends_ret].
    apply appends_bind; [now apply appends_stat|]. intros st.
    apply appends_bind.
    { intros w. destruct (sleep_log E 1 w) as [H|H].
      - now apply (appends_event (no_call p) (EvSleep 1)).
      - exists []. split; [now rewrite app_nil_r|constructor]. }
    intros _.
    apply appends_bind; [now apply appends_exists|]. intros [|]; cbn [negb].
    2: apply appends_ret.
    apply appends_bind; [now apply appends_stat|]. intros; apply appends_ret. }
  intros [|]; cbn [negb].
  2: apply no_call_print.
  apply (keeps_try (appends (no_call p)) Htrans);
    [|intros; apply no_call_on_error].
  unfold try_body.
  apply appends_bind.
  { unfold transcribe_file.
    apply appends_bind; [apply no_call_print|]. intros _.
    apply appends_bind; [intros w; apply appends_refl|]. intros start.
    apply appends_bind.
    { intros w. apply (appends_event (no_call p) (EvTranscribe q));
        [|reflexivity].
      unfold no_call. cbn. apply bool_decide_eq_false_2. congruence. }
    intros r. apply appends_bind; [apply no_call_print|]. intros _.
    apply appends_ret. }
  intros r.
  apply appends_bind; [apply no_call_save_result|]. intros _.
  apply appends_bind; [now apply appends_exists|].
  intros [|]; [|apply appends_ret].
  apply appends_bind; [apply no_call_move|]. intros _. apply no_call_print.
Qed.

(** X15. The engine is called on a job exactly when its file is there and
    passes the readiness check.  A visit of a missing file looks for it,
    prints one line and does nothing else; a visit of a file that is not
    ready has no effect and does not call the engine; a visit of a ready
    file calls the engine once on it; and no visit calls the engine on
    another file. *)
Theorem engine_called_iff_ready (E : Env) (dumps : JValue -> string)
    (model : Whisper) (q : Path) (w : World) :
  let visit := process_file E dumps model q in
  (exists_raises E (clock w) q = None ->
   fs w !! q = None ->
   new_events visit w
   = [EvExists q; EvPrint ("  SKIP: " ++ name q ++ " no longer exists")]) /\
  (is_Some (fs w !! q) ->
   run (is_file_ready E q 1) (checking q w) = Return false ->
   engine_calls q (new_events visit w) = 0%nat /\
   Forall (fun ev => is_effect ev = false) (new_events visit w)) /\
  (exists_raises E (clock w) q = None ->
   is_Some (fs w !! q) ->
   run (is_file_ready E q 1) (checking q w) = Return true ->
   engine_calls q (new_events visit w) = 1%nat) /\
  (forall p, p <> q -> engine_calls p (new_events visit w) = 0%nat).
Proof.
  cbv zeta. split; [|split; [|split]].
  - intros Hp Hf. apply new_events_log. unfold exec.
    rewrite (process_file_absent _ _ _ _ _ Hp Hf). cbn [snd emit tick log].
    now rewrite <- app_assoc.
  - intros Hex Hready.
    assert (Hnot : run (is_file_ready E q 1) (checking q w) <> Return true)
      by (rewrite Hready; discriminate).
    pose proof (not_ready_harmless E dumps model q w Hnot) as Hh.
    split; [|now apply new_events_harmless].
    apply calls_new_events.
    apply (calls_none (fun ev => is_effect ev = false)); [|exact Hh].
    intros [] Hev; try discriminate; reflexivity.
  - intros Hp Hex Hready. apply calls_new_events.
    pose proof (ready_visit_calls q E dumps model q w Hp Hex Hready) as H.
    now rewrite bool_decide_eq_true_2 in H by reflexivity.
  - intros p Hp. apply calls_new_events.
    apply (calls_none (no_call p)); [auto|].
    now apply no_call_process_file.
Qed.

(** ** The artifacts of a name with one dot *)

(** X16. For a job whose stem is not a single dot and has no suffix of
    its own (no further dot inside it) and when both writes succeed, [save_result] returns and writes [output/<stem>.txt], the
    encoded trimmed text, and [output/<stem>.json], the encoded dump of the
    record of text, language or null, segments or the empty list, source
    file name and the time read between the two writes; whatever was at
    these two paths is replaced, every other entry is unchanged, and the
    events are the two writes, the reading of the time between them, and
    the line printed at the end. *)
Theorem plain_name_artifacts (E : Env) (dumps : JValue -> string)
    (p : Path) (r : TResult) (w : World) :
  let txt := (Output, stem p ++ ".txt") in
  let json := (Output, stem p ++ ".json") in
  let record :=
    JObj [("text", JStr (r_text r));
          ("language",
           match r_language r with Some l => JStr l | None => JNull end);
          ("segments",
           JArr (match r_segments r with Some l => l | None => [] end));
          ("source_file", JStr (name p));
          ("processed_at", JStr (now_isoformat E (S (clock w))))] in
  stem p <> "." ->
  is_empty (stem p) = false ->
  suffix (stem p) = "" ->
  write_raises E (clock w) txt = None ->
  write_raises E (S (S (clock w))) json = None ->
  let w' := exec (save_result E dumps p r) w in
  run (save_result E dumps p r) w = Return tt /\
  fs w' !! txt
  = Some (mkFile (utf8 (strip (r_text r))) (wall_clock E (clock w))) /\
  fs w' !! json
  = Some (mkFile (utf8 (dumps record)) (wall_clock E (S (S (clock w))))) /\
  (forall q, q <> txt -> q <> json -> fs w' !! q = fs w !! q) /\
  new_events (save_result E dumps p r) w
  = [EvWrite txt (strip (r_text r)); EvNow; EvWrite json (dumps record);
     EvPrint ("  Saved: " ++ name txt ++ ", " ++ name json)].
Proof.
  intros txt json record Hdot Hne Hsfx Hw1 Hw2 w'.
  destruct (artifact_names p Hdot Hne Hsfx) as [Htxt Hjson].
  pose proof (save_result_run E dumps p r w txt json Htxt Hjson Hw1 Hw2)
    as Hrun.
  unfold new_events. subst w'. unfold run, exec. rewrite Hrun. cbn [fst snd].
  split; [reflexivity|]. unfold after_save. cbn [fs log].
  split.
  { rewrite lookup_insert_ne by (intros [= H]; apply append_cancel_l in H;
                                 discriminate).
    apply lookup_insert_eq. }
  split; [apply lookup_insert_eq|].
  split.
  { intros q Hq1 Hq2. now rewrite !lookup_insert_ne by congruence. }
  rewrite drop_app_length. reflexivity.
Qed.

Lemma plain_name_artifacts_witness :
  let p := (Inbox, "c.flac") in
  let w' := exec (save_result calm dumps_sample p hello) inbox_c in
  stem p <> "." /\
  is_empty (stem p) = false /\
  suffix (stem p) = "" /\
  fs w' !! (Output, "c.txt") = Some (mkFile (utf8 "hello world") 1000) /\
  is_Some (fs w' !! (Output, "c.json")) /\
  fs w' !! p = fs inbox_c !! p.
Proof.
  cbv zeta.
  assert (Hdot : stem (Inbox, "c.flac") <> ".") by discriminate.
  split; [exact Hdot|]. split; [reflexivity|]. split; [reflexivity|].
  pose proof (plain_name_artifacts calm dumps_sample (Inbox, "c.flac") hello
                inbox_c Hdot eq_refl eq_refl eq_refl eq_refl) as H.
  cbv zeta in H. destruct H as (_ & H1 & H2 & H3 & _).
  split; [exact H1|]. split; [eexists; exact H2|].
  apply H3; discriminate.
Defined.

(** X17. The text artifact is the transcript without the white space around
    it: when [save_result] returns, the bytes of the text artifact encode a
    text that neither starts nor ends with a white-space character and from
    which the transcript differs only by white space before and after. *)
Theorem text_artifact_is_trimmed (E : Env) (dumps : JValue -> string)
    (p : Path) (r : TResult) (w : World) :
  run (save_result E dumps p r) w = Return tt ->
  exists txt body lead trail,
    txt_path_of p = Return txt /\
    data <$> fs (exec (save_result E dumps p r) w) !! txt
    = Some (utf8 body) /\
    r_text r = lead ++ body ++ trail /\
    all_space lead = true /\ all_space trail = true /\
    starts_with_space body = false /\ ends_with_space body = false.
Proof.
  intros Hrun.
  destruct (save_result_txt _ _ _ _ _ Hrun) as (txt & Htxt & Hfile).
  destruct (strip_trimmed (r_text r))
    as (lead & trail & Hsplit & Hlead & Htrail & Hfirst & Hlast).
  exists txt, (strip (r_text r)), lead, trail.
  split; [exact Htxt|]. split; [now rewrite Hfile|]. auto.
Qed.

Lemma text_artifact_is_trimmed_witness :
  run (save_result calm dumps_sample (Inbox, "c.flac") hello) inbox_c
  = Return tt /\
  exists txt body lead trail,
    txt_path_of (Inbox, "c.flac") = Return txt /\
    data <$> fs (exec (save_result calm dumps_sample (Inbox, "c.flac") hello)
                   inbox_c) !! txt
    = Some (utf8 body) /\
    r_text hello = lead ++ body ++ trail /\
    starts_with_space body = false /\ ends_with_space body = false.
Proof.
  assert (H : run (save_result calm dumps_sample (Inbox, "c.flac") hello)
                inbox_c = Return tt) by reflexivity.
  split; [exact H|].
  destruct (text_artifact_is_trimmed calm dumps_sample (Inbox, "c.flac") hello
              inbox_c H)
    as (txt & body & lead & trail & H1 & H2 & H3 & _ & _ & H4 & H5).
  exists txt, body, lead, trail. auto.
Defined.

(** * The producer *)

Section EnqueueFacts.
Variable E : Env.
Variable sources : string -> option Node.
Variable path_name : string -> string.
Variable path_str : string -> string.
Variable copy_raises : nat -> string -> Path -> option (exn * residue).

Lemma enqueue_files_loop (file_paths : list string) :
  enqueue_files E sources path_name path_str copy_raises file_paths
  = for_each file_paths (enqueue_one E sources path_name path_str copy_raises).
Proof. reflexivity. Qed.

Lemma copy2_Return src dest w f :
  sources src = Some (Regular f) ->
  copy_raises (clock w) src dest = None ->
  copy2 E sources copy_raises src dest w
  = (Return tt, copied dest (Some f) w).
Proof. intros Hs Hc. unfold copy2. now rewrite Hs, Hc. Qed.

Lemma copy2_Raise src dest w f e r :
  sources src = Some (Regular f) ->
  copy_raises (clock w) src dest = Some (e, r) ->
  copy2 E sources copy_raises src dest w
  = (Raise e, copied dest (left_behind r f (wall_clock E (clock w))) w).
Proof.
  intros Hs Hc. unfold copy2. rewrite Hs, Hc.
  now destruct (left_behind r f _).
Qed.

(** The ways through the body of the loop. *)
Lemma enqueue_one_cases (src : string) w :
  let dest := (Inbox, path_name src) in
  let step := enqueue_one E sources path_name path_str copy_raises src in
  let w0 := tick (EvExists dest) w in
  (exists w', step w = (Return tt, w') /\ fs w' = fs w /\
     match sources src with
     | Some (Regular _) => is_Some (fs w !! dest)
     | _ => True
     end) \/
  (exists f msg, sources src = Some (Regular f) /\
     exists_raises E (clock w) dest = Some msg /\
     step w = (Raise (Exn OSError msg), w0)) \/
  (exists f, sources src = Some (Regular f) /\
     exists_raises E (clock w) dest = None /\ fs w !! dest = None /\
     copy_raises (S (clock w)) src dest = None /\
     step w
     = (Return tt,
        emit (EvPrint ("Queued: " ++ path_name src))
          (copied dest (Some f) w0))) \/
  (exists f e r, sources src = Some (Regular f) /\
     exists_raises E (clock w) dest = None /\ fs w !! dest = None /\
     copy_raises (S (clock w)) src dest = Some (e, r) /\
     step w
     = (Raise e,
        copied dest (left_behind r f (wall_clock E (S (clock w)))) w0)).
Proof.
  cbv zeta. unfold enqueue_one, INBOX_DIR.
  assert (H1 : src_exists sources src w
               = (Return (bool_decide (is_Some (sources src))), w))
    by reflexivity.
  assert (H2 : src_is_file sources src w
               = (Return match sources src with
                         | Some (Regular _) => true
                         | _ => false
                         end, w))
    by reflexivity.
  rewrite (bind_Return _ _ _ _ _ H1).
  destruct (sources src) as [[f|]|] eqn:Hsrc;
    cbn [bool_decide decide_rel is_Some_dec negb].
  2:{ left. rewrite (bind_Return _ _ _ _ _ H2). cbn [negb].
      eexists. split; [reflexivity|]. split; [reflexivity|exact I]. }
  2:{ left. eexists. split; [reflexivity|]. split; [reflexivity|exact I]. }
  rewrite (bind_Return _ _ _ _ _ H2). cbn [negb]. clear H1 H2.
  destruct (exists_raises E (clock w) (Inbox, path_name src)) as [msg|]
    eqn:Hprobe.
  { right. left. exists f, msg. split; [reflexivity|]. split; [reflexivity|].
    apply bind_Raise. now apply exists_Raise. }
  rewrite (bind_Return _ _ _ _ _ (exists_Return E _ w Hprobe)).
  destruct (fs w !! (Inbox, path_name src)) as [g|] eqn:Hdest;
    cbn [bool_decide decide_rel is_Some_dec].
  { left. eexists. split; [reflexivity|]. split; [reflexivity|]. eauto. }
  right. right.
  destruct (copy_raises (S (clock w)) src (Inbox, path_name src)) as [[e r]|]
    eqn:Hcopy.
  - right. exists f, e, r. repeat (split; [reflexivity|]).
    apply bind_Raise.
    exact (copy2_Raise src _ (tick (EvExists _) w) f e r Hsrc Hcopy).
  - left. exists f. repeat (split; [reflexivity|]).
    rewrite (bind_Return _ _ _ _ _
               (copy2_Return src _ (tick (EvExists _) w) f Hsrc Hcopy)).
    reflexivity.
Qed.

Lemma only_adds_refl w : only_adds w w.
Proof. split; [reflexivity|auto]. Qed.

Lemma only_adds_trans w1 w2 w3 :
  only_adds w1 w2 -> only_adds w2 w3 -> only_adds w1 w3.
Proof.
  intros [S12 F12] [S23 F23]. split; [now transitivity (fs w2)|].
  intros q Hq. now rewrite F23, F12.
Qed.

Lemma only_adds_copied (dest : Path) g w w0 :
  parent dest = Inbox -> fs w0 = fs w -> fs w !! dest = None ->
  only_adds w (copied dest g w0).
Proof.
  intros Hpar Hfs Hdest. unfold copied. destruct g as [g|]; cbn.
  - split; cbn [fs]; rewrite Hfs.
    + now apply insert_subseteq.
    + intros q Hq. apply lookup_insert_ne. intros <-. now apply Hq.
  - split; cbn [fs]; rewrite Hfs; [reflexivity|auto].
Qed.

Lemma only_adds_enqueue_one src :
  keeps only_adds (enqueue_one E sources path_name path_str copy_raises src).
Proof.
  intros w. unfold exec.
  destruct (enqueue_one_cases src w)
    as [(w' & -> & Hfs & _)
       |[(f & msg & _ & _ & ->)
        |[(f & _ & _ & Hdest & _ & ->)|(f & e & r & _ & _ & Hdest & _ & ->)]]];
    cbn [snd].
  - split; rewrite Hfs; [reflexivity|auto].
  - split; [reflexivity|auto].
  - now apply (only_adds_copied _ (Some f) w).
  - now apply only_adds_copied.
Qed.

Lemma only_adds_enqueue_files file_paths :
  keeps only_adds
    (enqueue_files E sources path_name path_str copy_raises file_paths).
Proof.
  rewrite enqueue_files_loop.
  apply (keeps_for_each only_adds only_adds_refl only_adds_trans).
  intros src _. apply only_adds_enqueue_one.
Qed.

Lemma left_behind_copy_of r f now g :
  left_behind r f now = Some g -> copy_of f g.
Proof.
  destruct r as [|n|]; cbn; [discriminate| |].
  - intros [= <-]. right. now exists n, now.
  - intros [= <-]. now left.
Qed.

(** X18. The producer only adds to the inbox, also when it ends with an
    error: every entry of the queue is after [enqueue_files] what it was
    before, nothing changes outside the inbox, and an inbox entry that is
    new holds a copy of one of the arguments, a regular file of that name:
    the file with its modification time or, when the copy failed, its
    first bytes. *)
Theorem enqueue_never_overwrites (file_paths : list string) (w : World) :
  let w' :=
    exec (enqueue_files E sources path_name path_str copy_raises file_paths)
      w in
  (forall q f, fs w !! q = Some f -> fs w' !! q = Some f) /\
  (forall q, parent q <> Inbox -> fs w' !! q = fs w !! q) /\
  (forall nm f, fs w !! (Inbox, nm) = None -> fs w' !! (Inbox, nm) = Some f ->
     exists src f0, In src file_paths /\ path_name src = nm /\
       sources src = Some (Regular f0) /\ copy_of f0 f).
Proof.
  cbv zeta.
  destruct (only_adds_enqueue_files file_paths w) as [Hsub Hframe].
  split; [intros q f Hf; exact (lookup_weaken _ _ _ _ Hf Hsub)|].
  split; [exact Hframe|].
  clear Hsub Hframe. revert w.
  induction file_paths as [|src rest IH]; intros w nm f Hnone Hsome.
  - cbn in Hsome. congruence.
  - rewrite enqueue_files_loop in Hsome. cbn [for_each] in Hsome.
    unfold exec, bind in Hsome.
    destruct (enqueue_one_cases src w)
      as [(w1 & Hrun & Hfs & _)
         |[(g & msg & _ & _ & Hrun)
          |[(g & Hsrc & _ & Hdest & _ & Hrun)
           |(g & e & r & Hsrc & _ & Hdest & _ & Hrun)]]];
      rewrite Hrun in Hsome.
    + destruct (IH w1 nm f) as (s & f0 & Hin & Hs);
        [now rewrite Hfs|exact Hsome|].
      exists s, f0. split; [now right|exact Hs].
    + cbn [snd fs tick] in Hsome. congruence.
    + destruct (decide (path_name src = nm)) as [Heq|Hne].
      * exists src, g. split; [now left|]. split; [exact Heq|].
        split; [exact Hsrc|]. subst nm.
        set (w1 := emit (EvPrint ("Queued: " ++ path_name src))
                     (copied (Inbox, path_name src) (Some g)
                        (tick (EvExists (Inbox, path_name src)) w))) in *.
        assert (Hg : fs w1 !! (Inbox, path_name src) = Some g)
          by apply lookup_insert_eq.
        destruct (only_adds_enqueue_files rest w1) as [Hsub _].
        pose proof (lookup_weaken _ _ _ _ Hg Hsub) as Hg'.
        rewrite enqueue_files_loop in Hg'. unfold exec in Hg'.
        left. congruence.
      * match type of Hsome with
        | fs (snd (for_each rest _ ?w1)) !! _ = _ =>
            destruct (IH w1 nm f) as (s & f0 & Hin & Hs);
              [cbn [fs emit copied tick];
               rewrite lookup_insert_ne by congruence; exact Hnone
              |exact Hsome|]
        end.
        exists s, f0. split; [now right|exact Hs].
    + cbn [snd] in Hsome. unfold copied in Hsome. cbn [fs tick] in Hsome.
      destruct (left_behind r g _) as [c|] eqn:Hleft; [|congruence].
      destruct (decide (path_name src = nm)) as [Heq|Hne].
      * subst nm. rewrite lookup_insert_eq in Hsome. injection Hsome as <-.
        exists src, g. split; [now left|]. split; [reflexivity|].
        split; [exact Hsrc|]. exact (left_behind_copy_of _ _ _ _ Hleft).
      * rewrite lookup_insert_ne in Hsome by congruence. congruence.
Qed.

Lemma enqueue_files_result (file_paths : list string) (w : World) :
  (forall t q, exists_raises E t q = None) ->
  (forall t src dest, copy_raises t src dest = None) ->
  let w' :=
    exec (enqueue_files E sources path_name path_str copy_raises file_paths)
      w in
  run (enqueue_files E sources path_name path_str copy_raises file_paths) w
  = Return tt /\
  forall nm,
    fs w' !! (Inbox, nm)
    = match fs w !! (Inbox, nm) with
      | Some f => Some f
      | None => first_regular sources path_name nm file_paths
      end.
Proof.
  intros Hprobe Hcopy. cbv zeta. revert w.
  induction file_paths as [|src rest IH]; intros w.
  - split; [reflexivity|]. intros nm. cbn. now destruct (fs w !! (Inbox, nm)).
  - rewrite enqueue_files_loop. unfold run, exec. cbn [for_each]. unfold bind.
    destruct (enqueue_one_cases src w)
      as [(w1 & Hrun & Hfs1 & Hwhy)
         |[(g & msg & _ & He & _)
          |[(g & Hsrc & _ & Hdest & _ & Hrun)
           |(g & e & r & _ & _ & _ & He & _)]]];
      [|rewrite Hprobe in He; discriminate| |rewrite Hcopy in He; discriminate];
      rewrite Hrun.
    + destruct (IH w1) as [Hret Hfs].
      split; [exact Hret|]. intros nm.
      rewrite enqueue_files_loop in Hfs, Hret. unfold exec in Hfs.
      rewrite Hfs, Hfs1.
      destruct (fs w !! (Inbox, nm)) as [f|] eqn:Hnm; [reflexivity|].
      cbn [first_regular].
      destruct (sources src) as [[f|]|]; try reflexivity.
      destruct (String.eqb_spec (path_name src) nm) as [Heq|_]; [|reflexivity].
      subst nm. destruct Hwhy as [? ?]. congruence.
    + match goal with
      | |- context [for_each rest _ ?w1] =>
          destruct (IH w1) as [Hret Hfs]
      end.
      split; [exact Hret|]. intros nm.
      rewrite enqueue_files_loop in Hfs, Hret. unfold exec in Hfs.
      rewrite Hfs. cbn [fs emit copied tick].
      cbn [first_regular]. rewrite Hsrc.
      destruct (String.eqb_spec (path_name src) nm) as [Heq|Hne].
      * subst nm. rewrite lookup_insert_eq, Hdest. reflexivity.
      * rewrite lookup_insert_ne by congruence. reflexivity.
Qed.


Lemma for_each_app_Return {A} (l1 l2 : list A) (body : A -> M unit) w w1 :
  for_each l1 body w = (Return tt, w1) ->
  for_each (l1 ++ l2) body w = for_each l2 body w1.
Proof.
  revert w. induction l1 as [|x l1 IH]; intros w; cbn [for_each app].
  - now intros [= ->].
  - unfold bind. destruct (body x w) as [[[]|e] w2]; [|discriminate].
    apply IH.
Qed.

(** X20. A copy that fails ends the whole call: when the arguments before
    it went through and [shutil.copy2] raises on a regular file whose name
    is free, [enqueue_files] raises that error; the queue is as the
    arguments before it left it, but for the new inbox entry, which holds
    what the failed copy left of the file, if anything; and the arguments
    after it are not looked at, nor is anything more printed. *)
Theorem copy_error_aborts_enqueue (before_it after_it : list string)
    (src : string) (w w1 : World) (f : File) (e : exn) (r : residue) :
  let dest := (Inbox, path_name src) in
  enqueue_files E sources path_name path_str copy_raises before_it w
  = (Return tt, w1) ->
  sources src = Some (Regular f) ->
  exists_raises E (clock w1) dest = None ->
  fs w1 !! dest = None ->
  copy_raises (S (clock w1)) src dest = Some (e, r) ->
  let call :=
    enqueue_files E sources path_name path_str copy_raises
      (before_it ++ src :: after_it) in
  run call w = Raise e /\
  fs (exec call w) !! dest = left_behind r f (wall_clock E (S (clock w1))) /\
  (forall q, q <> dest -> fs (exec call w) !! q = fs w1 !! q) /\
  log (exec call w) = (log w1 ++ [EvExists dest])%list.
Proof.
  intros dest Hbefore Hsrc Hprobe Hdest Hcopy call.
  assert (Hrun : call w
                 = (Raise e,
                    copied dest (left_behind r f (wall_clock E (S (clock w1))))
                      (tick (EvExists dest) w1))).
  { unfold call. rewrite enqueue_files_loop in *.
    rewrite (for_each_app_Return _ _ _ _ _ Hbefore). cbn [for_each].
    apply bind_Raise.
    destruct (enqueue_one_cases src w1)
      as [(w2 & _ & _ & Hwhy)
         |[(g & msg & _ & Hc & _)
          |[(g & _ & _ & _ & Hc & _)|(g & e' & r' & Hs & _ & _ & Hc & Hrun)]]].
    - rewrite Hsrc in Hwhy. destruct Hwhy as [? ?]. unfold dest in Hdest.
      congruence.
    - unfold dest in Hprobe. congruence.
    - unfold dest in Hcopy. congruence.
    - rewrite Hrun. unfold dest in *.
      assert (g = f) as -> by congruence.
      assert (e' = e) as -> by congruence.
      assert (r' = r) as -> by congruence.
      reflexivity. }
  unfold run, exec. rewrite Hrun. cbn [fst snd]. split; [reflexivity|].
  unfold copied. cbn [fs log tick].
  destruct (left_behind r f _) as [g|].
  - split; [apply lookup_insert_eq|]. split; [|reflexivity].
    intros q Hq. now apply lookup_insert_ne.
  - split; [exact Hdest|]. split; [|reflexivity]. reflexivity.
Qed.
End EnqueueFacts.


(** The disk fills up while [late.mp3] is copied: its first byte is in the
    inbox, and [early.wav] is not looked at. *)
Lemma copy_error_aborts_enqueue_witness :
  let call :=
    enqueue_files calm desktop after_slash id disk_full
      (["gone.mp3"] ++ "desk/late.mp3" :: ["desk/early.wav"]) in
  run call empty_queue = Raise (Exn OSError "No space left on device") /\
  fs (exec call empty_queue) !! (Inbox, "late.mp3")
  = Some (mkFile [x49] 1001) /\
  fs (exec call empty_queue) !! (Inbox, "early.wav") = None.
Proof.
  cbv zeta.
  assert (H1 : enqueue_files calm desktop after_slash id disk_full
                 ["gone.mp3"] empty_queue
               = (Return tt,
                  emit (EvPrint "File not found: gone.mp3") empty_queue))
    by reflexivity.
  pose proof (copy_error_aborts_enqueue calm desktop after_slash id disk_full
                ["gone.mp3"] ["desk/early.wav"] "desk/late.mp3" empty_queue
                _ (mkFile [x49] 300)
                (Exn OSError "No space left on device") (Partial 1)
                H1 eq_refl eq_refl eq_refl eq_refl) as H.
  cbv zeta in H. destruct H as (H2 & H3 & H4 & _).
  split; [exact H2|]. split; [exact H3|].
  exact (H4 (Inbox, "early.wav") ltac:(discriminate)).
Defined.

(** ** From the producer to the scanner *)

(** X21. The order of the queue is that of the modification times of
    the source files, not that of their arrival: [enqueue_files] copies the
    modification time with the content, so of two audio files enqueued into
    an inbox that has neither name, the one given second but modified
    earlier is listed by every later scan before the one given first. *)
Theorem queue_order_follows_source_mtime (sources : string -> option Node)
    (path_name path_str : string -> string)
    (copy_raises : nat -> string -> Path -> option (exn * residue))
    (P E : Env) (first second : string) (f1 f2 : File) (w : World) :
  (forall t q, exists_raises P t q = None) ->
  (forall t src dest, copy_raises t src dest = None) ->
  sources first = Some (Regular f1) ->
  sources second = Some (Regular f2) ->
  path_name first <> path_name second ->
  fs w !! (Inbox, path_name first) = None ->
  fs w !! (Inbox, path_name second) = None ->
  recognised AUDIO_EXTENSIONS (path_name first) ->
  recognised AUDIO_EXTENSIONS (path_name second) ->
  mtime f2 < mtime f1 ->
  let w' :=
    exec (enqueue_files P sources path_name path_str copy_raises
            [first; second]) w in
  fs w' !! (Inbox, path_name first) = Some f1 /\
  fs w' !! (Inbox, path_name second) = Some f2 /\
  forall pending w'',
    get_pending_files E w' = (Return pending, w'') ->
    before (Inbox, path_name second) (Inbox, path_name first) pending.
Proof.
  intros Hprobe Hcopy Hs1 Hs2 Hne Hn1 Hn2 Hr1 Hr2 Hlt w'.
  destruct (enqueue_files_result P sources path_name path_str copy_raises
              [first; second] w Hprobe Hcopy) as [_ Hfs].
  fold w' in Hfs.
  assert (H1 : fs w' !! (Inbox, path_name first) = Some f1).
  { rewrite Hfs, Hn1. cbn [first_regular]. now rewrite Hs1, String.eqb_refl. }
  assert (H2 : fs w' !! (Inbox, path_name second) = Some f2).
  { rewrite Hfs, Hn2. cbn [first_regular]. rewrite Hs1, Hs2.
    destruct (String.eqb_spec (path_name first) (path_name second));
      [contradiction|].
    now rewrite String.eqb_refl. }
  split; [exact H1|]. split; [exact H2|].
  intros pending w'' Hscan.
  destruct (scan_inv E AUDIO_EXTENSIONS w' pending w'' eq_refl Hscan)
    as (_ & _ & _ & _ & _ & Hsorted & Hin).
  apply (sorted_before (mtime_at (fs w'))); [exact Hsorted| | |].
  - apply Hin. repeat split; eauto.
  - apply Hin. repeat split; eauto.
  - unfold mtime_at. now rewrite H1, H2.
Qed.

Lemma queue_order_follows_source_mtime_witness :
  let w' :=
    exec (enqueue_files calm desktop after_slash id no_copy_error
            ["desk/late.mp3"; "desk/early.wav"]) empty_queue in
  (forall t q, exists_raises calm t q = None) /\
  (forall t src dest, no_copy_error t src dest = None) /\
  mtime (mkFile [x52; x49] 20) < mtime (mkFile [x49] 300) /\
  forall pending w'',
    get_pending_files calm w' = (Return pending, w'') ->
    before (Inbox, "early.wav") (Inbox, "late.mp3") pending.
Proof.
  cbv zeta.
  assert (H0 : forall t q, exists_raises calm t q = None) by reflexivity.
  assert (H : forall t src dest, no_copy_error t src dest = None)
    by reflexivity.
  assert (Hlt : mtime (mkFile [x52; x49] 20) < mtime (mkFile [x49] 300))
    by (cbn; lia).
  split; [exact H0|]. split; [exact H|]. split; [exact Hlt|].
  assert (Hr1 : recognised AUDIO_EXTENSIONS (after_slash "desk/late.mp3")).
  { exists ".mp3". split; [cbn; tauto|]. left. now exists "late". }
  assert (Hr2 : recognised AUDIO_EXTENSIONS (after_slash "desk/early.wav")).
  { exists ".wav". split; [cbn; tauto|]. left. now exists "early". }
  exact (proj2 (proj2 (queue_order_follows_source_mtime desktop after_slash id
                         no_copy_error calm calm
                         "desk/late.mp3" "desk/early.wav"
                         (mkFile [x49] 300) (mkFile [x52; x49] 20) empty_queue
                         H0 H eq_refl eq_refl ltac:(discriminate) eq_refl
                         eq_refl Hr1 Hr2 Hlt))).
Defined.

(** ** What the worker may do to the queue directories *)

Lemma written_lookup (m : FS) (q : Path) g d nm :
  ~ In (parent q) queue_dirs -> In d queue_dirs ->
  (<[q := g]> m) !! (d, nm) = m !! (d, nm).
Proof.
  intros Hq Hd. apply lookup_insert_ne. intros ->. now apply Hq.
Qed.

Lemma safe_refl m : safe m m.
Proof.
  intros Hp. split; [exact Hp|]. split.
  - repeat split; auto.
  - split; eauto.
Qed.

Lemma safe_trans m1 m2 m3 : safe m1 m2 -> safe m2 m3 -> safe m1 m3.
Proof.
  intros H12 H23 Hp1.
  destruct (H12 Hp1) as (Hp2 & (Hi & Hd & Hf) & (Hk & Ho)).
  destruct (H23 Hp2) as (Hp3 & (Hi' & Hd' & Hf') & (Hk' & Ho')).
  split; [exact Hp3|]. split.
  - repeat split; eauto.
  - split.
    + intros d nm f Hin Hm. destruct (Hk d nm f Hin Hm) as (d' & Hin' & Hm').
      eauto.
    + eauto.
Qed.

Lemma safe_write m (q : Path) g :
  ~ In (parent q) queue_dirs -> safe m (<[q := g]> m).
Proof.
  intros Hout Hp.
  assert (Hq : forall d nm, In d queue_dirs ->
            (<[q := g]> m) !! (d, nm) = m !! (d, nm))
    by (intros; now apply written_lookup).
  split; [|split].
  - intros nm d d' Hd Hd'. rewrite !Hq by assumption. now apply Hp.
  - repeat split; intros *; rewrite Hq; cbn; auto.
  - split.
    + intros d nm f Hd Hm. exists d. split; [exact Hd|]. now rewrite Hq.
    + intros nm Hs. apply lookup_insert_is_Some'. now right.
Qed.

Lemma safe_move m nm d f :
  In d [Done; Failed] -> m !! (Inbox, nm) = Some f ->
  safe m (<[(d, nm) := f]> (delete (Inbox, nm) m)).
Proof.
  intros Hd Hsrc Hp.
  assert (Hd_q : In d queue_dirs) by (cbn in *; tauto).
  assert (Hd_ne : d <> Inbox) by (cbn in Hd; intuition congruence).
  assert (Hfree : forall d0, In d0 queue_dirs -> d0 <> Inbox ->
                    m !! (d0, nm) = None).
  { intros d0 Hd0 Hne. destruct (m !! (d0, nm)) eqn:H0; [|reflexivity].
    destruct Hne. apply (Hp nm d0 Inbox); cbn; eauto. }
  split; [|split].
  - assert (Hcase : forall d0 x, In d0 queue_dirs ->
              is_Some ((<[(d, nm) := f]> (delete (Inbox, nm) m)) !! (d0, x)) ->
              (x = nm /\ d0 = d) \/ (x <> nm /\ is_Some (m !! (d0, x)))).
    { intros d0 x Hd0. rewrite moved_lookup.
      destruct (decide ((d0, x) = (d, nm))) as [[= -> ->]|Hne1]; [now left|].
      destruct (decide ((d0, x) = (Inbox, nm))) as [[= -> ->]|Hne2].
      { intros [? [=]]. }
      intros Hs. right. split; [|exact Hs]. intros ->.
      rewrite Hfree in Hs by (auto; congruence). destruct Hs; discriminate. }
    intros x d1 d2 Hd1 Hd2 Hs1 Hs2.
    destruct (Hcase d1 x Hd1 Hs1) as [[Hx1 Hd1']|[Hne1 Hm1]];
      destruct (Hcase d2 x Hd2 Hs2) as [[Hx2 Hd2']|[Hne2 Hm2]];
      try congruence.
    now apply (Hp x).
  - split; [|split].
    + intros x Hx. rewrite moved_lookup.
      repeat case_decide; simplify_eq; auto.
    + intros x g Hx. rewrite moved_lookup.
      repeat case_decide; simplify_eq; auto.
      rewrite Hfree in Hx by (cbn; auto). discriminate.
    + intros x g Hx. rewrite moved_lookup.
      repeat case_decide; simplify_eq; auto.
      rewrite Hfree in Hx by (cbn; auto). discriminate.
  - split.
    + intros d0 x g Hd0 Hx.
      destruct (decide (x = nm)) as [->|Hne].
      * assert (d0 = Inbox) as ->.
        { destruct (decide (d0 = Inbox)); [assumption|].
          rewrite Hfree in Hx by assumption. discriminate. }
        assert (g = f) as -> by congruence.
        exists d. split; [exact Hd_q|]. rewrite moved_lookup.
        now rewrite decide_True.
      * exists d0. split; [exact Hd0|]. rewrite moved_lookup.
        rewrite !decide_False by congruence. exact Hx.
    + intros x Hx. rewrite moved_lookup.
      rewrite !decide_False; [exact Hx| congruence|].
      intros [= <- _]. cbn in Hd. intuition discriminate.
Qed.

Lemma on_safe_refl w : on_fs safe w w.
Proof. apply safe_refl. Qed.

Lemma on_safe_trans w1 w2 w3 :
  on_fs safe w1 w2 -> on_fs safe w2 w3 -> on_fs safe w1 w3.
Proof. apply safe_trans. Qed.

Lemma keeps_safe_same {A} (m : M A) : fs_same m -> keeps (on_fs safe) m.
Proof. intros H w. unfold on_fs. rewrite H. apply safe_refl. Qed.

Lemma keeps_safe_bind {A B} (m : M A) (k : A -> M B) :
  keeps (on_fs safe) m -> (forall a, keeps (on_fs safe) (k a)) ->
  keeps (on_fs safe) (bind m k).
Proof. apply keeps_bind, on_safe_trans. Qed.

Lemma keeps_safe_write E (q : Path) text :
  ~ In (parent q) queue_dirs -> keeps (on_fs safe) (write_text E q text).
Proof.
  intros Hq w. unfold exec, write_text.
  destruct (write_raises E (clock w) q) as [[e [n|]]|]; cbn;
    [now apply safe_write|apply safe_refl|now apply safe_write].
Qed.

Lemma keeps_safe_move E nm d :
  clean_moves E ->
  In d [Done; Failed] -> keeps (on_fs safe) (move E (Inbox, nm) (d, nm)).
Proof.
  intros Hclean Hd w. unfold exec, move.
  destruct (fs w !! (Inbox, nm)) as [f|] eqn:Hf; cbn; [|apply safe_refl].
  destruct (move_raises E (clock w) (Inbox, nm) (d, nm)) as [[e r]|] eqn:Hmv;
    cbn.
  - rewrite (Hclean _ _ _ _ _ Hmv). cbn. apply safe_refl.
  - now apply safe_move.
Qed.

Lemma post_with_suffix base sfx :
  post (lift (with_suffix (join OUTPUT_DIR base) sfx))
    (fun q => ~ In (parent q) queue_dirs).
Proof.
  intros w q w'. unfold lift. intros [= H _].
  eapply with_suffix_artifact, H.
Qed.

Lemma keeps_safe_save_result E dumps p r :
  keeps (on_fs safe) (save_result E dumps p r).
Proof.
  unfold save_result.
  eapply (keeps_bind_post (on_fs safe) on_safe_trans);
    [apply post_with_suffix | apply keeps_safe_same, fs_same_lift |].
  intros txt Htxt.
  apply keeps_safe_bind; [now apply keeps_safe_write|]. intros _.
  eapply (keeps_bind_post (on_fs safe) on_safe_trans);
    [apply post_with_suffix | apply keeps_safe_same, fs_same_lift |].
  intros json Hjson.
  apply keeps_safe_bind; [apply keeps_safe_same, fs_same_now_iso|].
  intros stamp.
  apply keeps_safe_bind; [now apply keeps_safe_write|]. intros _.
  apply keeps_safe_same, fs_same_print.
Qed.

Lemma keeps_safe_try_body E dumps model nm :
  quiet E -> clean_moves E ->
  keeps (on_fs safe) (try_body E dumps model (Inbox, nm)).
Proof.
  intros Hq Hclean. unfold try_body.
  apply keeps_safe_bind;
    [now apply keeps_safe_same, fs_same_transcribe_file|]. intros r.
  apply keeps_safe_bind; [apply keeps_safe_save_result|]. intros _.
  apply keeps_safe_bind; [apply keeps_safe_same, fs_same_exists|].
  intros [|]; [|apply keeps_safe_same, fs_same_ret].
  apply keeps_safe_bind;
    [apply keeps_safe_move; cbn; auto|].
  intros _. apply keeps_safe_same, fs_same_print.
Qed.

Lemma keeps_safe_on_error E nm e :
  clean_moves E -> keeps (on_fs safe) (on_error E (Inbox, nm) e).
Proof.
  intros Hclean. unfold on_error.
  apply keeps_safe_bind; [apply keeps_safe_same, fs_same_print|]. intros _.
  apply keeps_safe_bind; [apply keeps_safe_same, fs_same_exists|].
  intros [|]; [|apply keeps_safe_same, fs_same_ret].
  apply (keeps_try (on_fs safe) on_safe_trans).
  - apply keeps_safe_bind; [apply keeps_safe_move; cbn; auto|].
    intros _. apply keeps_safe_same, fs_same_print.
  - intros. apply keeps_safe_same, fs_same_print.
Qed.

Lemma keeps_safe_process_file E dumps model nm :
  quiet E -> clean_moves E ->
  keeps (on_fs safe) (process_file E dumps model (Inbox, nm)).
Proof.
  intros Hq Hclean. unfold process_file.
  apply keeps_safe_bind; [apply keeps_safe_same, fs_same_exists|].
  intros [|]; cbn [negb]; [|apply keeps_safe_same, fs_same_print].
  apply keeps_safe_bind; [apply keeps_safe_same, fs_same_print|]. intros _.
  apply keeps_safe_bind;
    [now apply keeps_safe_same, fs_same_is_file_ready|].
  intros [|]; cbn [negb]; [|apply keeps_safe_same, fs_same_print].
  apply (keeps_try (on_fs safe) on_safe_trans).
  - now apply keeps_safe_try_body.
  - intros. now apply keeps_safe_on_error.
Qed.

Lemma in_zip_snd {K} (ks : list K) (l : list Path) (x : K * Path) :
  In x (zip ks l) -> In (snd x) l.
Proof.
  revert l. induction ks as [|k ks IH]; intros [|p l]; cbn; try tauto.
  intros [<- | Hx]; [now left | right; auto].
Qed.

(** Every path the scanner returns lies in the inbox. *)
Lemma post_get_pending_files E exts :
  star_free_exts exts = true ->
  post (get_pending_files_over E exts)
    (fun pending => forall p, In p pending -> parent p = Inbox).
Proof.
  intros Hsf w pending w' Hrun p Hp.
  destruct (scan_inv _ _ _ _ _ Hsf Hrun) as (_ & _ & _ & _ & _ & _ & Hin).
  apply Hin in Hp. apply Hp.
Qed.

Lemma keeps_safe_poll_cycle E dumps model poll_interval :
  quiet E -> clean_moves E ->
  keeps (on_fs safe) (poll_cycle E dumps model poll_interval).
Proof.
  intros Hq Hclean. unfold poll_cycle, get_pending_files.
  eapply (keeps_bind_post (on_fs safe) on_safe_trans);
    [apply (post_get_pending_files E AUDIO_EXTENSIONS eq_refl)
    |apply keeps_safe_same, fs_same_get_pending_files|].
  intros pending Hinbox.
  apply keeps_safe_bind; [|intros _; now apply keeps_safe_same, fs_same_sleep].
  case_bool_decide; [apply keeps_safe_same, fs_same_ret|].
  apply keeps_safe_bind; [apply keeps_safe_same, fs_same_now_hms|]. intros hms.
  apply keeps_safe_bind; [apply keeps_safe_same, fs_same_print|]. intros _.
  apply keeps_safe_bind; [|intros _; apply keeps_safe_same, fs_same_print].
  apply (keeps_for_each (on_fs safe) on_safe_refl on_safe_trans).
  intros [d nm] Hp. apply Hinbox in Hp. cbn in Hp. subst d.
  now apply keeps_safe_process_file.
Qed.

Lemma keeps_safe_step E dumps model a :
  quiet E -> clean_moves E ->
  keeps (on_fs safe) (worker_step E dumps model a).
Proof.
  intros Hq Hclean. destruct a as [nm|poll_interval]; cbn [worker_step].
  - now apply keeps_safe_process_file.
  - now apply keeps_safe_poll_cycle.
Qed.

Lemma reach_safe E dumps model steps w :
  quiet E -> clean_moves E ->
  safe (fs w) (fs (reach E dumps model steps w)).
Proof.
  intros Hq Hclean. revert w.
  induction steps as [|a steps IH]; intros w; cbn.
  - apply safe_refl.
  - eapply safe_trans; [apply (keeps_safe_step E dumps model a Hq Hclean w)|].
    apply IH.
Qed.

(** The boolean check and the proposition say the same. *)
Lemma well_placed_once m : well_placed m = true -> placed_once m.
Proof.
  unfold well_placed. rewrite forallb_forall.
  intros Hall nm d d' Hd Hd' Hs Hs'.
  assert (Hin : In (d, nm) (map fst (map_to_list m))) by now apply in_listing.
  specialize (Hall _ Hin). cbn [name snd] in Hall.
  apply Nat.leb_le in Hall. unfold locations, queue_dirs in Hall.
  cbn [List.filter] in Hall.
  cbn [In queue_dirs] in Hd, Hd'.
  destruct Hd as [<-|[<-|[<-|[]]]]; destruct Hd' as [<-|[<-|[<-|[]]]];
    try reflexivity;
    rewrite ?(bool_decide_eq_true_2 _ Hs), ?(bool_decide_eq_true_2 _ Hs')
      in Hall;
    repeat (case_bool_decide; cbn in Hall); lia.
Qed.

Lemma one_place_kept (m m' : FS) nm :
  placed_once m' -> no_delete m m' ->
  List.length (locations m nm) = 1%nat -> List.length (locations m' nm) = 1%nat.
Proof.
  intros Hp' [Hk _] Hone.
  assert (Hsome : exists d, In d queue_dirs /\ is_Some (m !! (d, nm))).
  { unfold locations in Hone.
    destruct (List.filter _ queue_dirs) as [|d l] eqn:Hfil; [discriminate|].
    assert (Hd : In d (List.filter
                         (fun d => bool_decide (is_Some (m !! (d, nm))))
                         queue_dirs)) by (rewrite Hfil; now left).
    apply filter_In in Hd as [Hd Hs]. apply bool_decide_eq_true in Hs. eauto. }
  destruct Hsome as (d & Hd & [f Hf]).
  destruct (Hk d nm f Hd Hf) as (d' & Hd' & Hf').
  assert (Honly : forall d0, In d0 queue_dirs ->
            bool_decide (is_Some (m' !! (d0, nm))) = bool_decide (d0 = d')).
  { intros d0 Hd0. apply bool_decide_ext. split.
    - intros Hs. apply (Hp' nm); eauto.
    - intros ->. eauto. }
  unfold locations, queue_dirs. cbn [List.filter].
  rewrite !Honly by (cbn; auto).
  cbn in Hd'. destruct Hd' as [<-|[<-|[<-|[]]]]; reflexivity.
Qed.

(** X23. The queue invariants, for moves that fail cleanly.  In a quiet
    environment in which a move that fails leaves nothing at its
    destination, from a state in which no name is in two queue
    directories, every state the worker reaches by visits of inbox entries
    and turns of the poll loop, whether they return or raise, keeps that
    property; a job that was in exactly one of inbox, done and failed is in
    exactly one of them; and no step moves a file into the inbox, takes a
    file out of done or failed, or makes a source file or an output
    artifact disappear. *)
Theorem queue_invariant (E : Env) (dumps : JValue -> string)
    (model : Whisper) (steps : list action) (w0 : World) :
  quiet E ->
  clean_moves E ->
  well_placed (fs w0) = true ->
  let w := reach E dumps model steps w0 in
  placed_once (fs w) /\
  (forall nm, List.length (locations (fs w0) nm) = 1%nat ->
              List.length (locations (fs w) nm) = 1%nat) /\
  (forall a,
     let w' := exec (worker_step E dumps model a) w in
     no_backward (fs w) (fs w') /\ no_delete (fs w) (fs w')).
Proof.
  intros Hq Hclean Hwp w.
  destruct (reach_safe E dumps model steps w0 Hq Hclean
              (well_placed_once _ Hwp)) as (Hp & _ & Hnd).
  split; [exact Hp|]. split.
  - intros nm. now apply one_place_kept.
  - intros a w'.
    now destruct (keeps_safe_step E dumps model a Hq Hclean w Hp)
      as (_ & ? & ?).
Qed.

Lemma queue_invariant_witness :
  quiet (locked Done) /\
  clean_moves (locked Done) /\
  well_placed (fs inbox_ab) = true /\
  let w := reach (locked Done) dumps_sample hello_model
             [Poll 2; Process "a.mp3"] inbox_ab in
  placed_once (fs w) /\
  (forall nm, List.length (locations (fs inbox_ab) nm) = 1%nat ->
              List.length (locations (fs w) nm) = 1%nat) /\
  (forall a,
     let w' := exec (worker_step (locked Done) dumps_sample hello_model a) w in
     no_backward (fs w) (fs w') /\ no_delete (fs w) (fs w')).
Proof.
  assert (H1 : quiet (locked Done)) by (intros t m; reflexivity).
  assert (H2 : clean_moves (locked Done)).
  { intros t src dst e r. cbn. case_bool_decide; [|discriminate].
    now intros [= _ <-]. }
  assert (H3 : well_placed (fs inbox_ab) = true) by (vm_compute; reflexivity).
  split; [exact H1|]. split; [exact H2|]. split; [exact H3|].
  exact (queue_invariant (locked Done) dumps_sample hello_model
           [Poll 2; Process "a.mp3"] inbox_ab H1 H2 H3).
Defined.

(** ** Errors that stay inside the job's step *)



(** ** The verdict of the readiness check *)



(** ** A negative poll interval *)


